(** * Stability and drift checks (stability.py): model and verification

    A shallow embedding of the stability module: the quantile-binned
    Population Stability Index [_psi], the drift report
    [numeric_drift_report] (time partition, KS gate, severity flag, output
    ordering) and the segment report [segment_stability].

    Numbers.  A double is modelled as [fnum = option Q]: [None] is NaN and
    [Some q] a finite value; infinities never enter as data.  Everything up
    to the clipped probability vectors is computed exactly over [Q].  The
    last line of [_psi] takes a logarithm, so its value lives in the
    extended reals [xreal], whose operations follow IEEE 754 on the special
    cases (division by zero, log of zero, inf - inf) and are exact
    otherwise.  [_psi_ieee] adds the finite range of doubles to the two
    divisions: a quotient too large for a double is an infinity, one too
    small is zero.  The two estimators agree whenever the inverse of
    epsilon is a finite double ([psi_ieee_exact]).  Rounding inside the
    range is modelled where a statement depends on it, by [Ieee.nearest]. *)

From Stdlib Require Import List ZArith QArith Qround Qminmax Qabs.
From Stdlib Require Import Bool Lia Sorted Permutation.
From Stdlib Require Import Ascii String DecimalString.
From Stdlib Require Import Reals Qreals Lra.
From Stdlib Require Lqa.
Import ListNotations.

Open Scope string_scope.
Open Scope list_scope.

Abbreviation length := List.length.

Set Implicit Arguments.

(** ** Doubles and arrays *)

Definition fnum := option Q.

Definition isnan (v : fnum) : bool :=
  match v with None => true | Some _ => false end.

(** [x[~np.isnan(x)]] *)
Fixpoint strip_nan (x : list fnum) : list Q :=
  match x with
  | [] => []
  | None :: t => strip_nan t
  | Some q :: t => q :: strip_nan t
  end.

(** ** numpy primitives used by [_psi] *)

Module Np.

Local Open Scope Q_scope.

Fixpoint insert (x : Q) (l : list Q) : list Q :=
  match l with
  | [] => [x]
  | y :: t => if Qle_bool x y then x :: l else y :: insert x t
  end.

Definition sort (l : list Q) : list Q := fold_right insert [] l.

(** [np.linspace(0, 1, bins + 1)]: [bins + 1] evenly spaced points; a single
    point is the start of the interval. *)
Definition linspace01 (bins : nat) : list Q :=
  match bins with
  | O => [0]
  | S _ => map (fun i => inject_Z (Z.of_nat i) / inject_Z (Z.of_nat bins))
               (seq 0 (S bins))
  end.

(** One quantile of a sorted non-empty sample, default (linear) method:
    the virtual index [q * (n - 1)] is split into its floor and fractional
    part, and the two neighbours are interpolated. *)
Definition quantile1 (s : list Q) (q : Q) : Q :=
  let n := Z.of_nat (length s) in
  let vidx := q * inject_Z (n - 1) in
  let lo := Qfloor vidx in
  let hi := Z.min (lo + 1) (n - 1) in
  let g := vidx - inject_Z lo in
  let a := nth (Z.to_nat lo) s 0 in
  let b := nth (Z.to_nat hi) s 0 in
  a + g * (b - a).

(** [np.quantile(x, qs)] *)
Definition quantile (x : list Q) (qs : list Q) : list Q :=
  map (quantile1 (sort x)) qs.

Fixpoint dedup (l : list Q) : list Q :=
  match l with
  | [] => []
  | x :: t =>
      match t with
      | [] => [x]
      | y :: _ => if Qeq_bool x y then dedup t else x :: dedup t
      end
  end.

(** [np.unique(x)]: the sorted distinct values. *)
Definition unique (x : list Q) : list Q := dedup (sort x).

Definition count (p : Q -> bool) (x : list Q) : Z :=
  Z.of_nat (length (filter p x)).

(** [np.histogram(x, bins=edges)[0]]: bin [i] is [edges[i] <= v < edges[i+1]],
    except the last one, which also holds its right edge; values outside the
    edges are not counted. *)
Fixpoint histogram (x : list Q) (edges : list Q) : list Z :=
  match edges with
  | lo :: ((hi :: rest) as tl) =>
      let upper v := match rest with
                     | [] => Qle_bool v hi
                     | _ :: _ => negb (Qle_bool hi v)
                     end in
      count (fun v => Qle_bool lo v && upper v) x :: histogram x tl
  | _ => []
  end.

Definition sum (c : list Z) : Z := fold_right Z.add 0%Z c.

(** [np.clip(v, lo, hi)], that is, [minimum(maximum(v, lo), hi)]. *)
Definition clip (lo hi v : Q) : Q := Qmin (Qmax v lo) hi.

End Np.

(** ** Extended reals: the values of the final formula *)

Inductive ext (A : Type) : Type :=
| NaN : ext A
| NInf : ext A
| PInf : ext A
| Fin : A -> ext A.

Arguments NaN {A}.
Arguments NInf {A}.
Arguments PInf {A}.
Arguments Fin {A} _.

Definition xreal := ext R.

Module X.

(** [a / e] on finite doubles (signed zeros are not told apart: a zero
    divisor is [+0]). *)
Definition div (a e : Q) : ext Q :=
  if Qeq_bool e 0 then
    if Qeq_bool a 0 then NaN
    else if Qle_bool 0 a then PInf else NInf
  else Fin (a / e)%Q.

(** [np.log] *)
Definition log (x : ext Q) : xreal :=
  match x with
  | NaN => NaN
  | NInf => NaN
  | PInf => PInf
  | Fin q =>
      if Qeq_bool q 0 then NInf
      else if Qle_bool 0 q then Fin (ln (Q2R q)) else NaN
  end.

(** [d * l] for a finite [d] *)
Definition mul (d : Q) (l : xreal) : xreal :=
  match l with
  | NaN => NaN
  | Fin r => Fin (Q2R d * r)%R
  | PInf =>
      if Qeq_bool d 0 then NaN else if Qle_bool 0 d then PInf else NInf
  | NInf =>
      if Qeq_bool d 0 then NaN else if Qle_bool 0 d then NInf else PInf
  end.

Definition add (x y : xreal) : xreal :=
  match x, y with
  | NaN, _ | _, NaN => NaN
  | PInf, NInf | NInf, PInf => NaN
  | PInf, _ | _, PInf => PInf
  | NInf, _ | _, NInf => NInf
  | Fin a, Fin b => Fin (a + b)%R
  end.

(** [np.sum] *)
Definition sum (l : list xreal) : xreal := fold_right add (Fin 0%R) l.

End X.

(** ** The PSI estimator *)

Section Psi.

Local Open Scope Q_scope.

(** Quantile edges of the reference sample, deduplicated (lines 36-38). *)
Definition psi_edges (expected : list Q) (bins : nat) : list Q :=
  Np.unique (Np.quantile expected (Np.linspace01 bins)).

(** Lines 45-49: counts to probabilities, clipped into [[eps, 1]]. *)
Definition psi_dist (counts : list Z) (eps : Q) : list Q :=
  let total := Z.max (Np.sum counts) 1 in
  map (fun c => Np.clip eps 1 (inject_Z c / inject_Z total)) counts.

(** One summand of line 51. *)
Definition psi_term (a e : Q) : xreal :=
  X.mul (a - e) (X.log (X.div a e)).

Fixpoint psi_terms (a_dist e_dist : list Q) : list xreal :=
  match a_dist, e_dist with
  | a :: ta, e :: te => psi_term a e :: psi_terms ta te
  | _, _ => []
  end.

Definition _psi (expected actual : list fnum) (bins : nat) (eps : Q) : xreal :=
  let expected := strip_nan expected in
  let actual := strip_nan actual in
  if (length expected =? 0)%nat || (length actual =? 0)%nat then NaN
  else
    let edges := psi_edges expected bins in
    if (length edges <? 3)%nat then NaN
    else
      let e_counts := Np.histogram expected edges in
      let a_counts := Np.histogram actual edges in
      let e_dist := psi_dist e_counts eps in
      let a_dist := psi_dist a_counts eps in
      X.sum (psi_terms a_dist e_dist).

End Psi.

(** ** The finite range of doubles *)

(** [_psi] above divides exactly.  A double has a largest and a smallest
    magnitude, and the quotient of two doubles leaves the finite numbers
    when it passes them; [_psi_ieee] is [_psi] with that quotient, and
    with the NaN that [0 / 0] would put into a probability vector. *)

Module Ieee.

Local Open Scope Q_scope.

(** A quotient at or above [2^1024 - 2^970], half a unit in the last place
    over the largest double, rounds to infinity; one at or below [2^-1075],
    half the smallest positive double, rounds to zero. *)
Definition overflow_threshold : Q := inject_Z (2 ^ 1024 - 2 ^ 970).

Definition underflow_threshold : Q := 1 # (2 ^ 1075).

(** [a / e] on finite doubles *)
Definition div (a e : Q) : ext Q :=
  if Qeq_bool e 0 then
    if Qeq_bool a 0 then NaN
    else if Qle_bool 0 a then PInf else NInf
  else
    let q := a / e in
    if Qle_bool overflow_threshold q then PInf
    else if Qle_bool q (- overflow_threshold) then NInf
    else if Qle_bool (Qabs q) underflow_threshold then Fin 0
    else Fin q.

(** [np.clip(v, lo, hi)] on a double that may be infinite or NaN *)
Definition clip (lo hi : Q) (v : ext Q) : fnum :=
  match v with
  | NaN => None
  | PInf => Some hi
  | NInf => Some (Qmin lo hi)
  | Fin q => Some (Np.clip lo hi q)
  end.

(** [floor (log2 x)] for a positive [x] *)
Definition ilog2 (x : Q) : Z :=
  let k := (Z.log2 (Qnum x) - Z.log2 (Zpos (Qden x)))%Z in
  if Qle_bool (2 ^ k) x then k else (k - 1)%Z.

(** The number with a significand of 53 bits nearest to [x], ties to the
    even significand; the range of the exponent is not limited. *)
Definition nearest (x : Q) : Q :=
  if Qeq_bool x 0 then 0
  else
    let e := (ilog2 (Qabs x) - 52)%Z in
    let m := Qabs x * 2 ^ (- e) in
    let f := Qfloor m in
    let r := m - inject_Z f in
    let n :=
      if Qeq_bool r (1 # 2) then (if Z.even f then f else f + 1)%Z
      else if Qle_bool r (1 # 2) then f else (f + 1)%Z in
    let y := Qred (inject_Z n * 2 ^ e) in
    if Qle_bool 0 x then y else - y.

(** A sum taken left to right, each partial sum rounded. *)
Definition sum (l : list Q) : Q :=
  fold_left (fun acc x => nearest (acc + x)) l 0.

(** The smallest positive double, [2^-1074]. *)
Definition smallest_positive : Q := 1 # (2 ^ 1074).

(** [1 / eps] is a finite double: [eps] is above [1 / (2^1024 - 2^970)], as
    every normal double and every subnormal one above [2^-1024] is. *)
Definition inverse_finite (eps : Q) : Prop := 1 < eps * overflow_threshold.

End Ieee.

Section PsiIeee.

Local Open Scope Q_scope.

(** Lines 45-49 again: a count over the guarded total, clipped. *)
Definition psi_dist_ieee (counts : list Z) (eps : Q) : list fnum :=
  let total := Z.max (Np.sum counts) 1 in
  map (fun c => Ieee.clip eps 1 (Ieee.div (inject_Z c) (inject_Z total)))
      counts.

(** One summand of line 51; NaN where a probability is NaN. *)
Definition psi_term_ieee (a e : fnum) : xreal :=
  match a, e with
  | Some a, Some e => X.mul (a - e) (X.log (Ieee.div a e))
  | _, _ => NaN
  end.

Fixpoint psi_terms_ieee (a_dist e_dist : list fnum) : list xreal :=
  match a_dist, e_dist with
  | a :: ta, e :: te => psi_term_ieee a e :: psi_terms_ieee ta te
  | _, _ => []
  end.

Definition _psi_ieee (expected actual : list fnum) (bins : nat) (eps : Q)
  : xreal :=
  let expected := strip_nan expected in
  let actual := strip_nan actual in
  if (length expected =? 0)%nat || (length actual =? 0)%nat then NaN
  else
    let edges := psi_edges expected bins in
    if (length edges <? 3)%nat then NaN
    else
      let e_counts := Np.histogram expected edges in
      let a_counts := Np.histogram actual edges in
      let e_dist := psi_dist_ieee e_counts eps in
      let a_dist := psi_dist_ieee a_counts eps in
      X.sum (psi_terms_ieee a_dist e_dist).

End PsiIeee.

(** ** Tables *)

(** A cell of a column: missing, or a Python bool, int, float or str. *)
Inductive cell : Type :=
| CNull
| CBool (b : bool)
| CInt (z : Z)
| CFloat (q : Q)
| CStr (s : string).

Inductive dtype : Type := Float64 | Int64 | Boolean | Object.

Record Series : Type := { s_dtype : dtype; s_values : list cell }.

(** A data frame: its named columns, in order. *)
Definition DataFrame := list (string * Series).

Definition columns (df : DataFrame) : list string := map fst df.

(** [name in df.columns] *)
Definition has_column (df : DataFrame) (name : string) : bool :=
  existsb (String.eqb name) (columns df).

(** [df[name]], for a column that is there *)
Fixpoint get_column (df : DataFrame) (name : string) : Series :=
  match df with
  | [] => {| s_dtype := Object; s_values := [] |}
  | (n, s) :: t => if String.eqb name n then s else get_column t name
  end.

(** [l[mask]] *)
Fixpoint bool_index (A : Type) (mask : list bool) (l : list A) : list A :=
  match mask, l with
  | b :: mt, x :: lt => if b then x :: bool_index mt lt else bool_index mt lt
  | _, _ => []
  end.

(** [df[mask]] *)
Definition select_rows (df : DataFrame) (mask : list bool) : DataFrame :=
  map (fun c => (fst c, {| s_dtype := s_dtype (snd c);
                           s_values := bool_index mask (s_values (snd c)) |}))
      df.

(** The positions of the rows that [df[mask]] keeps. *)
Fixpoint row_positions_from (i : nat) (mask : list bool) : list nat :=
  match mask with
  | [] => []
  | b :: t =>
      if b then i :: row_positions_from (S i) t
      else row_positions_from (S i) t
  end.

Definition row_positions (mask : list bool) : list nat :=
  row_positions_from 0 mask.

Definition notna (c : cell) : bool :=
  match c with CNull => false | _ => true end.

(** [s.to_numpy(dtype=float)] on a numeric column, which holds no string *)
Definition cell_to_float (c : cell) : fnum :=
  match c with
  | CNull => None
  | CBool b => Some (if b then 1 else 0)%Q
  | CInt z => Some (inject_Z z)
  | CFloat q => Some q
  | CStr _ => None
  end.

Definition to_numpy_float (s : Series) : list fnum :=
  map cell_to_float (s_values s).

(** Exceptions, and results of calls that may raise. *)
Inductive exn : Type := KeyError | ValueError | OtherError.

Inductive result (A : Type) : Type :=
| Ok : A -> result A
| Raise : exn -> result A.

Arguments Ok {A} _.
Arguments Raise {A} _.

(** A returned frame: [pd.DataFrame()] has no columns at all; any other
    frame has its columns, and [Table] holds its contents. *)
Inductive frame (A : Type) : Type :=
| NoColumns : frame A
| Table : A -> frame A.

Arguments NoColumns {A}.
Arguments Table {A} _.

(** ** The drift report *)

Record StabilityConfig : Type := {
  psi_bins : nat;
  psi_epsilon : Q;
  psi_warn : Q;
  psi_alert : Q
}.

Definition default_config : StabilityConfig :=
  {| psi_bins := 10; psi_epsilon := 1 # 1000000;
     psi_warn := 1 # 10; psi_alert := 1 # 4 |}.

Record DriftRow : Type := {
  feature : string;
  psi : ext Q;
  ks_pvalue : fnum;
  flag : string;
  pre_n : Z;
  post_n : Z
}.

(** [p >= t] for a double [p] and a finite threshold [t] *)
Definition xgeb (p : ext Q) (t : Q) : bool :=
  match p with
  | NaN => false
  | NInf => false
  | PInf => true
  | Fin q => Qle_bool t q
  end.

Definition xisnan (p : ext Q) : bool :=
  match p with NaN => true | _ => false end.

(** Lines 95-100. *)
Definition drift_flag (cfg : StabilityConfig) (psi_val : ext Q) : string :=
  if negb (xisnan psi_val) then
    if xgeb psi_val (psi_alert cfg) then "alert"
    else if xgeb psi_val (psi_warn cfg) then "warn"
    else "ok"
  else "ok".

(** Timestamps are instants on the integer time line; [None] is NaT, and
    every comparison with NaT is false.  The column and the cutoff are
    taken to be of one kind, both with a time zone or both without: on a
    mixed pair the comparisons of lines 73-74 raise [TypeError], a case
    that is outside these definitions. *)
Definition ts_lt (x split : option Z) : bool :=
  match x, split with
  | Some a, Some b => (a <? b)%Z
  | _, _ => false
  end.

Definition ts_ge (x split : option Z) : bool :=
  match x, split with
  | Some a, Some b => (b <=? a)%Z
  | _, _ => false
  end.

(** The two masks of lines 73-74. *)
Definition mask_pre (t : list (option Z)) (split : option Z) : list bool :=
  map (fun x => ts_lt x split) t.

Definition mask_post (t : list (option Z)) (split : option Z) : list bool :=
  map (fun x => ts_ge x split) t.

(** [y >= x] on doubles, with NaN comparing false *)
Definition xq_geb (y x : ext Q) : bool :=
  match y, x with
  | NaN, _ | _, NaN => false
  | PInf, _ => true
  | _, NInf => true
  | NInf, _ => false
  | _, PInf => false
  | Fin a, Fin b => Qle_bool b a
  end.

(** Descending order on the PSI column, missing values last. *)
Definition psi_desc_leb (p1 p2 : ext Q) : bool :=
  match p2 with
  | NaN => true
  | _ => match p1 with NaN => false | _ => xq_geb p1 p2 end
  end.

(** The order of [sort_values(["flag", "psi"], ascending=[True, False])]. *)
Definition row_leb (r1 r2 : DriftRow) : bool :=
  match String.compare (flag r1) (flag r2) with
  | Lt => true
  | Gt => false
  | Eq => psi_desc_leb (psi r1) (psi r2)
  end.

Fixpoint insert_row (r : DriftRow) (l : list DriftRow) : list DriftRow :=
  match l with
  | [] => [r]
  | y :: t => if row_leb r y then r :: l else y :: insert_row r t
  end.

(** Line 113: a stable sort on the two keys. *)
Definition sort_values (rows : list DriftRow) : list DriftRow :=
  fold_right insert_row [] rows.

Definition is_numeric (s : Series) : bool :=
  match s_dtype s with Float64 | Int64 => true | _ => false end.

Definition notna_sum (s : Series) : Z :=
  Z.of_nat (length (filter notna (s_values s))).

Section DriftReport.

(** What the libraries supply: the lenient timestamp parser of line 70 (one
    cell at a time, [None] for a value that does not parse), the strict one
    of line 71, the two-sample KS test, and the rounding of a real to a
    double. *)
Variable parse_datetime : cell -> option Z.
Variable to_timestamp : string -> result (option Z).
Variable ks_2samp : list Q -> list Q -> result fnum.
Variable round : R -> Q.

(** [float(psi)] *)
Definition to_float (x : xreal) : ext Q :=
  match x with
  | NaN => NaN
  | NInf => NInf
  | PInf => PInf
  | Fin r => Fin (round r)
  end.

(** Lines 86-93. *)
Definition ks_adapter (e a : list fnum) : fnum :=
  let e2 := strip_nan e in
  let a2 := strip_nan a in
  if (20 <? length e2)%nat && (20 <? length a2)%nat then
    match ks_2samp e2 a2 with
    | Ok p => p
    | Raise _ => None
    end
  else None.

(** The body of the loop of lines 81-111. *)
Definition drift_row (cfg : StabilityConfig) (pre post : DataFrame)
    (col : string) : DriftRow :=
  let e := to_numpy_float (get_column pre col) in
  let a := to_numpy_float (get_column post col) in
  let psi_val := to_float (_psi e a (psi_bins cfg) (psi_epsilon cfg)) in
  let ks_p := ks_adapter e a in
  {| feature := col;
     psi := psi_val;
     ks_pvalue := ks_p;
     flag := drift_flag cfg psi_val;
     pre_n := notna_sum (get_column pre col);
     post_n := notna_sum (get_column post col) |}.

Definition numeric_drift_report (df : DataFrame) (time_col split_time : string)
    (features : option (list string)) (cfg : option StabilityConfig)
  : result (frame (list DriftRow)) :=
  let cfg := match cfg with Some c => c | None => default_config end in
  if negb (has_column df time_col) then Ok NoColumns
  else
    let t := map parse_datetime (s_values (get_column df time_col)) in
    match to_timestamp split_time with
    | Raise e => Raise e
    | Ok split =>
        let pre := select_rows df (mask_pre t split) in
        let post := select_rows df (mask_post t split) in
        let num := columns (filter (fun c => is_numeric (snd c)) df) in
        let num :=
          match features with
          | Some ((_ :: _) as fs) =>
              filter (fun c => existsb (String.eqb c) fs) num
          | _ => num
          end in
        let rows := map (drift_row cfg pre post) num in
        match rows with
        | [] => Raise KeyError
        | _ :: _ => Ok (Table (sort_values rows))
        end
    end.

End DriftReport.

(** ** The segment report *)

Module Py.

(** Text is Latin-1: a string is the list of its code points, all below
    256.  The capitals are A-Z and the accented ones, 192-222 without the
    multiplication sign 215; each is 32 below its small letter. *)
Definition is_upper (c : ascii) : bool :=
  let n := nat_of_ascii c in
  ((65 <=? n)%nat && (n <=? 90)%nat) ||
  ((192 <=? n)%nat && (n <=? 222)%nat && negb (n =? 215)%nat).

Definition lower_char (c : ascii) : ascii :=
  if is_upper c then ascii_of_nat (nat_of_ascii c + 32) else c.

(** [s.lower()] *)
Fixpoint lower (s : string) : string :=
  match s with
  | EmptyString => EmptyString
  | String c t => String (lower_char c) (lower t)
  end.

(** The characters [str.strip] removes: tab, newline, vertical tab, form
    feed, carriage return, the four separators 28-31, the space, the next
    line control 133 and the no-break space 160. *)
Definition is_space (c : ascii) : bool :=
  let n := nat_of_ascii c in
  ((9 <=? n)%nat && (n <=? 13)%nat) || ((28 <=? n)%nat && (n <=? 32)%nat) ||
  (n =? 133)%nat || (n =? 160)%nat.

Fixpoint lstrip (s : string) : string :=
  match s with
  | EmptyString => EmptyString
  | String c t => if is_space c then lstrip t else s
  end.

Definition reverse (s : string) : string :=
  string_of_list_ascii (rev (list_ascii_of_string s)).

Definition rstrip (s : string) : string := reverse (lstrip (reverse s)).

(** [s.strip()] *)
Definition strip (s : string) : string := rstrip (lstrip s).

(** [str(z)] on an int *)
Definition str_int (z : Z) : string := NilZero.string_of_int (Z.to_int z).

(** The number a cell stands for under Python's [==]: [True == 1 == 1.0]. *)
Definition cell_num (c : cell) : option Q :=
  match c with
  | CBool b => Some (if b then 1 else 0)%Q
  | CInt z => Some (inject_Z z)
  | CFloat q => Some q
  | _ => None
  end.

(** [a == b] on non-missing cells, as a hash table of objects sees it. *)
Definition cell_eqb (a b : cell) : bool :=
  match a, b with
  | CStr x, CStr y => String.eqb x y
  | _, _ =>
      match cell_num a, cell_num b with
      | Some x, Some y => Qeq_bool x y
      | _, _ => false
      end
  end.

End Py.

Record SegRow : Type := {
  segment : string;
  count : Z;
  pct : Q
}.

(** The frame [out]: its three columns row by row, and the fourth column
    when it was attached. *)
Record SegTable : Type := {
  seg_rows : list SegRow;
  target_rate : option (list fnum)
}.

(** The dict of line 140. *)
Definition mapping : list (string * Z) :=
  [("1", 1%Z); ("0", 0%Z); ("yes", 1%Z); ("no", 0%Z);
   ("true", 1%Z); ("false", 0%Z)].

Fixpoint dict_get (A : Type) (d : list (string * A)) (k : string) : option A :=
  match d with
  | [] => None
  | (k', v) :: t => if String.eqb k k' then Some v else dict_get t k
  end.

Section SegmentStability.

(** [repr] of a finite double, as the interpreter prints it. *)
Variable float_repr : Q -> string.

(** [str(c)]; a missing value prints as [nan]. *)
Definition str_cell (c : cell) : string :=
  match c with
  | CNull => "nan"
  | CBool true => "True"
  | CBool false => "False"
  | CInt z => Py.str_int z
  | CFloat q => float_repr q
  | CStr s => s
  end.

(** One more occurrence of the key [k] in a tally kept in order of first
    appearance. *)
Fixpoint bump (k : cell) (acc : list (cell * Z)) : list (cell * Z) :=
  match acc with
  | [] => [(k, 1%Z)]
  | (k', n) :: t =>
      if Py.cell_eqb k' k then (k', (n + 1)%Z) :: t
      else (k', n) :: bump k t
  end.

Definition tally (l : list cell) : list (cell * Z) :=
  fold_left (fun acc c => bump c acc) (filter notna l) [].

Fixpoint insert_count (x : cell * Z) (l : list (cell * Z))
  : list (cell * Z) :=
  match l with
  | [] => [x]
  | y :: t =>
      if (snd y <=? snd x)%Z then x :: l else y :: insert_count x t
  end.

(** [s.value_counts()]: the counts of the non-missing values, largest
    first, ties in order of first appearance. *)
Definition value_counts (l : list cell) : list (cell * Z) :=
  fold_right insert_count [] (tally l).

(** [x.head(n)]: the first [n] entries, or all but the last [-n] when [n]
    is negative. *)
Definition head (A : Type) (n : Z) (l : list A) : list A :=
  if (0 <=? n)%Z then firstn (Z.to_nat n) l
  else firstn (length l - Z.to_nat (- n)) l.

(** Lines 133-134. *)
Definition segment_rows (counts : list (cell * Z)) : list SegRow :=
  let total := Z.max (Np.sum (map snd counts)) 1 in
  map (fun kc => {| segment := str_cell (fst kc);
                    count := snd kc;
                    pct := (inject_Z (snd kc) / inject_Z total)%Q |})
      counts.

(** Line 139: a missing value stays missing through [astype(str)] and the
    two string methods; every other value is printed, lowercased and
    trimmed. *)
Definition normalise_target (y : list cell) : list (option string) :=
  map (fun c => match c with
                | CNull => None
                | _ => Some (Py.strip (Py.lower (str_cell c)))
                end) y.

(** Line 141: the values that are left by [dropna()] are all keys of the
    dict. *)
Definition binary_like (y2 : list (option string)) : bool :=
  forallb (fun v => match v with
                    | None => true
                    | Some s => existsb (String.eqb s) (map fst mapping)
                    end) y2.

(** Line 142: a value without an entry, and a missing one, map to NaN. *)
Definition binarise (y2 : list (option string)) : list fnum :=
  map (fun v => match v with
                | None => None
                | Some s => match dict_get mapping s with
                            | Some b => Some (inject_Z b)
                            | None => None
                            end
                end) y2.

(** Line 143: the rows with a segment and a target value. *)
Fixpoint zip_dropna (seg : list cell) (y : list fnum) : list (cell * Q) :=
  match seg, y with
  | s :: st, v :: yt =>
      match s, v with
      | CNull, _ | _, None => zip_dropna st yt
      | _, Some q => (s, q) :: zip_dropna st yt
      end
  | _, _ => []
  end.

(** One more row in its group: the running sum and size per key. *)
Fixpoint add_to_group (k : cell) (v : Q) (acc : list (cell * (Q * Z)))
  : list (cell * (Q * Z)) :=
  match acc with
  | [] => [(k, (v, 1%Z))]
  | (k', (sm, n)) :: t =>
      if Py.cell_eqb k' k then (k', ((sm + v)%Q, (n + 1)%Z)) :: t
      else (k', (sm, n)) :: add_to_group k v t
  end.

(** Line 144: [groupby("seg")["y"].mean()], a series indexed by the keys. *)
Definition group_mean (tmp : list (cell * Q)) : list (cell * Q) :=
  map (fun g => (fst g, (fst (snd g) / inject_Z (snd (snd g)))%Q))
      (fold_left (fun acc r => add_to_group (fst r) (snd r) acc) tmp []).

(** Line 145, [label.map(rate)]: the entry of [rate] whose key equals the
    label, a string. *)
Fixpoint map_rate (rate : list (cell * Q)) (label : string) : fnum :=
  match rate with
  | [] => None
  | (k, m) :: t =>
      if Py.cell_eqb k (CStr label) then Some m else map_rate t label
  end.

Definition segment_stability (df : DataFrame) (segment_col : string)
    (target_col : option string) (top_k : Z) : frame SegTable :=
  if negb (has_column df segment_col) then NoColumns
  else
    let seg := s_values (get_column df segment_col) in
    let counts := head top_k (value_counts seg) in
    let out := segment_rows counts in
    let wanted :=
      match target_col with
      | Some ((String _ _) as c) => if has_column df c then Some c else None
      | _ => None
      end in
    match wanted with
    | None => Table {| seg_rows := out; target_rate := None |}
    | Some c =>
        let y2 := normalise_target (s_values (get_column df c)) in
        if binary_like y2 then
          let ybin := binarise y2 in
          let tmp := zip_dropna seg ybin in
          let rate := group_mean tmp in
          Table {| seg_rows := out;
                   target_rate :=
                     Some (map (fun r => map_rate rate (segment r)) out) |}
        else Table {| seg_rows := out; target_rate := None |}
    end.

End SegmentStability.

(** [repr] on the doubles that are integers of moderate size. *)
Definition repr_integral (q : Q) : string :=
  (Py.str_int (Qfloor q) ++ ".0")%string.

(** ** Vocabulary of the statements *)

(** [p >= t] and [p < t] for a double [p] that is not NaN. *)
Definition ge_threshold (p : ext Q) (t : Q) : Prop :=
  match p with
  | PInf => True
  | Fin q => (t <= q)%Q
  | _ => False
  end.

Definition lt_threshold (p : ext Q) (t : Q) : Prop :=
  match p with
  | NInf => True
  | Fin q => (q < t)%Q
  | _ => False
  end.

(** [p1] does not come after [p2] when PSI values are listed largest first
    and undefined ones last. *)
Definition psi_desc (p1 p2 : ext Q) : Prop :=
  match p1, p2 with
  | _, NaN => True
  | NaN, _ => False
  | PInf, _ => True
  | _, NInf => True
  | NInf, _ => False
  | _, PInf => False
  | Fin a, Fin b => (b <= a)%Q
  end.

(** The order of the report: the flag's label first, in the order of
    strings; among equal flags, PSI descending. *)
Definition flag_psi_order (r1 r2 : DriftRow) : Prop :=
  String.ltb (flag r1) (flag r2) = true \/
  (flag r1 = flag r2 /\ psi_desc (psi r1) (psi r2)).

Definition in_unit_interval (p : fnum) : Prop :=
  exists q : Q, p = Some q /\ (0 <= q)%Q /\ (q <= 1)%Q.

(** A clipped probability: a number, not NaN, between the floor [m] and 1. *)
Definition probability_above (m : Q) (p : fnum) : Prop :=
  exists q : Q, p = Some q /\ (m <= q)%Q /\ (q <= 1)%Q.

(** How many cells of [l] equal the key [k]. *)
Definition occurrences (k : cell) (l : list cell) : Z :=
  Z.of_nat (length (filter (fun c => Py.cell_eqb c k) l)).

(** The count a tally holds for a cell: that of the first key equal to it. *)
Fixpoint find_count (acc : list (cell * Z)) (c : cell) : Z :=
  match acc with
  | [] => 0%Z
  | (k, n) :: t => if Py.cell_eqb k c then n else find_count t c
  end.

(** The keys of a tally are non-missing and pairwise different. *)
Inductive distinct_keys : list (cell * Z) -> Prop :=
| distinct_nil : distinct_keys []
| distinct_cons (k : cell) (n : Z) (t : list (cell * Z)) :
    Py.cell_eqb k k = true ->
    Forall (fun kc => Py.cell_eqb k (fst kc) = false) t ->
    distinct_keys t ->
    distinct_keys ((k, n) :: t).

(** [x] comes no later than [y] when counts are listed largest first. *)
Definition count_ge (x y : cell * Z) : Prop := (snd y <= snd x)%Z.

Definition sum_pct (rows : list SegRow) : Q :=
  fold_right Qplus 0%Q (map pct rows).

Definition sum_count (rows : list SegRow) : Z :=
  Np.sum (map count rows).

(** The sum of the shares once each is rounded by [rnd], as the division
    of line 134 rounds its quotient to a double. *)
Definition sum_rounded_pct (rnd : Q -> Q) (rows : list SegRow) : Q :=
  fold_right Qplus 0%Q (map (fun r => rnd (pct r)) rows).

(** Two rows that differ at most in their KS p-value. *)
Definition same_but_ks (r r' : DriftRow) : Prop :=
  feature r = feature r' /\ psi r = psi r' /\ flag r = flag r' /\
  pre_n r = pre_n r' /\ post_n r = post_n r'.

(** ** Sample data *)

(** The sample [0, 1]: eleven distinct edges. *)
Definition sample01 : list fnum := [Some 0%Q; Some 1%Q].

(** A current sample that lies wholly above the edges of [sample01]. *)
Definition sample_outside : list fnum := [Some 5%Q; Some 6%Q].

(** A current sample of one value, 0.15, in the second bin of [sample01],
    where the reference has none. *)
Definition sample_between : list fnum := [Some (3 # 20)%Q].

(** Twenty-nine zeros, then 1 and 2: three distinct values, but every
    quantile short of the last is 0. *)
Definition sample_heavy : list fnum :=
  repeat (Some 0%Q) 29 ++ [Some 1%Q; Some 2%Q].

Definition object_series (l : list cell) : Series :=
  {| s_dtype := Object; s_values := l |}.

Definition int_series (l : list Z) : Series :=
  {| s_dtype := Int64; s_values := map CInt l |}.

(** Six rows, segments A, A, A, B, B, C, with a binary-like target. *)
Definition df_segments : DataFrame :=
  [("seg", object_series [CStr "A"; CStr "A"; CStr "A";
                          CStr "B"; CStr "B"; CStr "C"]);
   ("y", object_series [CStr " Yes"; CStr "no"; CInt 1;
                        CBool true; CStr "FALSE "; CInt 0])].

(** Three rows whose segment is a store number. *)
Definition df_stores : DataFrame :=
  [("store", int_series [1; 1; 2]%Z);
   ("y", object_series [CStr "yes"; CStr "no"; CStr "yes"])].

(** A frame whose segment column has no row. *)
Definition df_no_rows : DataFrame := [("seg", object_series [])].

(** Five rows whose target has a missing value and a value that ends in a
    no-break space. *)
Definition nbsp : string := String (ascii_of_nat 160) EmptyString.

Definition df_targets : DataFrame :=
  [("seg", object_series [CStr "a"; CStr "a"; CStr "b"; CStr "b"; CStr "b"]);
   ("y", object_series [CStr "yes"; CNull; CStr "no";
                        CStr ("No" ++ nbsp); CStr "TRUE"])].

(** A KS test that always answers one half. *)
Definition ks_half (_ _ : list Q) : result fnum := Ok (Some (1 # 2)%Q).

(** A parser that reads no timestamp, a cutoff that does not parse, and a
    rounding to zero. *)
Definition parse_nothing (_ : cell) : option Z := None.

Definition cutoff_unparsable (_ : string) : result (option Z) :=
  Raise ValueError.

Definition round_to_zero (_ : R) : Q := 0%Q.

(** A parser that reads an integer cell as that instant and nothing else, a
    cutoff parser that reads a decimal numeral, and a rounding that answers
    one half. *)
Definition parse_epoch (c : cell) : option Z :=
  match c with CInt z => Some z | _ => None end.

Definition cutoff_epoch (s : string) : result (option Z) :=
  match NilZero.int_of_string s with
  | Some i => Ok (Some (Z.of_int i))
  | None => Raise ValueError
  end.

Definition round_to_half (_ : R) : Q := (1 # 2)%Q.

Definition float_series (l : list cell) : Series :=
  {| s_dtype := Float64; s_values := l |}.

(** Forty-four rows.  The timestamps are the instants 1 to 43 in order, with
    one text that is no timestamp after the ninth; at the cutoff 23 there
    are 22 rows before and 21 rows at or after.  Column c is constant,
    x varies, g varies and has no value in its first five rows, and label
    is text. *)
Definition df_drift : DataFrame :=
  [("ts", object_series
            (map (fun i => CInt (Z.of_nat i)) (seq 1 9) ++ [CStr "n/a"] ++
             map (fun i => CInt (Z.of_nat i)) (seq 10 34)));
   ("c", int_series (repeat 5%Z 44));
   ("x", int_series (map (fun i => Z.of_nat (i * i mod 7)) (seq 0 44)));
   ("g", float_series
           (repeat CNull 5 ++
            map (fun i => CFloat (inject_Z (Z.of_nat (i mod 4)))) (seq 5 39)));
   ("label", object_series (repeat (CStr "u") 44))].

(** The drift report of that frame at the cutoff 23, with every defined
    PSI rounded to one half and every KS test answering one half: x and g
    are flagged, g has too few observations before the cutoff for the KS
    test, and the PSI of c is undefined. *)
Definition report_of_df_drift : list DriftRow :=
  [ {| feature := "x"; psi := Fin (1 # 2); ks_pvalue := Some (1 # 2)%Q;
       flag := "alert"; pre_n := 22; post_n := 21 |};
    {| feature := "g"; psi := Fin (1 # 2); ks_pvalue := None;
       flag := "alert"; pre_n := 17; post_n := 21 |};
    {| feature := "c"; psi := NaN; ks_pvalue := Some (1 # 2)%Q;
       flag := "ok"; pre_n := 22; post_n := 21 |} ].

(** ** Further vocabulary *)

(** The severity a flag stands for: ok below warn below alert. *)
Definition severity_rank (f : string) : nat :=
  if String.eqb f "alert" then 2
  else if String.eqb f "warn" then 1
  else 0.

(** The features the drift report loops over (lines 76-78): the numeric
    columns, in order, kept to the requested ones when a non-empty list is
    given. *)
Definition selected_numeric (df : DataFrame) (features : option (list string))
  : list string :=
  let num := columns (filter (fun c => is_numeric (snd c)) df) in
  match features with
  | Some ((_ :: _) as fs) => filter (fun c => existsb (String.eqb c) fs) num
  | _ => num
  end.

Definition parsed (x : option Z) : bool :=
  match x with Some _ => true | None => false end.

(** The first and the last edge. *)
Definition first_edge (edges : list Q) : Q := hd 0%Q edges.

Definition last_edge (edges : list Q) : Q := last edges 0%Q.

(** A cutoff that parses to "not a time". *)
Definition cutoff_nat (_ : string) : result (option Z) := Ok None.

(** The target values of the rows whose segment is the string [s]. *)
Definition label_targets (tmp : list (cell * Q)) (s : string) : list Q :=
  map snd
      (filter (fun r => match fst r with
                        | CStr k => String.eqb k s
                        | _ => false
                        end) tmp).

Definition mean (ys : list Q) : Q :=
  (fold_right Qplus 0 ys / inject_Z (Z.of_nat (length ys)))%Q.

(** The group a cell falls in: that of the first key equal to it. *)
Fixpoint find_group (acc : list (cell * (Q * Z))) (c : cell)
  : option (Q * Z) :=
  match acc with
  | [] => None
  | (k, g) :: t => if Py.cell_eqb k c then Some g else find_group t c
  end.

(** What one more row does to the group of the cell [x]. *)
Definition group_step (x : cell) (o : option (Q * Z)) (r : cell * Q)
  : option (Q * Z) :=
  if Py.cell_eqb (fst r) x then
    Some (match o with
          | Some (s, n) => ((s + snd r)%Q, (n + 1)%Z)
          | None => (snd r, 1%Z)
          end)
  else o.

(** * Profiling (profiling.py) *)

(** [df.shape[0]]: every column has as many cells as the frame has rows; a
    frame is represented by its columns, so one without columns has no
    row. *)
Definition nrows (df : DataFrame) : nat :=
  match df with
  | [] => 0
  | (_, s) :: _ => length (s_values s)
  end.

Definition isna (c : cell) : bool := negb (notna c).

(** [s.isna().sum()] *)
Definition isna_sum (s : Series) : Z :=
  Z.of_nat (length (filter isna (s_values s))).

(** A stable insertion sort for [sort_values]: [leb x y] says that [x] may
    come before [y]. *)
Fixpoint insert_by (A : Type) (leb : A -> A -> bool) (x : A) (l : list A)
  : list A :=
  match l with
  | [] => [x]
  | y :: t => if leb x y then x :: l else y :: insert_by leb x t
  end.

Definition sort_by (A : Type) (leb : A -> A -> bool) (l : list A) : list A :=
  fold_right (insert_by leb) [] l.

(** ** missingness_report *)

Record MissRow : Type := {
  m_column : string;
  missing_count : Z;
  missing_pct : Q
}.

(** [(miss / total).replace([np.inf, np.nan], 0.0)]: the quotient is
    infinite or undefined exactly when [total] is zero. *)
Definition ratio_or_zero (miss : Z) (total : nat) : Q :=
  if (total =? 0)%nat then 0%Q
  else (inject_Z miss / inject_Z (Z.of_nat total))%Q.

Definition missingness_report (df : DataFrame) : list MissRow :=
  let total := nrows df in
  sort_by (fun r1 r2 => Qle_bool (missing_pct r2) (missing_pct r1))
    (map (fun c => {| m_column := fst c;
                      missing_count := isna_sum (snd c);
                      missing_pct := ratio_or_zero (isna_sum (snd c)) total |})
         df).

(** ** duplicates_report *)

(** Equality of two cells of a column when rows are compared: missing
    values equal each other. *)
Definition dup_cell_eqb (a b : cell) : bool :=
  match a, b with
  | CNull, CNull => true
  | _, _ => Py.cell_eqb a b
  end.

Fixpoint row_eqb (r1 r2 : list cell) : bool :=
  match r1, r2 with
  | [], [] => true
  | a :: t1, b :: t2 => dup_cell_eqb a b && row_eqb t1 t2
  | _, _ => false
  end.

(** The rows of the frame over the given columns. *)
Definition rows_of (df : DataFrame) (cols : list Series) : list (list cell) :=
  map (fun i => map (fun s => nth i (s_values s) CNull) cols)
      (seq 0 (nrows df)).

(** [duplicated()]: a row is a duplicate when an earlier row equals it. *)
Fixpoint duplicated_from (seen : list (list cell)) (rows : list (list cell))
  : list bool :=
  match rows with
  | [] => []
  | r :: t => existsb (row_eqb r) seen :: duplicated_from (seen ++ [r]) t
  end.

Definition duplicated (rows : list (list cell)) : list bool :=
  duplicated_from [] rows.

Definition count_true (l : list bool) : Z :=
  Z.of_nat (length (filter (fun b => b) l)).

(** The returned dict: the count over all columns and, when a non-empty
    subset is asked for, either the subset columns that are missing (the
    list the error message prints) or the count over the subset together
    with the subset. *)
Record DuplicatesReport : Type := {
  duplicate_rows_all_columns : Z;
  subset_error : option (list string);
  duplicate_rows_subset : option Z;
  subset_used : option (list string)
}.

Definition duplicates_report (df : DataFrame) (subset : option (list string))
  : DuplicatesReport :=
  let dup_all := count_true (duplicated (rows_of df (map snd df))) in
  match subset with
  | Some ((_ :: _) as sub) =>
      let missing_cols := filter (fun c => negb (has_column df c)) sub in
      match missing_cols with
      | _ :: _ =>
          {| duplicate_rows_all_columns := dup_all;
             subset_error := Some missing_cols;
             duplicate_rows_subset := None;
             subset_used := None |}
      | [] =>
          {| duplicate_rows_all_columns := dup_all;
             subset_error := None;
             duplicate_rows_subset :=
               Some (count_true
                       (duplicated (rows_of df (map (get_column df) sub))));
             subset_used := Some sub |}
      end
  | _ =>
      {| duplicate_rows_all_columns := dup_all;
         subset_error := None;
         duplicate_rows_subset := None;
         subset_used := None |}
  end.

(** ** type_summary *)

(** [_safe_nunique]: the number of distinct non-missing values. *)
Definition _safe_nunique (s : Series) : Z :=
  Z.of_nat (length (tally (s_values s))).

Record TypeRow : Type := {
  t_column : string;
  t_dtype : dtype;
  t_missing_pct : fnum;
  t_nunique : Z;
  t_unique_ratio : Q;
  t_top_value_share : Q
}.

(** [float(s.isna().mean())]: undefined on a column without cells. *)
Definition isna_mean (s : Series) : fnum :=
  match s_values s with
  | [] => None
  | _ :: _ =>
      Some (inject_Z (isna_sum s)
            / inject_Z (Z.of_nat (length (s_values s))))%Q
  end.

(** [vc.iloc[0]] of [value_counts(dropna=True, normalize=True)], or 0 when
    there is no count. *)
Definition top_value_share (s : Series) : Q :=
  let vc := value_counts (s_values s) in
  match vc with
  | [] => 0%Q
  | top :: _ => (inject_Z (snd top) / inject_Z (Np.sum (map snd vc)))%Q
  end.

Definition type_row (rows : nat) (c : string * Series) : TypeRow :=
  let nunique := _safe_nunique (snd c) in
  {| t_column := fst c;
     t_dtype := s_dtype (snd c);
     t_missing_pct := isna_mean (snd c);
     t_nunique := nunique;
     t_unique_ratio :=
       if (rows =? 0)%nat then 0%Q
       else (inject_Z nunique / inject_Z (Z.of_nat rows))%Q;
     t_top_value_share := top_value_share (snd c) |}.

(** Descending order on a column of doubles, missing values last. *)
Definition fnum_desc_cmp (p1 p2 : fnum) : comparison :=
  match p1, p2 with
  | None, None => Eq
  | None, Some _ => Gt
  | Some _, None => Lt
  | Some a, Some b => Qcompare b a
  end.

(** The order of
    [sort_values(["missing_pct", "unique_ratio"], ascending=[False, False])]. *)
Definition type_row_leb (r1 r2 : TypeRow) : bool :=
  match fnum_desc_cmp (t_missing_pct r1) (t_missing_pct r2) with
  | Lt => true
  | Gt => false
  | Eq => Qle_bool (t_unique_ratio r2) (t_unique_ratio r1)
  end.

Definition type_summary (df : DataFrame) : result (list TypeRow) :=
  match map (type_row (nrows df)) df with
  | [] => Raise KeyError
  | (_ :: _) as records => Ok (sort_by type_row_leb records)
  end.

(** ** categorical_preview *)

(** The columns previewed are those of dtype object; no column has the
    category dtype here. *)
Record ProfileConfig : Type := {
  max_unique_preview : Z;
  high_cardinality_threshold : Q;
  low_variance_threshold : Q;
  sample_rows : Z
}.

Definition default_profile_config : ProfileConfig :=
  {| max_unique_preview := 10;
     high_cardinality_threshold := 8 # 10;
     low_variance_threshold := 1 # 100;
     sample_rows := 5 |}.



(** ** red_flag_columns *)

Record FlagRow : Type := {
  f_row : TypeRow;
  f_flag : string
}.

(** The order of [sort_values(["flag", "missing_pct", "unique_ratio"],
    ascending=[True, False, False])]. *)
Definition flag_row_leb (r1 r2 : FlagRow) : bool :=
  match String.compare (f_flag r1) (f_flag r2) with
  | Lt => true
  | Gt => false
  | Eq => type_row_leb (f_row r1) (f_row r2)
  end.

(** [x >= t] on a double that may be undefined *)
Definition fnum_geb (x : fnum) (t : Q) : bool :=
  match x with
  | None => false
  | Some q => Qle_bool t q
  end.

Definition red_flag_columns (df : DataFrame) (config : option ProfileConfig)
  : result (list FlagRow) :=
  let cfg := match config with Some c => c | None => default_profile_config end in
  match type_summary df with
  | Raise e => Raise e
  | Ok t =>
      let high_missing :=
        map (fun r => {| f_row := r; f_flag := "high_missingness" |})
            (filter (fun r => fnum_geb (t_missing_pct r) (1 # 2)) t) in
      let high_card :=
        map (fun r => {| f_row := r;
                         f_flag := "high_cardinality_possible_id" |})
            (filter (fun r => Qle_bool (high_cardinality_threshold cfg)
                                       (t_unique_ratio r)) t) in
      let low_var :=
        map (fun r => {| f_row := r; f_flag := "low_variance" |})
            (filter (fun r => Qle_bool (1 - low_variance_threshold cfg)
                                       (t_top_value_share r)) t) in
      Ok (sort_by flag_row_leb (high_missing ++ high_card ++ low_var))
  end.

(** ** Sample frames for profiling *)

(** Four rows: an identifier, a constant, and a column that is mostly
    missing; the last row repeats the second. *)
Definition df_profile : DataFrame :=
  [("id", int_series [1; 2; 3; 2]%Z);
   ("const", object_series [CStr "x"; CStr "x"; CStr "x"; CStr "x"]);
   ("gap", object_series [CNull; CNull; CStr "u"; CNull])].

(** Every column of the frame has the frame's number of rows. *)
Definition well_formed (df : DataFrame) : Prop :=
  Forall (fun c => length (s_values (snd c)) = nrows df) df.

(** * Verification *)


Section PsiFacts.

Local Open Scope Q_scope.

Lemma Qeq_bool_false (x y : Q) : ~ x == y -> Qeq_bool x y = false.
Proof.
  intro H. destruct (Qeq_bool x y) eqn:E; [|reflexivity].
  apply Qeq_bool_iff in E. contradiction.
Qed.

Lemma Qle_bool_true (x y : Q) : x <= y -> Qle_bool x y = true.
Proof. intro H. now apply Qle_bool_iff. Qed.

Lemma Qle_bool_false (x y : Q) : y < x -> Qle_bool x y = false.
Proof.
  intro H. destruct (Qle_bool x y) eqn:E; [|reflexivity].
  apply Qle_bool_iff in E. exfalso. exact (Qlt_not_le _ _ H E).
Qed.

Lemma clip_pos (eps v : Q) : 0 < eps -> 0 < Np.clip eps 1 v.
Proof.
  intro H. unfold Np.clip. apply Q.min_glb_lt; [|reflexivity].
  eapply Qlt_le_trans; [exact H|apply Q.le_max_r].
Qed.

Lemma clip_le_1 (eps v : Q) : Np.clip eps 1 v <= 1.
Proof. unfold Np.clip. apply Q.le_min_r. Qed.

Lemma clip_ge_floor (eps v : Q) : Qmin eps 1 <= Np.clip eps 1 v.
Proof.
  unfold Np.clip. apply Q.min_le_compat_r. apply Q.le_max_r.
Qed.

Lemma psi_dist_pos (counts : list Z) (eps : Q) :
  0 < eps -> Forall (fun p => 0 < p) (psi_dist counts eps).
Proof.
  intro H. unfold psi_dist. apply Forall_forall. intros p Hp.
  apply in_map_iff in Hp. destruct Hp as [c [<- _]]. now apply clip_pos.
Qed.

Lemma psi_dist_range (counts : list Z) (eps : Q) :
  Forall (fun p => Qmin eps 1 <= p /\ p <= 1) (psi_dist counts eps).
Proof.
  unfold psi_dist. apply Forall_forall. intros p Hp.
  apply in_map_iff in Hp. destruct Hp as [c [<- _]].
  split; [apply clip_ge_floor|apply clip_le_1].
Qed.

Lemma psi_dist_length (counts : list Z) (eps : Q) :
  length (psi_dist counts eps) = length counts.
Proof. unfold psi_dist. apply length_map. Qed.

(** On positive probabilities a summand is the finite real
    [(a - e) * ln (a / e)]. *)
Lemma psi_term_pos (a e : Q) :
  0 < a -> 0 < e ->
  psi_term a e = Fin (Q2R (a - e) * ln (Q2R (a / e)))%R.
Proof.
  intros Ha He. unfold psi_term, X.div.
  rewrite (@Qeq_bool_false e 0).
  2:{ intro E. rewrite E in He. discriminate. }
  assert (Hq : 0 < a / e).
  { unfold Qdiv. apply Qmult_lt_0_compat; [exact Ha|].
    now apply Qinv_lt_0_compat. }
  simpl. rewrite (@Qeq_bool_false (a / e) 0).
  2:{ intro E. rewrite E in Hq. discriminate. }
  rewrite Qle_bool_true by now apply Qlt_le_weak.
  reflexivity.
Qed.


Lemma psi_terms_length (a e : list Q) :
  length (psi_terms a e) = Nat.min (length a) (length e).
Proof.
  revert e. induction a as [|x a IH]; intros [|y e]; simpl; auto.
Qed.

Lemma histogram_length (x edges : list Q) :
  length (Np.histogram x edges) = pred (length edges).
Proof.
  induction edges as [|lo tl IH]; [reflexivity|].
  destruct tl as [|hi rest]; [reflexivity|].
  change (length (Np.histogram x (lo :: hi :: rest)))
    with (S (length (Np.histogram x (hi :: rest)))).
  rewrite IH. reflexivity.
Qed.

(** The bound on one summand: with both probabilities in [[m, 1]] the
    difference is at most [1] and the log ratio at most [- ln m] in absolute
    value. *)
Lemma psi_term_bound (m a e : Q) :
  0 < m -> m <= a <= 1 -> m <= e <= 1 ->
  (Rabs (Q2R (a - e) * ln (Q2R (a / e))) <= - ln (Q2R m))%R.
Proof.
  intros Hm [Ha1 Ha2] [He1 He2].
  assert (Hm' : (0 < Q2R m)%R) by (replace 0%R with (Q2R 0) by lra; now apply Qlt_Rlt).
  assert (Q1 : Q2R 1 = 1%R) by lra.
  apply Qle_Rle in Ha1, Ha2, He1, He2. rewrite Q1 in Ha2, He2.
  assert (He0 : ~ e == 0).
  { intro E. apply Qeq_eqR in E. replace (Q2R 0) with 0%R in E by lra. lra. }
  rewrite Q2R_minus, Q2R_div by exact He0.
  unfold Rdiv. rewrite ln_mult, ln_Rinv; try lra.
  2:{ apply Rinv_0_lt_compat. lra. }
  assert (Lm : forall r, (Q2R m <= r <= 1)%R -> (ln (Q2R m) <= ln r <= 0)%R).
  { intros r [H1 H2]. split.
    - destruct H1 as [H1|H1]; [left; apply ln_increasing; lra|rewrite H1; lra].
    - rewrite <- ln_1.
      destruct H2 as [H2|H2]; [left; apply ln_increasing; lra|rewrite H2; lra]. }
  pose proof (Lm (Q2R a) (conj Ha1 Ha2)) as [La1 La2].
  pose proof (Lm (Q2R e) (conj He1 He2)) as [Le1 Le2].
  rewrite Rabs_mult.
  assert (D : (Rabs (Q2R a - Q2R e) <= 1)%R).
  { apply Rabs_le. lra. }
  assert (G : (Rabs (ln (Q2R a) + - ln (Q2R e)) <= - ln (Q2R m))%R).
  { apply Rabs_le. lra. }
  pose proof (Rabs_pos (Q2R a - Q2R e)) as P1.
  pose proof (Rabs_pos (ln (Q2R a) + - ln (Q2R e))) as P2.
  replace (- ln (Q2R m))%R with (1 * - ln (Q2R m))%R by lra.
  apply Rmult_le_compat; assumption.
Qed.

(** The sum of summands over two vectors of probabilities in [[m, 1]] is a
    finite real, bounded by the number of bins times [- ln m]. *)
Lemma psi_sum_finite (m : Q) (a e : list Q) :
  0 < m ->
  Forall (fun p => m <= p /\ p <= 1) a ->
  Forall (fun p => m <= p /\ p <= 1) e ->
  exists r : R,
    X.sum (psi_terms a e) = Fin r /\
    (Rabs r <= INR (length (psi_terms a e)) * - ln (Q2R m))%R.
Proof.
  intros Hm Ha. revert e.
  induction Ha as [|x a Hx Ha IH]; intros e He.
  - exists 0%R. simpl. split; [reflexivity|]. rewrite Rabs_R0. lra.
  - destruct He as [|y e Hy He].
    + exists 0%R. simpl. split; [reflexivity|]. rewrite Rabs_R0. lra.
    + destruct (IH e He) as [r [Hr Hb]].
      change (psi_terms (x :: a) (y :: e))
        with (psi_term x y :: psi_terms a e).
      assert (Px : 0 < x) by (eapply Qlt_le_trans; [exact Hm|apply Hx]).
      assert (Py : 0 < y) by (eapply Qlt_le_trans; [exact Hm|apply Hy]).
      rewrite (psi_term_pos Px Py).
      exists (Q2R (x - y) * ln (Q2R (x / y)) + r)%R.
      split.
      * change (X.sum (?t :: ?l)) with (X.add t (X.sum l)).
        rewrite Hr. reflexivity.
      * pose proof (@psi_term_bound m x y Hm Hx Hy) as T.
        change (length (Fin (Q2R (x - y) * ln (Q2R (x / y)))%R :: psi_terms a e))
          with (S (length (psi_terms a e))).
        rewrite S_INR.
        eapply Rle_trans; [apply Rabs_triang|]. lra.
Qed.

Lemma Qmin_eps_pos (eps : Q) : 0 < eps -> 0 < Qmin eps 1.
Proof. intro H. apply Q.min_glb_lt; [exact H|reflexivity]. Qed.

(** Past the two guards, and with a positive epsilon, [_psi] is the finite
    sum of line 51. *)
Lemma psi_defined_finite (expected actual : list fnum) (bins : nat) (eps : Q) :
  0 < eps ->
  strip_nan expected <> [] ->
  strip_nan actual <> [] ->
  (3 <= length (psi_edges (strip_nan expected) bins))%nat ->
  exists r : R,
    _psi expected actual bins eps = Fin r /\
    (Rabs r <= INR (length (psi_edges (strip_nan expected) bins) - 1)
               * - ln (Q2R (Qmin eps 1)))%R.
Proof.
  intros Heps He Ha Hedges. unfold _psi.
  destruct (strip_nan expected) as [|e0 et] eqn:Ee; [congruence|].
  destruct (strip_nan actual) as [|a0 at'] eqn:Ea; [congruence|].
  cbn [length Nat.eqb orb].
  set (edges := psi_edges (e0 :: et) bins) in *.
  destruct (Nat.ltb_spec (length edges) 3) as [Hlt|_]; [lia|].
  cbv zeta.
  destruct (@psi_sum_finite (Qmin eps 1)
              (psi_dist (Np.histogram (a0 :: at') edges) eps)
              (psi_dist (Np.histogram (e0 :: et) edges) eps)
              (Qmin_eps_pos Heps)
              (psi_dist_range _ _) (psi_dist_range _ _)) as [r [Hr Hb]].
  exists r. split; [exact Hr|].
  rewrite psi_terms_length, !psi_dist_length, !histogram_length in Hb.
  rewrite Nat.min_id in Hb.
  replace (length edges - 1)%nat with (pred (length edges)) by lia.
  exact Hb.
Qed.


(** *** A constant reference sample *)

Lemma insert_Forall (P : Q -> Prop) (x : Q) (l : list Q) :
  P x -> Forall P l -> Forall P (Np.insert x l).
Proof.
  intros Hx Hl. induction Hl as [|y l Hy Hl IH]; simpl.
  - now constructor.
  - destruct (Qle_bool x y); repeat constructor; assumption.
Qed.

Lemma sort_Forall (P : Q -> Prop) (l : list Q) :
  Forall P l -> Forall P (Np.sort l).
Proof.
  induction 1 as [|x l Hx Hl IH]; simpl; [constructor|].
  now apply insert_Forall.
Qed.

Lemma insert_length (x : Q) (l : list Q) :
  length (Np.insert x l) = S (length l).
Proof.
  induction l as [|y l IH]; simpl; [reflexivity|].
  destruct (Qle_bool x y); simpl; [reflexivity|now rewrite IH].
Qed.

Lemma sort_length (l : list Q) : length (Np.sort l) = length l.
Proof.
  induction l as [|x l IH]; simpl; [reflexivity|].
  now rewrite insert_length, IH.
Qed.

Lemma linspace01_range (bins : nat) (q : Q) :
  In q (Np.linspace01 bins) -> 0 <= q /\ q <= 1.
Proof.
  destruct bins as [|b]; unfold Np.linspace01.
  - intros [<-|[]]. split; discriminate.
  - intro H. apply in_map_iff in H. destruct H as [i [<- Hi]].
    apply in_seq in Hi.
    assert (Hb : 0 < inject_Z (Z.of_nat (S b))).
    { rewrite <- (Zlt_Qlt 0). lia. }
    split.
    + apply Qle_shift_div_l; [exact Hb|].
      rewrite Qmult_0_l. rewrite <- (Zle_Qle 0). lia.
    + apply Qle_shift_div_r; [exact Hb|].
      rewrite Qmult_1_l. rewrite <- Zle_Qle. lia.
Qed.

Lemma quantile1_const (s : list Q) (c q : Q) :
  s <> [] -> Forall (fun v => v == c) s -> 0 <= q /\ q <= 1 ->
  Np.quantile1 s q == c.
Proof.
  intros Hs Hc [Hq0 Hq1]. unfold Np.quantile1. cbv zeta.
  set (n := Z.of_nat (length s)).
  assert (Hn : (1 <= n)%Z).
  { subst n. destruct s; [congruence|]. simpl length. lia. }
  set (vidx := q * inject_Z (n - 1)).
  assert (Hn1 : 0 <= inject_Z (n - 1)) by (rewrite <- (Zle_Qle 0); lia).
  assert (Hv0 : 0 <= vidx) by (now apply Qmult_le_0_compat).
  assert (Hv1 : vidx <= inject_Z (n - 1)).
  { unfold vidx. rewrite <- (Qmult_1_l (inject_Z (n - 1))) at 2.
    now apply Qmult_le_compat_r. }
  assert (Hlo0 : (0 <= Qfloor vidx)%Z).
  { change 0%Z with (Qfloor 0). now apply Qfloor_resp_le. }
  assert (Hlo1 : (Qfloor vidx <= n - 1)%Z).
  { rewrite <- (Qfloor_Z (n - 1)). now apply Qfloor_resp_le. }
  assert (Hnth : forall i : Z, (0 <= i <= n - 1)%Z -> nth (Z.to_nat i) s 0 == c).
  { intros i Hi. rewrite Forall_forall in Hc. apply Hc. apply nth_In.
    subst n. lia. }
  rewrite (Hnth (Qfloor vidx)) by lia.
  rewrite (Hnth (Z.min (Qfloor vidx + 1) (n - 1))) by lia.
  ring.
Qed.

Lemma dedup_const (c : Q) (l : list Q) :
  Forall (fun v => v == c) l -> (length (Np.dedup l) <= 1)%nat.
Proof.
  induction 1 as [|x l Hx Hl IH]; [simpl; lia|].
  destruct l as [|y t]; [simpl; lia|].
  change (Np.dedup (x :: y :: t))
    with (if Qeq_bool x y then Np.dedup (y :: t) else x :: Np.dedup (y :: t)).
  assert (E : Qeq_bool x y = true).
  { apply Qeq_bool_iff. inversion Hl; subst. rewrite Hx. symmetry. assumption. }
  rewrite E. exact IH.
Qed.

Lemma psi_edges_const (x : list Q) (c : Q) (bins : nat) :
  Forall (fun v => v == c) x ->
  (length (psi_edges x bins) < 3)%nat.
Proof.
  intro Hc. unfold psi_edges, Np.unique.
  destruct x as [|x0 xt].
  - (* no data at all: every interpolation reads the default value *)
    assert (H : Forall (fun v => v == 0)
                  (Np.sort (Np.quantile [] (Np.linspace01 bins)))).
    { apply sort_Forall. unfold Np.quantile. apply Forall_forall.
      intros v Hv. apply in_map_iff in Hv. destruct Hv as [q [<- _]].
      unfold Np.quantile1. cbv zeta.
      assert (N : forall i : nat, nth i (Np.sort []) 0 = 0)
        by (intros [|i]; reflexivity).
      rewrite !N. ring. }
    apply dedup_const in H. lia.
  - assert (H : Forall (fun v => v == c)
                  (Np.sort (Np.quantile (x0 :: xt) (Np.linspace01 bins)))).
    { apply sort_Forall. unfold Np.quantile. apply Forall_forall.
      intros v Hv. apply in_map_iff in Hv. destruct Hv as [q [<- Hq]].
      apply quantile1_const.
      - intro E. apply (f_equal (@List.length Q)) in E.
        rewrite sort_length in E. discriminate.
      - now apply sort_Forall.
      - now apply linspace01_range in Hq. }
    apply dedup_const in H. lia.
Qed.


Lemma psi_terms_self (d : list Q) :
  Forall (fun p => 0 < p) d -> X.sum (psi_terms d d) = Fin 0%R.
Proof.
  induction 1 as [|x d Hx Hd IH]; [reflexivity|].
  change (psi_terms (x :: d) (x :: d)) with (psi_term x x :: psi_terms d d).
  change (X.sum (?t :: ?l)) with (X.add t (X.sum l)).
  rewrite IH, (psi_term_pos Hx Hx). simpl. f_equal.
  rewrite Q2R_minus. lra.
Qed.

(** C2.  With a positive epsilon, [_psi] is undefined (NaN) exactly when
    one of the two samples is empty once its NaNs are stripped, or the
    deduplicated quantile edges of the reference sample number fewer than
    three; in every other case it is a number.  A constant reference sample
    is such a case: it yields NaN. *)
Theorem psi_undefined_iff (expected actual : list fnum) (bins : nat) (eps : Q) :
  0 < eps ->
  (_psi expected actual bins eps = NaN <->
     strip_nan expected = [] \/ strip_nan actual = [] \/
     (length (psi_edges (strip_nan expected) bins) < 3)%nat) /\
  (forall c : Q,
     Forall (fun v => v == c) (strip_nan expected) ->
     _psi expected actual bins eps = NaN).
Proof.
  intro Heps.
  assert (Back : strip_nan expected = [] \/ strip_nan actual = [] \/
                 (length (psi_edges (strip_nan expected) bins) < 3)%nat ->
                 _psi expected actual bins eps = NaN).
  { intro H. unfold _psi.
    destruct (strip_nan expected) as [|e0 et]; [reflexivity|].
    destruct (strip_nan actual) as [|a0 at']; [reflexivity|].
    cbn [length Nat.eqb orb].
    destruct H as [H|[H|H]]; try discriminate.
    apply Nat.ltb_lt in H. rewrite H. reflexivity. }
  split; [split; [|exact Back]|].
  - intro H.
    destruct (strip_nan expected) as [|e0 et] eqn:Ee; [now left|].
    destruct (strip_nan actual) as [|a0 at'] eqn:Ea; [now right; left|].
    destruct (Nat.ltb_spec (length (psi_edges (e0 :: et) bins)) 3) as [L|L];
      [now right; right|].
    exfalso.
    destruct (@psi_defined_finite expected actual bins eps Heps) as [r [Hr _]];
      rewrite ?Ee, ?Ea; try discriminate; try exact L.
    rewrite Hr in H. discriminate.
  - intros c Hc. apply Back. right; right. now apply psi_edges_const with c.
Qed.

(** *** The finite range of doubles *)

Lemma overflow_threshold_gt_1 : 1 < Ieee.overflow_threshold.
Proof. apply Qlt_alt. vm_compute. reflexivity. Qed.

Lemma underflow_below_overflow :
  Ieee.underflow_threshold * Ieee.overflow_threshold < 1.
Proof. apply Qlt_alt. vm_compute. reflexivity. Qed.

Lemma underflow_pos : 0 < Ieee.underflow_threshold.
Proof. reflexivity. Qed.

Lemma inverse_finite_pos (eps : Q) : Ieee.inverse_finite eps -> 0 < eps.
Proof.
  unfold Ieee.inverse_finite. intro H.
  pose proof overflow_threshold_gt_1 as T.
  destruct (Qlt_le_dec 0 eps) as [P|P]; [exact P|exfalso].
  assert (eps * Ieee.overflow_threshold <= 0 * Ieee.overflow_threshold).
  { apply Qmult_le_compat_r; [exact P|]. Lqa.lra. }
  Lqa.lra.
Qed.

Lemma inverse_finite_min (eps : Q) :
  Ieee.inverse_finite eps -> Ieee.inverse_finite (Qmin eps 1).
Proof.
  intro H. unfold Ieee.inverse_finite in *.
  destruct (Q.min_spec eps 1) as [[_ E]|[_ E]]; rewrite E; [exact H|].
  pose proof overflow_threshold_gt_1. Lqa.lra.
Qed.

Lemma underflow_below (m : Q) :
  Ieee.inverse_finite m -> Ieee.underflow_threshold < m.
Proof.
  intro H. unfold Ieee.inverse_finite in H.
  pose proof overflow_threshold_gt_1 as T.
  pose proof underflow_below_overflow as U.
  apply (Qmult_lt_r _ _ Ieee.overflow_threshold); Lqa.lra.
Qed.

(** Between two probabilities of [[m, 1]] the quotient stays in the finite
    range. *)
Lemma ieee_div_ratio (m a e : Q) :
  Ieee.inverse_finite m -> m <= a <= 1 -> m <= e <= 1 ->
  Ieee.div a e = Fin (a / e).
Proof.
  intros Hm [Ha1 Ha2] [He1 He2].
  pose proof (inverse_finite_pos Hm) as Pm.
  pose proof overflow_threshold_gt_1 as T.
  pose proof (underflow_below Hm) as U.
  pose proof underflow_pos as U0.
  unfold Ieee.inverse_finite in Hm.
  assert (Pe : 0 < e) by Lqa.lra.
  assert (Q0 : 0 < a / e).
  { apply Qlt_shift_div_l; [exact Pe|]. Lqa.lra. }
  assert (Q1 : a / e < Ieee.overflow_threshold).
  { apply Qlt_shift_div_r; [exact Pe|].
    assert (m * Ieee.overflow_threshold <= e * Ieee.overflow_threshold).
    { apply Qmult_le_compat_r; Lqa.lra. }
    Lqa.lra. }
  assert (Q2 : Ieee.underflow_threshold < a / e).
  { apply Qlt_shift_div_l; [exact Pe|].
    assert (Ieee.underflow_threshold * e <= Ieee.underflow_threshold * 1).
    { apply Qmult_le_l; Lqa.lra. }
    Lqa.lra. }
  unfold Ieee.div.
  rewrite (@Qeq_bool_false e 0) by Lqa.lra.
  cbv zeta.
  rewrite (@Qle_bool_false Ieee.overflow_threshold (a / e)) by exact Q1.
  rewrite (@Qle_bool_false (a / e) (- Ieee.overflow_threshold)) by Lqa.lra.
  rewrite Qle_bool_false; [reflexivity|].
  rewrite Qabs_pos by Lqa.lra. exact Q2.
Qed.

Lemma psi_term_ieee_ratio (m a e : Q) :
  Ieee.inverse_finite m -> m <= a <= 1 -> m <= e <= 1 ->
  psi_term_ieee (Some a) (Some e) = psi_term a e.
Proof.
  intros Hm Ha He. pose proof (inverse_finite_pos Hm) as Pm.
  unfold psi_term_ieee, psi_term. rewrite (ieee_div_ratio Hm Ha He).
  unfold X.div. rewrite (@Qeq_bool_false e 0); [reflexivity|].
  destruct He as [He _]. Lqa.lra.
Qed.

Lemma psi_terms_ieee_ratio (m : Q) (a e : list Q) :
  Ieee.inverse_finite m ->
  Forall (fun p => m <= p /\ p <= 1) a ->
  Forall (fun p => m <= p /\ p <= 1) e ->
  psi_terms_ieee (map Some a) (map Some e) = psi_terms a e.
Proof.
  intros Hm Ha. revert e.
  induction Ha as [|x a Hx Ha IH]; intros e He; [reflexivity|].
  destruct He as [|y e Hy He]; [reflexivity|].
  cbn [map psi_terms_ieee psi_terms].
  rewrite (psi_term_ieee_ratio Hm Hx Hy), (IH e He). reflexivity.
Qed.

Lemma Qmax_below (x eps : Q) : x < eps -> Qmax x eps = eps.
Proof.
  intro H. unfold Qmax, GenericMinMax.gmax.
  destruct (Qcompare x eps) eqn:E; [|reflexivity|].
  - apply Qeq_alt in E. rewrite E in H. exfalso. exact (Qlt_irrefl _ H).
  - apply Qgt_alt in E. exfalso. exact (Qlt_irrefl _ (Qlt_trans _ _ _ H E)).
Qed.

(** A count over a total that is at least 1 and at least the count: after
    the clip the double is the exact share, even where the quotient was
    too small for a double. *)
Lemma ieee_clip_count (eps : Q) (c total : Z) :
  Ieee.inverse_finite eps -> (0 <= c <= total)%Z -> (1 <= total)%Z ->
  Ieee.clip eps 1 (Ieee.div (inject_Z c) (inject_Z total)) =
  Some (Np.clip eps 1 (inject_Z c / inject_Z total)).
Proof.
  intros He Hc Ht.
  pose proof (inverse_finite_pos He) as Pe.
  pose proof overflow_threshold_gt_1 as T.
  pose proof (underflow_below He) as U.
  assert (Pt : 0 < inject_Z total) by (rewrite <- (Zlt_Qlt 0); lia).
  assert (Q0 : 0 <= inject_Z c / inject_Z total).
  { apply Qle_shift_div_l; [exact Pt|]. rewrite Qmult_0_l.
    rewrite <- (Zle_Qle 0). lia. }
  assert (Q1 : inject_Z c / inject_Z total <= 1).
  { apply Qle_shift_div_r; [exact Pt|]. rewrite Qmult_1_l.
    rewrite <- Zle_Qle. lia. }
  unfold Ieee.div.
  rewrite (@Qeq_bool_false (inject_Z total) 0) by Lqa.lra.
  cbv zeta.
  rewrite Qle_bool_false by Lqa.lra.
  rewrite Qle_bool_false by Lqa.lra.
  destruct (Qle_bool (Qabs (inject_Z c / inject_Z total))
                     Ieee.underflow_threshold) eqn:E; [|reflexivity].
  apply Qle_bool_iff in E. rewrite Qabs_pos in E by exact Q0.
  cbn [Ieee.clip]. unfold Np.clip.
  rewrite !Qmax_below by Lqa.lra. reflexivity.
Qed.

Lemma histogram_nonneg (x edges : list Q) :
  Forall (fun c => (0 <= c)%Z) (Np.histogram x edges).
Proof.
  induction edges as [|lo tl IH]; [constructor|].
  destruct tl as [|hi rest]; [constructor|].
  change (Np.histogram x (lo :: hi :: rest))
    with (Np.count (fun v => Qle_bool lo v &&
                     match rest with
                     | [] => Qle_bool v hi
                     | _ :: _ => negb (Qle_bool hi v)
                     end) x :: Np.histogram x (hi :: rest)).
  constructor; [unfold Np.count; lia|exact IH].
Qed.

Lemma member_le_sum (l : list Z) (c : Z) :
  Forall (fun c => (0 <= c)%Z) l -> In c l ->
  (0 <= c <= Np.sum l)%Z /\ (0 <= Np.sum l)%Z.
Proof.
  intro H. revert c. induction H as [|x l Hx Hl IH]; intros c Hin.
  - destruct Hin.
  - change (Np.sum (x :: l)) with (x + Np.sum l)%Z.
    assert (S0 : (0 <= Np.sum l)%Z).
    { clear IH Hin. induction Hl as [|y l Hy Hl IH]; [simpl; lia|].
      change (Np.sum (y :: l)) with (y + Np.sum l)%Z. lia. }
    destruct Hin as [<-|Hin]; [lia|].
    destruct (IH c Hin). lia.
Qed.

Lemma psi_dist_ieee_exact (counts : list Z) (eps : Q) :
  Ieee.inverse_finite eps ->
  Forall (fun c => (0 <= c)%Z) counts ->
  psi_dist_ieee counts eps = map Some (psi_dist counts eps).
Proof.
  intros He Hc. unfold psi_dist_ieee, psi_dist. rewrite map_map.
  apply map_ext_in. intros c Hin.
  destruct (@member_le_sum counts c Hc Hin) as [H1 H2].
  apply ieee_clip_count; [exact He|lia|lia].
Qed.

(** Where [1 / eps] is a finite double, the two estimators agree. *)
Lemma psi_ieee_exact (expected actual : list fnum) (bins : nat) (eps : Q) :
  Ieee.inverse_finite eps ->
  _psi_ieee expected actual bins eps = _psi expected actual bins eps.
Proof.
  intro He. unfold _psi_ieee, _psi.
  destruct (_ || _); [reflexivity|].
  destruct (_ <? _)%nat; [reflexivity|]. cbv zeta.
  rewrite !(psi_dist_ieee_exact He) by apply histogram_nonneg.
  f_equal.
  apply (@psi_terms_ieee_ratio (Qmin eps 1));
    [now apply inverse_finite_min|apply psi_dist_range|apply psi_dist_range].
Qed.

(** C10, as amended.  Past the guards (both cleaned samples non-empty, at
    least three edges), and with an epsilon whose inverse is a finite
    double, both probability vectors are numbers in [[min eps 1, 1]], also
    where the current histogram is all zeros, since the guarded total is at
    least 1; every quotient of two of them is a finite double; and the value
    of the estimator is a finite real, bounded by the number of bins times
    [- ln (min eps 1)]. *)
Theorem psi_ieee_finite (expected actual : list fnum) (bins : nat) (eps : Q) :
  Ieee.inverse_finite eps ->
  strip_nan expected <> [] ->
  strip_nan actual <> [] ->
  (3 <= length (psi_edges (strip_nan expected) bins))%nat ->
  let edges := psi_edges (strip_nan expected) bins in
  Forall (probability_above (Qmin eps 1))
         (psi_dist_ieee (Np.histogram (strip_nan expected) edges) eps) /\
  Forall (probability_above (Qmin eps 1))
         (psi_dist_ieee (Np.histogram (strip_nan actual) edges) eps) /\
  exists r : R,
    _psi_ieee expected actual bins eps = Fin r /\
    (Rabs r <= INR (length edges - 1) * - ln (Q2R (Qmin eps 1)))%R.
Proof.
  intros He Hx Ha Hedges edges.
  assert (D : forall counts,
             Forall (fun c => (0 <= c)%Z) counts ->
             Forall (probability_above (Qmin eps 1))
                    (psi_dist_ieee counts eps)).
  { intros counts Hc. rewrite (psi_dist_ieee_exact He Hc).
    apply Forall_forall. intros p Hp. apply in_map_iff in Hp.
    destruct Hp as [q [<- Hq]]. exists q. split; [reflexivity|].
    pose proof (psi_dist_range counts eps) as R.
    rewrite Forall_forall in R. now apply R. }
  split; [apply D, histogram_nonneg|].
  split; [apply D, histogram_nonneg|].
  rewrite (psi_ieee_exact expected actual bins He).
  apply psi_defined_finite; try assumption.
  now apply inverse_finite_pos.
Qed.

(** C3, as amended.  With a positive epsilon, whenever PSI of a sample
    against itself is defined (the cleaned sample is non-empty and its
    deduplicated quantile edges number at least three), it is exactly 0. *)
Theorem psi_self_zero (x : list fnum) (bins : nat) (eps : Q) :
  0 < eps ->
  strip_nan x <> [] ->
  (3 <= length (psi_edges (strip_nan x) bins))%nat ->
  _psi x x bins eps = Fin 0%R.
Proof.
  intros Heps Hx Hedges. unfold _psi.
  destruct (strip_nan x) as [|x0 xt] eqn:Ex; [congruence|].
  cbn [length Nat.eqb orb].
  destruct (Nat.ltb_spec (length (psi_edges (x0 :: xt) bins)) 3) as [L|_];
    [lia|].
  cbv zeta. apply psi_terms_self. now apply psi_dist_pos.
Qed.

End PsiFacts.

Lemma psi_undefined_iff_witness :
  (0 < psi_epsilon default_config)%Q /\
  ((_psi sample01 sample01 10 (psi_epsilon default_config) = NaN <->
     strip_nan sample01 = [] \/ strip_nan sample01 = [] \/
     (length (psi_edges (strip_nan sample01) 10) < 3)%nat) /\
   (forall c : Q,
     Forall (fun v => v == c) (strip_nan sample01) ->
     _psi sample01 sample01 10 (psi_epsilon default_config) = NaN)).
Proof.
  split; [reflexivity|].
  apply (@psi_undefined_iff sample01 sample01 10 (psi_epsilon default_config)).
  reflexivity.
Defined.

Lemma psi_ieee_finite_witness :
  Forall (probability_above (Qmin (psi_epsilon default_config) 1))
         (psi_dist_ieee
            (Np.histogram (strip_nan sample01)
               (psi_edges (strip_nan sample01) 10))
            (psi_epsilon default_config)) /\
  Forall (probability_above (Qmin (psi_epsilon default_config) 1))
         (psi_dist_ieee
            (Np.histogram (strip_nan sample_outside)
               (psi_edges (strip_nan sample01) 10))
            (psi_epsilon default_config)) /\
  exists r : R,
    _psi_ieee sample01 sample_outside 10 (psi_epsilon default_config)
    = Fin r /\
    (Rabs r <= INR (length (psi_edges (strip_nan sample01) 10) - 1)
               * - ln (Q2R (Qmin (psi_epsilon default_config) 1)))%R.
Proof.
  apply (@psi_ieee_finite sample01 sample_outside 10
           (psi_epsilon default_config)).
  - apply Qlt_alt. vm_compute. reflexivity.
  - discriminate.
  - discriminate.
  - vm_compute. lia.
Defined.

(** C10, as stated, fails: with the smallest positive double for epsilon
    the guards pass, and the value is infinite.  The one current value
    falls in a bin the reference leaves empty, so the two probabilities of
    that bin are 1 and epsilon, and [1 / epsilon] is too large for a
    double. *)
Lemma psi_infinite_at_smallest_epsilon :
  (0 < Ieee.smallest_positive)%Q /\
  strip_nan sample01 <> [] /\
  strip_nan sample_between <> [] /\
  (3 <= length (psi_edges (strip_nan sample01) 10))%nat /\
  _psi_ieee sample01 sample_between 10 Ieee.smallest_positive = PInf.
Proof.
  split; [reflexivity|]. split; [discriminate|]. split; [discriminate|].
  split; [vm_compute; lia|]. vm_compute. reflexivity.
Qed.

(** The guard on the total is what keeps NaN out of the current vector:
    over a histogram of zeros the sum is 0, and [0 / 0] is NaN. *)
Example zero_over_zero :
  Np.sum (Np.histogram (strip_nan sample_outside)
            (psi_edges (strip_nan sample01) 10)) = 0%Z /\
  Ieee.clip (psi_epsilon default_config) 1
    (Ieee.div (inject_Z 0) (inject_Z 0)) = None.
Proof. split; vm_compute; reflexivity. Qed.

(** Without a positive epsilon the guards are not enough: at [eps = 0] an
    empty bin of both histograms gives [0 / 0]. *)
Example psi_zero_epsilon : _psi sample01 sample01 10 0 = NaN.
Proof. vm_compute. reflexivity. Qed.

(** There the current histogram is all zeros. *)
Example histogram_all_outside :
  Np.histogram (strip_nan sample_outside) (psi_edges (strip_nan sample01) 10)
  = repeat 0%Z 10.
Proof. vm_compute. reflexivity. Qed.

Lemma psi_self_zero_witness :
  _psi sample01 sample01 10 (psi_epsilon default_config) = Fin 0%R.
Proof.
  apply (@psi_self_zero sample01 10 (psi_epsilon default_config)).
  - reflexivity.
  - discriminate.
  - vm_compute. lia.
Defined.

(** C3, as stated, fails: a NaN-free sample with three distinct values
    whose PSI against itself is undefined. *)
Lemma psi_self_three_distinct_undefined :
  Forall (fun v => isnan v = false) sample_heavy /\
  length (Np.unique (strip_nan sample_heavy)) = 3%nat /\
  _psi sample_heavy sample_heavy 10 (psi_epsilon default_config) = NaN.
Proof.
  split; [|split].
  - apply Forall_forall. intros v Hv. unfold sample_heavy in Hv.
    apply in_app_or in Hv. destruct Hv as [Hv|Hv].
    + apply repeat_spec in Hv. now subst.
    + destruct Hv as [<-|[<-|[]]]; reflexivity.
  - vm_compute. reflexivity.
  - vm_compute. reflexivity.
Qed.

(** ** The drift flag *)

Lemma Qle_bool_cases (x y : Q) :
  ((x <= y)%Q /\ Qle_bool x y = true) \/ ((y < x)%Q /\ Qle_bool x y = false).
Proof.
  destruct (Qlt_le_dec y x) as [H|H].
  - right. split; [exact H|now apply Qle_bool_false].
  - left. split; [exact H|now apply Qle_bool_iff].
Qed.

(** C1.  With [warn <= alert], a defined PSI value is flagged "alert"
    exactly when it is at least the alert threshold, "warn" exactly when it
    is at least the warn threshold and below the alert one, and "ok" exactly
    when it is below the warn threshold; an undefined PSI is flagged "ok". *)
Theorem drift_flag_thresholds (cfg : StabilityConfig) (p : ext Q) :
  (psi_warn cfg <= psi_alert cfg)%Q ->
  (p <> NaN ->
     (drift_flag cfg p = "alert" <-> ge_threshold p (psi_alert cfg)) /\
     (drift_flag cfg p = "warn" <->
        ge_threshold p (psi_warn cfg) /\ lt_threshold p (psi_alert cfg)) /\
     (drift_flag cfg p = "ok" <-> lt_threshold p (psi_warn cfg))) /\
  drift_flag cfg NaN = "ok".
Proof.
  intro Hwa. split; [|reflexivity].
  intro Hp. destruct p as [| | |q]; [congruence| | |]; unfold drift_flag; simpl.
  - repeat split; try discriminate; tauto.
  - repeat split; try discriminate; tauto.
  - destruct (Qle_bool_cases (psi_alert cfg) q) as [[Ha Ea]|[Ha Ea]]; rewrite Ea.
    + assert (Hw : (psi_warn cfg <= q)%Q) by (eapply Qle_trans; eassumption).
      repeat split; try discriminate; try tauto.
      * intros [_ H]. exfalso. exact (Qlt_not_le _ _ H Ha).
      * intro H. exfalso. exact (Qlt_not_le _ _ H Hw).
    + destruct (Qle_bool_cases (psi_warn cfg) q) as [[Hw Ew]|[Hw Ew]]; rewrite Ew.
      * repeat split; try discriminate; try tauto.
        -- intro H. exfalso. exact (Qlt_not_le _ _ Ha H).
        -- intro H. exfalso. exact (Qlt_not_le _ _ H Hw).
      * repeat split; try discriminate; try tauto.
        -- intro H. exfalso. exact (Qlt_not_le _ _ Ha H).
        -- intros [H _]. exfalso. exact (Qlt_not_le _ _ Hw H).
Qed.

Lemma drift_flag_thresholds_witness :
  (psi_warn default_config <= psi_alert default_config)%Q /\
  ((Fin (1 # 10)%Q <> NaN ->
     (drift_flag default_config (Fin (1 # 10)%Q) = "alert" <->
        ge_threshold (Fin (1 # 10)%Q) (psi_alert default_config)) /\
     (drift_flag default_config (Fin (1 # 10)%Q) = "warn" <->
        ge_threshold (Fin (1 # 10)%Q) (psi_warn default_config) /\
        lt_threshold (Fin (1 # 10)%Q) (psi_alert default_config)) /\
     (drift_flag default_config (Fin (1 # 10)%Q) = "ok" <->
        lt_threshold (Fin (1 # 10)%Q) (psi_warn default_config))) /\
   drift_flag default_config NaN = "ok").
Proof.
  assert (H : (psi_warn default_config <= psi_alert default_config)%Q)
    by (vm_compute; discriminate).
  split; [exact H|].
  exact (@drift_flag_thresholds default_config (Fin (1 # 10)%Q) H).
Defined.

Example drift_flag_at_warn :
  drift_flag default_config (Fin (1 # 10)%Q) = "warn".
Proof. reflexivity. Qed.

Example drift_flag_at_alert :
  drift_flag default_config (Fin (1 # 4)%Q) = "alert".
Proof. reflexivity. Qed.

Example drift_flag_below_warn :
  drift_flag default_config (Fin (99 # 1000)%Q) = "ok".
Proof. reflexivity. Qed.

(** ** The KS adapter *)

Lemma ks_half_unit (x y : list Q) (p : fnum) :
  ks_half x y = Ok p -> in_unit_interval p.
Proof.
  intro H. inversion H; subst. exists (1 # 2)%Q.
  repeat split; discriminate.
Qed.

(** ** The time partition *)






(** The two frames of lines 73-74 are the rows at those positions. *)
Lemma select_rows_column (df : DataFrame) (mask : list bool) (name : string) :
  s_values (get_column (select_rows df mask) name) =
  bool_index mask (s_values (get_column df name)).
Proof.
  induction df as [|[n s] df IH]; simpl.
  - destruct mask; reflexivity.
  - destruct (String.eqb name n); [reflexivity|exact IH].
Qed.







(** At the cutoff 23 the reference frame of the sample holds the rows 0 to
    8 and 10 to 22, the current frame the rows 23 to 43; row 9, whose
    timestamp is no timestamp, is in neither. *)
Example time_partition_of_df_drift :
  row_positions
    (mask_pre (map parse_epoch (s_values (get_column df_drift "ts")))
       (Some 23%Z)) = seq 0 9 ++ seq 10 13 /\
  row_positions
    (mask_post (map parse_epoch (s_values (get_column df_drift "ts")))
       (Some 23%Z)) = seq 23 21 /\
  s_values
    (get_column
       (select_rows df_drift
          (mask_pre (map parse_epoch (s_values (get_column df_drift "ts")))
             (Some 23%Z))) "ts") = map (fun i => CInt (Z.of_nat i)) (seq 1 22) /\
  s_values
    (get_column
       (select_rows df_drift
          (mask_post (map parse_epoch (s_values (get_column df_drift "ts")))
             (Some 23%Z))) "ts") = map (fun i => CInt (Z.of_nat i)) (seq 23 21).
Proof. repeat split; vm_compute; reflexivity. Qed.

(** ** The order of the report *)

Lemma ascii_compare_refl (a : ascii) : Ascii.compare a a = Eq.
Proof. unfold Ascii.compare. apply N.compare_refl. Qed.

Lemma ascii_compare_lt_trans (a b c : ascii) :
  Ascii.compare a b = Lt -> Ascii.compare b c = Lt -> Ascii.compare a c = Lt.
Proof.
  unfold Ascii.compare. rewrite !N.compare_lt_iff. apply N.lt_trans.
Qed.

Lemma string_compare_lt_trans (s1 s2 s3 : string) :
  String.compare s1 s2 = Lt -> String.compare s2 s3 = Lt ->
  String.compare s1 s3 = Lt.
Proof.
  revert s2 s3. induction s1 as [|c1 s1 IH]; intros [|c2 s2] [|c3 s3];
    simpl; try discriminate; try reflexivity.
  destruct (Ascii.compare c1 c2) eqn:E12; try discriminate;
    destruct (Ascii.compare c2 c3) eqn:E23; try discriminate; intros H12 H23.
  - apply Ascii.compare_eq_iff in E12, E23. subst.
    rewrite ascii_compare_refl. now apply IH with s2.
  - apply Ascii.compare_eq_iff in E12. subst. now rewrite E23.
  - apply Ascii.compare_eq_iff in E23. subst. now rewrite E12.
  - now rewrite (ascii_compare_lt_trans _ _ _ E12 E23).
Qed.

Lemma psi_desc_leb_spec (p1 p2 : ext Q) :
  psi_desc_leb p1 p2 = true <-> psi_desc p1 p2.
Proof.
  destruct p1, p2; simpl; try tauto; try (split; [discriminate|tauto]).
  apply Qle_bool_iff.
Qed.

Lemma psi_desc_total (p1 p2 : ext Q) : psi_desc p1 p2 \/ psi_desc p2 p1.
Proof.
  destruct p1 as [| | |a], p2 as [| | |b]; simpl; try tauto.
  destruct (Qlt_le_dec a b) as [H|H]; [right; now apply Qlt_le_weak|now left].
Qed.

Lemma psi_desc_trans (p1 p2 p3 : ext Q) :
  psi_desc p1 p2 -> psi_desc p2 p3 -> psi_desc p1 p3.
Proof.
  destruct p1, p2, p3; simpl; try tauto.
  intros H1 H2. eapply Qle_trans; eassumption.
Qed.

Lemma row_leb_spec (r1 r2 : DriftRow) :
  row_leb r1 r2 = true <-> flag_psi_order r1 r2.
Proof.
  unfold row_leb, flag_psi_order, String.ltb.
  destruct (String.compare (flag r1) (flag r2)) eqn:E.
  - apply String.compare_eq_iff in E. rewrite psi_desc_leb_spec.
    split; [tauto|]. intros [H|[_ H]]; [discriminate|exact H].
  - split; [now left|reflexivity].
  - split; [discriminate|]. intros [H|[H _]]; [discriminate|].
    rewrite H in E.
    assert (R : forall s, String.compare s s = Eq).
    { induction s as [|c s IHs]; simpl; [reflexivity|].
      now rewrite ascii_compare_refl. }
    rewrite R in E. discriminate.
Qed.

Lemma flag_psi_order_total (r1 r2 : DriftRow) :
  flag_psi_order r1 r2 \/ flag_psi_order r2 r1.
Proof.
  unfold flag_psi_order, String.ltb.
  rewrite (String.compare_antisym (flag r2) (flag r1)).
  destruct (String.compare (flag r1) (flag r2)) eqn:E; simpl.
  - apply String.compare_eq_iff in E.
    destruct (psi_desc_total (psi r1) (psi r2)) as [H|H].
    + left. right. now split.
    + right. right. now split.
  - now left; left.
  - now right; left.
Qed.

Lemma flag_psi_order_trans (r1 r2 r3 : DriftRow) :
  flag_psi_order r1 r2 -> flag_psi_order r2 r3 -> flag_psi_order r1 r3.
Proof.
  unfold flag_psi_order, String.ltb.
  intros [H12|[E12 P12]] [H23|[E23 P23]].
  - left. destruct (String.compare (flag r1) (flag r2)) eqn:A; try discriminate.
    destruct (String.compare (flag r2) (flag r3)) eqn:B; try discriminate.
    now rewrite (string_compare_lt_trans _ _ _ A B).
  - left. now rewrite <- E23.
  - left. now rewrite E12.
  - right. split; [congruence|]. eapply psi_desc_trans; eassumption.
Qed.

Lemma insert_row_perm (r : DriftRow) (l : list DriftRow) :
  Permutation (r :: l) (insert_row r l).
Proof.
  induction l as [|y l IH]; simpl; [reflexivity|].
  destruct (row_leb r y); [reflexivity|].
  rewrite perm_swap. now constructor.
Qed.

Lemma insert_row_sorted (r : DriftRow) (l : list DriftRow) :
  Sorted flag_psi_order l -> Sorted flag_psi_order (insert_row r l).
Proof.
  induction 1 as [|y l Hl IH Hd]; simpl.
  - repeat constructor.
  - destruct (row_leb r y) eqn:E.
    + constructor; [now constructor|]. constructor. now apply row_leb_spec.
    + assert (Hyr : flag_psi_order y r).
      { destruct (flag_psi_order_total r y) as [H|H]; [|exact H].
        apply row_leb_spec in H. congruence. }
      constructor; [exact IH|].
      destruct l as [|z l]; simpl; [now constructor|].
      destruct (row_leb r z); constructor; [exact Hyr|].
      now inversion Hd.
Qed.

Lemma sort_values_strongly_sorted (rows : list DriftRow) :
  StronglySorted flag_psi_order (sort_values rows).
Proof.
  apply Sorted_StronglySorted.
  - intros x y z. apply flag_psi_order_trans.
  - induction rows as [|r rows IH]; simpl; [constructor|].
    now apply insert_row_sorted.
Qed.

Lemma sort_values_perm (rows : list DriftRow) :
  Permutation rows (sort_values rows).
Proof.
  induction rows as [|r rows IH]; simpl; [constructor|].
  rewrite <- insert_row_perm. now constructor.
Qed.

(** ** The rows of a returned report *)

(** A returned table holds the rows of the loop of lines 81-111, one per
    selected feature, computed on the two frames of lines 73-74 and then
    sorted. *)
Lemma numeric_drift_report_rows
    (parse_datetime : cell -> option Z)
    (to_timestamp : string -> result (option Z))
    (ks_2samp : list Q -> list Q -> result fnum) (round : R -> Q)
    (df : DataFrame) (time_col split_time : string)
    (features : option (list string)) (cfg : option StabilityConfig)
    (out : list DriftRow) :
  numeric_drift_report parse_datetime to_timestamp ks_2samp round
    df time_col split_time features cfg = Ok (Table out) ->
  has_column df time_col = true /\
  exists split : option Z,
    to_timestamp split_time = Ok split /\
    selected_numeric df features <> [] /\
    out =
    sort_values
      (map (drift_row ks_2samp round
              match cfg with Some c => c | None => default_config end
              (select_rows df
                 (mask_pre
                    (map parse_datetime (s_values (get_column df time_col)))
                    split))
              (select_rows df
                 (mask_post
                    (map parse_datetime (s_values (get_column df time_col)))
                    split)))
           (selected_numeric df features)).
Proof.
  unfold numeric_drift_report.
  destruct (has_column df time_col); [|discriminate]. simpl negb. cbv iota.
  destruct (to_timestamp split_time) as [split|e]; [|discriminate].
  cbv zeta. fold (selected_numeric df features).
  destruct (selected_numeric df features) as [|f fs] eqn:E;
    [discriminate|].
  intro H. injection H as <-.
  split; [reflexivity|]. exists split.
  split; [reflexivity|]. split; [discriminate|reflexivity].
Qed.

Lemma drift_row_in_sorted (f : string -> DriftRow) (cols : list string)
    (P : DriftRow -> Prop) :
  (forall col, In col cols -> P (f col)) ->
  Forall P (sort_values (map f cols)).
Proof.
  intro H. eapply Permutation_Forall; [apply sort_values_perm|].
  apply Forall_forall. intros r Hr. apply in_map_iff in Hr.
  destruct Hr as [col [<- Hc]]. now apply H.
Qed.

Lemma row_leb_same (r r' y y' : DriftRow) :
  same_but_ks r r' -> same_but_ks y y' -> row_leb r y = row_leb r' y'.
Proof.
  intros [_ [P [F _]]] [_ [P' [F' _]]]. unfold row_leb.
  now rewrite P, F, P', F'.
Qed.

Lemma insert_row_same (r r' : DriftRow) (l l' : list DriftRow) :
  same_but_ks r r' -> Forall2 same_but_ks l l' ->
  Forall2 same_but_ks (insert_row r l) (insert_row r' l').
Proof.
  intros Hr Hl. induction Hl as [|y y' l l' Hy Hl IH]; simpl.
  - constructor; [exact Hr|constructor].
  - rewrite (row_leb_same Hr Hy).
    destruct (row_leb r' y').
    + constructor; [exact Hr|]. constructor; assumption.
    + constructor; assumption.
Qed.

Lemma sort_values_same (l l' : list DriftRow) :
  Forall2 same_but_ks l l' ->
  Forall2 same_but_ks (sort_values l) (sort_values l').
Proof.
  induction 1 as [|r r' l l' Hr Hl IH]; simpl; [constructor|].
  now apply insert_row_same.
Qed.

Lemma drift_rows_same (ks other : list Q -> list Q -> result fnum)
    (round : R -> Q) (cfg : StabilityConfig) (pre post : DataFrame)
    (cols : list string) :
  Forall2 same_but_ks (map (drift_row ks round cfg pre post) cols)
                      (map (drift_row other round cfg pre post) cols).
Proof.
  induction cols as [|c cs IH]; simpl; constructor; [|exact IH].
  repeat split.
Qed.

(** C4.  In every row of a returned report the KS p-value is undefined when
    one of the two cleaned samples of the feature, taken from the rows
    before and from the rows at or after the cutoff, has 20 observations or
    fewer, and when the test raises on them; with more than 20 observations
    on both sides and a test that returns, the row holds the value the test
    returned, so a number in [[0, 1]] whenever the test answers with such
    numbers.  What the test raises never reaches the caller: the report is
    returned whatever test is plugged in. *)
Theorem ks_pvalue_recorded
    (parse_datetime : cell -> option Z)
    (to_timestamp : string -> result (option Z))
    (ks_2samp : list Q -> list Q -> result fnum) (round : R -> Q)
    (df : DataFrame) (time_col split_time : string)
    (features : option (list string)) (cfg : option StabilityConfig)
    (out : list DriftRow) :
  numeric_drift_report parse_datetime to_timestamp ks_2samp round
    df time_col split_time features cfg = Ok (Table out) ->
  (exists split : option Z,
     to_timestamp split_time = Ok split /\
     let t := map parse_datetime (s_values (get_column df time_col)) in
     let pre := select_rows df (mask_pre t split) in
     let post := select_rows df (mask_post t split) in
     Forall (fun r =>
               let e2 :=
                 strip_nan (to_numpy_float (get_column pre (feature r))) in
               let a2 :=
                 strip_nan (to_numpy_float (get_column post (feature r))) in
               ((length e2 <= 20)%nat \/ (length a2 <= 20)%nat ->
                  ks_pvalue r = None) /\
               (forall err, ks_2samp e2 a2 = Raise err ->
                  ks_pvalue r = None) /\
               (forall p,
                  (20 < length e2)%nat -> (20 < length a2)%nat ->
                  ks_2samp e2 a2 = Ok p -> ks_pvalue r = p) /\
               ((forall x y p, ks_2samp x y = Ok p -> in_unit_interval p) ->
                  ks_pvalue r = None \/ in_unit_interval (ks_pvalue r)))
            out) /\
  (forall other : list Q -> list Q -> result fnum,
     exists out' : list DriftRow,
       numeric_drift_report parse_datetime to_timestamp other round
         df time_col split_time features cfg = Ok (Table out') /\
       Forall2 same_but_ks out out').
Proof.
  intro H.
  destruct (numeric_drift_report_rows _ _ _ _ _ _ _ _ _ H)
    as [Hcol [split [Hs [Hne ->]]]].
  split.
  - exists split. split; [exact Hs|]. cbv zeta.
    apply drift_row_in_sorted. intros col _.
    cbn [feature ks_pvalue drift_row].
    set (e := to_numpy_float (get_column (select_rows df _) col)).
    set (a := to_numpy_float (get_column (select_rows df _) col)).
    unfold ks_adapter. repeat split.
    + intros [L|L].
      * apply Nat.ltb_ge in L. now rewrite L.
      * apply Nat.ltb_ge in L. now rewrite L, andb_false_r.
    + intros err E. rewrite E. now destruct (_ && _).
    + intros p L1 L2 E. apply Nat.ltb_lt in L1, L2.
      now rewrite L1, L2, E.
    + intro C. destruct (_ && _); [|now left].
      destruct (ks_2samp (strip_nan e) (strip_nan a)) as [p|err] eqn:E;
        [|now left].
      right. eapply C. exact E.
  - intro other. unfold numeric_drift_report.
    rewrite Hcol, Hs. simpl negb. cbv iota zeta.
    fold (selected_numeric df features).
    destruct (selected_numeric df features) as [|f fs] eqn:E;
      [congruence|].
    eexists. split; [reflexivity|].
    apply sort_values_same, drift_rows_same.
Qed.

Example numeric_drift_report_df_drift :
  numeric_drift_report parse_epoch cutoff_epoch ks_half round_to_half
    df_drift "ts" "23" None None = Ok (Table report_of_df_drift).
Proof. vm_compute. reflexivity. Qed.

Lemma ks_pvalue_recorded_witness :
  (exists split : option Z,
     cutoff_epoch "23" = Ok split /\
     Forall (fun r =>
               let e2 :=
                 strip_nan
                   (to_numpy_float
                      (get_column
                         (select_rows df_drift
                            (mask_pre
                               (map parse_epoch
                                  (s_values (get_column df_drift "ts")))
                               split))
                         (feature r))) in
               let a2 :=
                 strip_nan
                   (to_numpy_float
                      (get_column
                         (select_rows df_drift
                            (mask_post
                               (map parse_epoch
                                  (s_values (get_column df_drift "ts")))
                               split))
                         (feature r))) in
               ((length e2 <= 20)%nat \/ (length a2 <= 20)%nat ->
                  ks_pvalue r = None) /\
               (forall err, ks_half e2 a2 = Raise err ->
                  ks_pvalue r = None) /\
               (forall p,
                  (20 < length e2)%nat -> (20 < length a2)%nat ->
                  ks_half e2 a2 = Ok p -> ks_pvalue r = p) /\
               ((forall x y p, ks_half x y = Ok p -> in_unit_interval p) ->
                  ks_pvalue r = None \/ in_unit_interval (ks_pvalue r)))
            report_of_df_drift) /\
  (forall other : list Q -> list Q -> result fnum,
     exists out' : list DriftRow,
       numeric_drift_report parse_epoch cutoff_epoch other round_to_half
         df_drift "ts" "23" None None = Ok (Table out') /\
       Forall2 same_but_ks report_of_df_drift out').
Proof.
  apply (@ks_pvalue_recorded parse_epoch cutoff_epoch ks_half round_to_half
           df_drift "ts" "23" None None report_of_df_drift).
  vm_compute. reflexivity.
Defined.

Lemma drift_flag_label (cfg : StabilityConfig) (p : ext Q) :
  In (drift_flag cfg p) ["alert"; "ok"; "warn"].
Proof.
  unfold drift_flag. destruct (negb (xisnan p)); [|simpl; tauto].
  destruct (xgeb p (psi_alert cfg)); [simpl; tauto|].
  destruct (xgeb p (psi_warn cfg)); simpl; tauto.
Qed.

(** C8.  The rows of a returned report are the rows computed for the
    selected features, rearranged so that they are sorted by the flag's
    label in the order of strings, which puts "alert" before "ok" before
    "warn", the only three labels, and, among equal flags, by PSI
    descending, undefined values last. *)
Theorem drift_report_sorted
    (parse_datetime : cell -> option Z)
    (to_timestamp : string -> result (option Z))
    (ks_2samp : list Q -> list Q -> result fnum) (round : R -> Q)
    (df : DataFrame) (time_col split_time : string)
    (features : option (list string)) (cfg : option StabilityConfig)
    (out : list DriftRow) :
  numeric_drift_report parse_datetime to_timestamp ks_2samp round
    df time_col split_time features cfg = Ok (Table out) ->
  StronglySorted flag_psi_order out /\
  Forall (fun r => In (flag r) ["alert"; "ok"; "warn"]) out /\
  String.ltb "alert" "ok" = true /\ String.ltb "ok" "warn" = true /\
  exists split : option Z,
    to_timestamp split_time = Ok split /\
    let t := map parse_datetime (s_values (get_column df time_col)) in
    Permutation
      (map (drift_row ks_2samp round
              match cfg with Some c => c | None => default_config end
              (select_rows df (mask_pre t split))
              (select_rows df (mask_post t split)))
           (selected_numeric df features))
      out.
Proof.
  intro H.
  destruct (numeric_drift_report_rows _ _ _ _ _ _ _ _ _ H)
    as [Hcol [split [Hs [Hne ->]]]].
  split; [apply sort_values_strongly_sorted|].
  split.
  { apply drift_row_in_sorted. intros col _. apply drift_flag_label. }
  split; [reflexivity|]. split; [reflexivity|].
  exists split. split; [exact Hs|]. apply sort_values_perm.
Qed.

Lemma drift_report_sorted_witness :
  StronglySorted flag_psi_order report_of_df_drift /\
  Forall (fun r => In (flag r) ["alert"; "ok"; "warn"]) report_of_df_drift /\
  String.ltb "alert" "ok" = true /\ String.ltb "ok" "warn" = true /\
  exists split : option Z,
    cutoff_epoch "23" = Ok split /\
    Permutation
      (map (drift_row ks_half round_to_half default_config
              (select_rows df_drift
                 (mask_pre
                    (map parse_epoch (s_values (get_column df_drift "ts")))
                    split))
              (select_rows df_drift
                 (mask_post
                    (map parse_epoch (s_values (get_column df_drift "ts")))
                    split)))
           (selected_numeric df_drift None))
      report_of_df_drift.
Proof.
  apply (@drift_report_sorted parse_epoch cutoff_epoch ks_half round_to_half
           df_drift "ts" "23" None None report_of_df_drift).
  vm_compute. reflexivity.
Defined.

(** In the sample the loop computes the rows in the order of the columns,
    c, x, g; the report lists x and g, flagged "alert", before c, flagged
    "ok". *)
Example drift_rows_of_df_drift :
  map feature
    (map (drift_row ks_half round_to_half default_config
            (select_rows df_drift
               (mask_pre
                  (map parse_epoch (s_values (get_column df_drift "ts")))
                  (Some 23%Z)))
            (select_rows df_drift
               (mask_post
                  (map parse_epoch (s_values (get_column df_drift "ts")))
                  (Some 23%Z))))
         (selected_numeric df_drift None)) = ["c"; "x"; "g"] /\
  map feature report_of_df_drift = ["x"; "g"; "c"].
Proof. split; vm_compute; reflexivity. Qed.

(** ** Missing columns *)

Lemma has_column_In (df : DataFrame) (name : string) :
  has_column df name = true <-> In name (columns df).
Proof.
  unfold has_column. rewrite existsb_exists. split.
  - intros [x [Hx E]]. apply String.eqb_eq in E. now subst.
  - intro H. exists name. split; [exact H|apply String.eqb_refl].
Qed.

(** C9.  When the timestamp column is not a column of the dataset, the
    drift report is the empty frame, and nothing is raised, even for a
    cutoff that would not parse; when the segment column is not a column of
    the dataset, the segment report is the empty frame. *)
Theorem missing_column_empty
    (parse_datetime : cell -> option Z)
    (to_timestamp : string -> result (option Z))
    (ks_2samp : list Q -> list Q -> result fnum) (round : R -> Q)
    (float_repr : Q -> string)
    (df : DataFrame) (time_col split_time : string)
    (features : option (list string)) (cfg : option StabilityConfig)
    (segment_col : string) (target_col : option string) (top_k : Z) :
  (~ In time_col (columns df) ->
     numeric_drift_report parse_datetime to_timestamp ks_2samp round
       df time_col split_time features cfg = Ok NoColumns) /\
  (~ In segment_col (columns df) ->
     segment_stability float_repr df segment_col target_col top_k = NoColumns).
Proof.
  split; intro H.
  - unfold numeric_drift_report.
    destruct (has_column df time_col) eqn:E; [|reflexivity].
    apply has_column_In in E. contradiction.
  - unfold segment_stability.
    destruct (has_column df segment_col) eqn:E; [|reflexivity].
    apply has_column_In in E. contradiction.
Qed.

Lemma missing_column_empty_witness :
  (~ In "ts" (columns df_segments) ->
     numeric_drift_report parse_nothing cutoff_unparsable ks_half round_to_zero
       df_segments "ts" "not a date" None None = Ok NoColumns) /\
  (~ In "region" (columns df_segments) ->
     segment_stability repr_integral df_segments "region" (Some "y") 15
     = NoColumns).
Proof.
  exact (@missing_column_empty parse_nothing cutoff_unparsable ks_half
           round_to_zero repr_integral df_segments "ts" "not a date" None None
           "region" (Some "y") 15%Z).
Defined.

Example missing_columns_of_df_segments :
  ~ In "ts" (columns df_segments) /\ ~ In "region" (columns df_segments).
Proof.
  split; intro H; simpl in H; repeat destruct H as [H|H]; try discriminate H;
    exact H.
Qed.

(** ** The segment report *)

Section SegmentFacts.

Variable float_repr : Q -> string.

Lemma bump_positive (k : cell) (acc : list (cell * Z)) :
  Forall (fun kc => (1 <= snd kc)%Z) acc ->
  Forall (fun kc => (1 <= snd kc)%Z) (bump k acc).
Proof.
  induction 1 as [|[k' n] acc Hn Hacc IH]; simpl.
  - repeat constructor. simpl. lia.
  - destruct (Py.cell_eqb k' k); constructor; simpl in *; try lia; assumption.
Qed.

Lemma tally_positive (l : list cell) :
  Forall (fun kc => (1 <= snd kc)%Z) (tally l).
Proof.
  unfold tally.
  assert (G : forall xs acc,
             Forall (fun kc => (1 <= snd kc)%Z) acc ->
             Forall (fun kc => (1 <= snd kc)%Z)
                    (fold_left (fun acc c => bump c acc) xs acc)).
  { induction xs as [|x xs IH]; intros acc Hacc; simpl; [exact Hacc|].
    apply IH. now apply bump_positive. }
  apply G. constructor.
Qed.

(** The tally accounts for every row that has a segment. *)
Lemma bump_sum (k : cell) (acc : list (cell * Z)) :
  Np.sum (map snd (bump k acc)) = (Np.sum (map snd acc) + 1)%Z.
Proof.
  induction acc as [|[k' n] acc IH]; simpl; [reflexivity|].
  destruct (Py.cell_eqb k' k); simpl; [lia|]. rewrite IH. lia.
Qed.

Lemma tally_sum (l : list cell) :
  Np.sum (map snd (tally l)) = Z.of_nat (length (filter notna l)).
Proof.
  unfold tally.
  assert (G : forall xs acc,
             Np.sum (map snd (fold_left (fun acc c => bump c acc) xs acc)) =
             (Np.sum (map snd acc) + Z.of_nat (length xs))%Z).
  { induction xs as [|x xs IH]; intros acc; simpl length; simpl fold_left.
    - simpl. lia.
    - rewrite IH, bump_sum. lia. }
  rewrite G. reflexivity.
Qed.

Lemma insert_count_perm (x : cell * Z) (l : list (cell * Z)) :
  Permutation (x :: l) (insert_count x l).
Proof.
  induction l as [|y l IH]; simpl; [reflexivity|].
  destruct (snd y <=? snd x)%Z; [reflexivity|].
  rewrite perm_swap. now constructor.
Qed.

Lemma value_counts_perm (l : list cell) :
  Permutation (tally l) (value_counts l).
Proof.
  unfold value_counts.
  induction (tally l) as [|x t IH]; simpl; [constructor|].
  rewrite <- insert_count_perm. now constructor.
Qed.

Lemma insert_count_sorted (x : cell * Z) (l : list (cell * Z)) :
  Sorted count_ge l -> Sorted count_ge (insert_count x l).
Proof.
  induction 1 as [|y l Hl IH Hd]; simpl.
  - repeat constructor.
  - destruct (Z.leb_spec (snd y) (snd x)) as [H|H].
    + constructor; [now constructor|]. now constructor.
    + constructor; [exact IH|].
      destruct l as [|z l]; simpl.
      * constructor. unfold count_ge. lia.
      * destruct (snd z <=? snd x)%Z; constructor.
        -- unfold count_ge. lia.
        -- now inversion Hd.
Qed.

Lemma value_counts_sorted (l : list cell) :
  StronglySorted count_ge (value_counts l).
Proof.
  apply Sorted_StronglySorted.
  - intros x y z. unfold count_ge. lia.
  - unfold value_counts.
    induction (tally l) as [|x t IH]; simpl; [constructor|].
    now apply insert_count_sorted.
Qed.

Lemma value_counts_positive (l : list cell) :
  Forall (fun kc => (1 <= snd kc)%Z) (value_counts l).
Proof.
  eapply Permutation_Forall; [apply value_counts_perm|apply tally_positive].
Qed.

Lemma strongly_sorted_app (A : Type) (R : A -> A -> Prop) (l1 l2 : list A) :
  StronglySorted R (l1 ++ l2) ->
  forall a b, In a l1 -> In b l2 -> R a b.
Proof.
  induction l1 as [|x l1 IH]; intros H a b Ha Hb; [destruct Ha|].
  simpl in H. apply StronglySorted_inv in H. destruct H as [Hs Hx].
  destruct Ha as [<-|Ha].
  - rewrite Forall_forall in Hx. apply Hx. apply in_or_app. now right.
  - now apply IH.
Qed.

Lemma head_firstn (A : Type) (n : Z) (l : list A) :
  (0 <= n)%Z -> head n l = firstn (Z.to_nat n) l.
Proof.
  intro H. unfold head. apply Z.leb_le in H. now rewrite H.
Qed.

Lemma segment_rows_counts (counts : list (cell * Z)) :
  map (fun r => (segment r, count r)) (segment_rows float_repr counts) =
  map (fun kc => (str_cell float_repr (fst kc), snd kc)) counts.
Proof.
  unfold segment_rows. rewrite map_map. reflexivity.
Qed.

Lemma segment_rows_sum_count (counts : list (cell * Z)) :
  sum_count (segment_rows float_repr counts) = Np.sum (map snd counts).
Proof.
  unfold sum_count, segment_rows. rewrite map_map. reflexivity.
Qed.

Lemma sum_positive (counts : list (cell * Z)) :
  Forall (fun kc => (1 <= snd kc)%Z) counts -> counts <> [] ->
  (1 <= Np.sum (map snd counts))%Z.
Proof.
  intros H Hne. destruct H as [|x l Hx Hl]; [congruence|].
  assert (G : (0 <= Np.sum (map snd l))%Z).
  { clear Hne Hx. induction Hl as [|y l Hy Hl IH]; [simpl; lia|].
    change (Np.sum (map snd (y :: l))) with (snd y + Np.sum (map snd l))%Z.
    lia. }
  change (Np.sum (map snd (x :: l))) with (snd x + Np.sum (map snd l))%Z.
  simpl in Hx. lia.
Qed.

Lemma sum_pct_shares (counts : list (cell * Z)) (total : Z) :
  (fold_right Qplus 0
     (map (fun kc => inject_Z (snd kc) / inject_Z total) counts)
   == inject_Z (Np.sum (map snd counts)) / inject_Z total)%Q.
Proof.
  induction counts as [|x l IH]; simpl.
  - unfold Qdiv. ring.
  - rewrite IH, inject_Z_plus. unfold Qdiv. ring.
Qed.

Lemma sum_pct_segment_rows (counts : list (cell * Z)) :
  Forall (fun kc => (1 <= snd kc)%Z) counts -> counts <> [] ->
  (sum_pct (segment_rows float_repr counts) == 1)%Q.
Proof.
  intros Hpos Hne. pose proof (sum_positive Hpos Hne) as Hs.
  unfold sum_pct, segment_rows. rewrite map_map. simpl.
  rewrite (sum_pct_shares counts (Z.max (Np.sum (map snd counts)) 1)).
  rewrite Z.max_l by lia.
  apply Qmult_inv_r. intro E.
  unfold Qeq in E. simpl in E. lia.
Qed.

(** With the segment column present, the rows of the report are those of
    the first [top_k] counts, whatever happens to the target. *)
Lemma segment_stability_rows (df : DataFrame) (segment_col : string)
    (target_col : option string) (top_k : Z) :
  has_column df segment_col = true ->
  exists tr : option (list fnum),
    segment_stability float_repr df segment_col target_col top_k =
    Table {| seg_rows :=
               segment_rows float_repr
                 (head top_k
                    (value_counts (s_values (get_column df segment_col))));
             target_rate := tr |}.
Proof.
  intro H. unfold segment_stability. rewrite H. simpl negb. cbv iota zeta.
  destruct target_col as [[|c0 c]|]; try (eexists; reflexivity).
  destruct (has_column df (String c0 c)); [|eexists; reflexivity].
  destruct (binary_like _); eexists; reflexivity.
Qed.

End SegmentFacts.

(** *** Counts are frequencies *)

Lemma Qeq_bool_sym (x y : Q) : Qeq_bool x y = Qeq_bool y x.
Proof.
  destruct (Qeq_bool x y) eqn:E1, (Qeq_bool y x) eqn:E2; try reflexivity.
  - apply Qeq_bool_iff in E1. symmetry in E1. apply Qeq_bool_iff in E1.
    congruence.
  - apply Qeq_bool_iff in E2. symmetry in E2. apply Qeq_bool_iff in E2.
    congruence.
Qed.

Lemma cell_eqb_refl (c : cell) : notna c = true -> Py.cell_eqb c c = true.
Proof.
  destruct c as [|b|z|q|s]; simpl; try discriminate; intros _;
    try (apply Qeq_bool_iff; reflexivity).
  apply String.eqb_refl.
Qed.

Lemma cell_eqb_sym (a b : cell) : Py.cell_eqb a b = Py.cell_eqb b a.
Proof.
  destruct a, b; simpl; try reflexivity; try apply Qeq_bool_sym.
  apply String.eqb_sym.
Qed.

Lemma cell_eqb_trans (a b c : cell) :
  Py.cell_eqb a b = true -> Py.cell_eqb b c = true -> Py.cell_eqb a c = true.
Proof.
  destruct a, b; simpl; try discriminate; destruct c; simpl;
    try discriminate; rewrite ?Qeq_bool_iff, ?String.eqb_eq;
    intros H1 H2; first [rewrite H1; exact H2|congruence].
Qed.

Lemma cell_eqb_null (k : cell) : Py.cell_eqb CNull k = false.
Proof. destruct k; reflexivity. Qed.

Lemma cell_eqb_diff (k c x : cell) :
  Py.cell_eqb k c = true -> Py.cell_eqb k x = Py.cell_eqb c x.
Proof.
  intro H. destruct (Py.cell_eqb c x) eqn:E.
  - now apply cell_eqb_trans with c.
  - destruct (Py.cell_eqb k x) eqn:E'; [|reflexivity].
    rewrite cell_eqb_sym in H.
    now rewrite (cell_eqb_trans _ _ _ H E') in E.
Qed.

Lemma find_count_bump (c x : cell) (acc : list (cell * Z)) :
  find_count (bump c acc) x =
  (find_count acc x + if Py.cell_eqb c x then 1 else 0)%Z.
Proof.
  induction acc as [|[k n] t IH]; simpl.
  - destruct (Py.cell_eqb c x); reflexivity.
  - destruct (Py.cell_eqb k c) eqn:Ekc; simpl.
    + rewrite <- (cell_eqb_diff _ _ x Ekc).
      destruct (Py.cell_eqb k x); lia.
    + destruct (Py.cell_eqb k x) eqn:Ekx; [|exact IH].
      destruct (Py.cell_eqb c x) eqn:Ecx; [|lia].
      rewrite (cell_eqb_sym c x) in Ecx.
      rewrite (cell_eqb_trans _ _ _ Ekx Ecx) in Ekc. discriminate.
Qed.

Lemma find_count_fold (xs : list cell) (acc : list (cell * Z)) (x : cell) :
  find_count (fold_left (fun acc c => bump c acc) xs acc) x =
  (find_count acc x + occurrences x xs)%Z.
Proof.
  revert acc. induction xs as [|c xs IH]; intro acc.
  - unfold occurrences. simpl. lia.
  - simpl fold_left. rewrite IH, find_count_bump.
    unfold occurrences. simpl filter.
    destruct (Py.cell_eqb c x); simpl length; lia.
Qed.

Lemma bump_distinct (c : cell) (acc : list (cell * Z)) :
  Py.cell_eqb c c = true -> distinct_keys acc -> distinct_keys (bump c acc).
Proof.
  intros Hc. induction 1 as [|k n t Hk Hd Ht IH]; simpl.
  - constructor; [exact Hc|constructor|constructor].
  - destruct (Py.cell_eqb k c) eqn:E.
    + now constructor.
    + constructor; [exact Hk| |exact IH].
      clear IH Ht. induction Hd as [|[k' n'] t Hx Hd IH]; simpl.
      * repeat constructor. exact E.
      * destruct (Py.cell_eqb k' c); constructor; assumption.
Qed.

Lemma tally_distinct (l : list cell) : distinct_keys (tally l).
Proof.
  unfold tally.
  assert (G : forall xs acc,
             Forall (fun c => notna c = true) xs -> distinct_keys acc ->
             distinct_keys (fold_left (fun acc c => bump c acc) xs acc)).
  { induction xs as [|x xs IH]; intros acc Hxs Hacc; simpl; [exact Hacc|].
    inversion Hxs; subst. apply IH; [assumption|].
    apply bump_distinct; [now apply cell_eqb_refl|exact Hacc]. }
  apply G; [|constructor].
  apply Forall_forall. intros x Hx. now apply filter_In in Hx.
Qed.

Lemma find_count_entry (acc : list (cell * Z)) (k : cell) (n : Z) :
  distinct_keys acc -> In (k, n) acc -> find_count acc k = n.
Proof.
  induction 1 as [|k0 n0 t Hk Hd Ht IH]; intro Hin; [destruct Hin|].
  simpl. destruct Hin as [E|Hin].
  - inversion E; subst. now rewrite Hk.
  - rewrite Forall_forall in Hd. pose proof (Hd (k, n) Hin) as E.
    simpl in E. rewrite E. now apply IH.
Qed.

Lemma occurrences_notna (k : cell) (l : list cell) :
  occurrences k (filter notna l) = occurrences k l.
Proof.
  unfold occurrences.
  assert (E : filter (fun c => Py.cell_eqb c k) (filter notna l) =
              filter (fun c => Py.cell_eqb c k) l).
  { induction l as [|c l IH]; [reflexivity|].
    destruct c; simpl; rewrite ?IH; reflexivity. }
  now rewrite E.
Qed.

(** Every entry of [value_counts] holds the number of cells equal to its
    key. *)
Lemma value_counts_frequency (l : list cell) (k : cell) (n : Z) :
  In (k, n) (value_counts l) -> n = occurrences k l.
Proof.
  intro H.
  apply (Permutation_in _ (Permutation_sym (value_counts_perm l))) in H.
  rewrite <- (@find_count_entry _ _ _ (tally_distinct l) H).
  unfold tally. rewrite find_count_fold. simpl.
  apply occurrences_notna.
Qed.

Lemma head_prefix (A : Type) (n : Z) (l : list A) :
  exists m : nat, head n l = firstn m l.
Proof. unfold head. destruct (0 <=? n)%Z; eexists; reflexivity. Qed.

(** *** Every value is counted, once *)

Lemma distinct_keys_perm (l l' : list (cell * Z)) :
  Permutation l l' -> distinct_keys l -> distinct_keys l'.
Proof.
  induction 1 as [|[k n] l l' P IH|[k1 n1] [k2 n2] l|l l' l'' P1 IH1 P2 IH2];
    intro D.
  - exact D.
  - inversion D; subst. constructor; [assumption| |now apply IH].
    eapply Permutation_Forall; eassumption.
  - inversion D as [|? ? ? Hk2 F2 D2]; subst.
    inversion D2 as [|? ? ? Hk1 F1 D1]; subst.
    inversion F2 as [|? ? E21 F2']; subst. simpl in E21.
    constructor; [exact Hk1| |constructor; assumption].
    constructor; [|exact F1]. simpl. now rewrite cell_eqb_sym.
  - auto.
Qed.

Lemma value_counts_distinct (l : list cell) : distinct_keys (value_counts l).
Proof.
  apply distinct_keys_perm with (tally l);
    [apply value_counts_perm|apply tally_distinct].
Qed.

Lemma find_count_key (acc : list (cell * Z)) (c : cell) :
  find_count acc c <> 0%Z ->
  exists k n, In (k, n) acc /\ Py.cell_eqb k c = true.
Proof.
  induction acc as [|[k n] t IH]; simpl; [congruence|].
  destruct (Py.cell_eqb k c) eqn:E.
  - intros _. exists k, n. split; [now left|exact E].
  - intro H. destruct (IH H) as [k' [n' [Hin Hk]]].
    exists k', n'. split; [now right|exact Hk].
Qed.

(** Every value of the column that is not missing has its entry. *)
Lemma value_counts_covers (l : list cell) (c : cell) :
  In c l -> notna c = true ->
  exists k n, In (k, n) (value_counts l) /\ Py.cell_eqb k c = true.
Proof.
  intros Hin Hn.
  assert (O : (1 <= occurrences c l)%Z).
  { unfold occurrences.
    assert (I : In c (filter (fun x => Py.cell_eqb x c) l)).
    { apply filter_In. split; [exact Hin|now apply cell_eqb_refl]. }
    destruct (filter _ l); [destruct I|simpl length; lia]. }
  destruct (@find_count_key (tally l) c) as [k [n [Hk E]]].
  - unfold tally. rewrite find_count_fold. simpl find_count.
    rewrite occurrences_notna. lia.
  - exists k, n. split; [|exact E].
    eapply Permutation_in; [apply value_counts_perm|exact Hk].
Qed.

Lemma sum_rounded_close (u : Q) (rnd : Q -> Q) (rows : list SegRow) :
  (forall r, In r rows -> Qabs (rnd (pct r) - pct r) <= u * pct r)%Q ->
  (Qabs (sum_rounded_pct rnd rows - sum_pct rows) <= u * sum_pct rows)%Q.
Proof.
  unfold sum_rounded_pct, sum_pct.
  induction rows as [|r rows IH]; intro H.
  - cbn [map fold_right]. apply (proj2 (Qabs_Qle_condition _ _)).
    split; Lqa.lra.
  - cbn [map fold_right].
    assert (Hr := H r (or_introl eq_refl)).
    assert (Ht : (Qabs (fold_right Qplus 0 (map (fun r => rnd (pct r)) rows)
                        - fold_right Qplus 0 (map pct rows))
                  <= u * fold_right Qplus 0 (map pct rows))%Q).
    { apply IH. intros x Hx. apply H. now right. }
    apply (proj1 (Qabs_Qle_condition _ _)) in Hr.
    apply (proj1 (Qabs_Qle_condition _ _)) in Ht.
    apply (proj2 (Qabs_Qle_condition _ _)).
    destruct Hr, Ht. split; Lqa.lra.
Qed.

Lemma sum_rounded_unit (u : Q) (rnd : Q -> Q) (rows : list SegRow) :
  (forall r, In r rows -> Qabs (rnd (pct r) - pct r) <= u * pct r)%Q ->
  (sum_pct rows == 1)%Q ->
  (Qabs (sum_rounded_pct rnd rows - 1) <= u)%Q.
Proof.
  intros H E. pose proof (sum_rounded_close rnd rows H) as C.
  rewrite E in C. now rewrite Qmult_1_r in C.
Qed.

(** C6, as amended.  With the segment column present, the frequency counts
    list every value of the column that is not missing, each under one key
    and with the number of its occurrences, largest count first; the report
    keeps the first [top_k] of them, so no dropped segment is more frequent
    than a kept one; each share is the segment's count over the sum of the
    reported counts.  The exact shares sum to 1 as soon as one segment is
    reported, in particular when [top_k] is at least the number of distinct
    values and the column has a value; the shares as doubles, each within
    the relative error [u] of its quotient, then sum to 1 within [u]. *)
Theorem segment_shares (float_repr : Q -> string) (df : DataFrame)
    (segment_col : string) (target_col : option string) (top_k : Z) :
  In segment_col (columns df) ->
  let seg := s_values (get_column df segment_col) in
  exists (tbl : SegTable) (kept dropped : list (cell * Z)),
    segment_stability float_repr df segment_col target_col top_k = Table tbl /\
    value_counts seg = kept ++ dropped /\
    distinct_keys (kept ++ dropped) /\
    (forall c, In c seg -> notna c = true ->
       exists k n, In (k, n) (kept ++ dropped) /\ Py.cell_eqb k c = true) /\
    (forall k n, In (k, n) (kept ++ dropped) -> n = occurrences k seg) /\
    ((0 <= top_k)%Z ->
       length kept = Nat.min (Z.to_nat top_k) (length (kept ++ dropped))) /\
    (forall k d, In k kept -> In d dropped -> (snd d <= snd k)%Z) /\
    map (fun r => (segment r, count r)) (seg_rows tbl) =
      map (fun kc => (str_cell float_repr (fst kc), snd kc)) kept /\
    (forall r, In r (seg_rows tbl) ->
       (pct r == inject_Z (count r) / inject_Z (sum_count (seg_rows tbl)))%Q) /\
    (seg_rows tbl <> [] -> (sum_pct (seg_rows tbl) == 1)%Q) /\
    ((Z.of_nat (length (kept ++ dropped)) <= top_k)%Z ->
     (exists c, In c seg /\ notna c = true) ->
     dropped = [] /\ (sum_pct (seg_rows tbl) == 1)%Q /\
     forall (u : Q) (rnd : Q -> Q),
       (forall r, In r (seg_rows tbl) ->
          (Qabs (rnd (pct r) - pct r) <= u * pct r)%Q) ->
       (Qabs (sum_rounded_pct rnd (seg_rows tbl) - 1) <= u)%Q).
Proof.
  intros Hcol seg. apply has_column_In in Hcol.
  destruct (@segment_stability_rows float_repr df segment_col target_col
              top_k Hcol) as [tr Htbl].
  fold seg in Htbl. set (vc := value_counts seg) in *.
  destruct (head_prefix top_k vc) as [m Hm].
  set (kept := head top_k vc) in *.
  assert (Hsplit : kept ++ skipn m vc = vc).
  { rewrite Hm. apply firstn_skipn. }
  assert (Hpos : Forall (fun kc => (1 <= snd kc)%Z) kept).
  { apply Forall_forall. intros x Hx.
    pose proof (value_counts_positive seg) as P.
    rewrite Forall_forall in P. apply P. fold vc.
    rewrite <- Hsplit. apply in_or_app. now left. }
  assert (Hsum : kept <> [] -> (sum_pct (segment_rows float_repr kept) == 1)%Q).
  { intro Hne. now apply sum_pct_segment_rows. }
  assert (Hrows : segment_rows float_repr kept <> [] -> kept <> []).
  { intros H E. apply H. rewrite E. reflexivity. }
  eexists. exists kept, (skipn m vc).
  split; [exact Htbl|]. cbn [seg_rows]. rewrite Hsplit.
  split; [reflexivity|].
  split; [apply value_counts_distinct|].
  split; [intros c; apply value_counts_covers|].
  split; [intros k n; apply value_counts_frequency|].
  split.
  { intro Hk. unfold kept. rewrite (head_firstn _ Hk). apply length_firstn. }
  split.
  { intros k d Hin Hd. pose proof (value_counts_sorted seg) as S.
    fold vc in S. rewrite <- Hsplit in S.
    exact (@strongly_sorted_app _ _ _ _ S k d Hin Hd). }
  split; [apply segment_rows_counts|].
  split.
  { intros r Hr. rewrite segment_rows_sum_count.
    unfold segment_rows in Hr. apply in_map_iff in Hr.
    destruct Hr as [kc [<- Hkc]]. cbn [pct count].
    rewrite Z.max_l; [reflexivity|].
    apply sum_positive; [exact Hpos|]. intro E. rewrite E in Hkc. exact Hkc. }
  split; [intro H; apply Hsum, Hrows, H|].
  intros Hlen [c [Hc Hn]].
  assert (Hne : vc <> []).
  { destruct (value_counts_covers seg c Hc Hn) as [k [n [Hin _]]].
    fold vc in Hin. intro E. rewrite E in Hin. destruct Hin. }
  assert (Hk : (0 <= top_k)%Z) by lia.
  assert (Hall : kept = vc).
  { unfold kept. rewrite (head_firstn _ Hk). apply firstn_all2. lia. }
  assert (Hone : (sum_pct (segment_rows float_repr kept) == 1)%Q).
  { apply Hsum. now rewrite Hall. }
  split; [|split; [exact Hone|]].
  - rewrite Hall in Hsplit.
    apply (f_equal (@List.length _)) in Hsplit. rewrite length_app in Hsplit.
    destruct (skipn m vc); [reflexivity|]. simpl in Hsplit. lia.
  - intros u rnd Hr. now apply sum_rounded_unit.
Qed.

Lemma segment_shares_witness :
  exists (tbl : SegTable) (kept dropped : list (cell * Z)),
    segment_stability repr_integral df_segments "seg" (Some "y") 15
      = Table tbl /\
    value_counts (s_values (get_column df_segments "seg")) = kept ++ dropped /\
    distinct_keys (kept ++ dropped) /\
    (forall c, In c (s_values (get_column df_segments "seg")) ->
       notna c = true ->
       exists k n, In (k, n) (kept ++ dropped) /\ Py.cell_eqb k c = true) /\
    (forall k n, In (k, n) (kept ++ dropped) ->
       n = occurrences k (s_values (get_column df_segments "seg"))) /\
    ((0 <= 15)%Z ->
       length kept = Nat.min (Z.to_nat 15) (length (kept ++ dropped))) /\
    (forall k d, In k kept -> In d dropped -> (snd d <= snd k)%Z) /\
    map (fun r => (segment r, count r)) (seg_rows tbl) =
      map (fun kc => (str_cell repr_integral (fst kc), snd kc)) kept /\
    (forall r, In r (seg_rows tbl) ->
       (pct r == inject_Z (count r) / inject_Z (sum_count (seg_rows tbl)))%Q) /\
    (seg_rows tbl <> [] -> (sum_pct (seg_rows tbl) == 1)%Q) /\
    ((Z.of_nat (length (kept ++ dropped)) <= 15)%Z ->
     (exists c, In c (s_values (get_column df_segments "seg")) /\
                notna c = true) ->
     dropped = [] /\ (sum_pct (seg_rows tbl) == 1)%Q /\
     forall (u : Q) (rnd : Q -> Q),
       (forall r, In r (seg_rows tbl) ->
          (Qabs (rnd (pct r) - pct r) <= u * pct r)%Q) ->
       (Qabs (sum_rounded_pct rnd (seg_rows tbl) - 1) <= u)%Q).
Proof.
  apply (@segment_shares repr_integral df_segments "seg" (Some "y") 15%Z).
  simpl. now left.
Defined.

(** There the three shares are 1/2, 1/3 and 1/6.  Rounded to doubles, each
    is within [2^-53] of its quotient in relative terms; their sum taken in
    doubles is [1 - 2^-53], the double that prints as 0.9999999999999999. *)
Example shares_of_df_segments_in_doubles :
  exists tbl : SegTable,
    segment_stability repr_integral df_segments "seg" (Some "y") 15
      = Table tbl /\
    map (fun r => Qred (pct r)) (seg_rows tbl) = [1 # 2; 1 # 3; 1 # 6]%Q /\
    Forall (fun r => (Qabs (Ieee.nearest (pct r) - pct r)
                      <= (1 # 2 ^ 53) * pct r)%Q) (seg_rows tbl) /\
    (Qabs (sum_rounded_pct Ieee.nearest (seg_rows tbl) - 1) <= 1 # 2 ^ 53)%Q /\
    Ieee.sum (map (fun r => Ieee.nearest (pct r)) (seg_rows tbl))
    = (1 - (1 # 2 ^ 53))%Q :> Q.
Proof.
  eexists. split; [vm_compute; reflexivity|]. cbn [seg_rows].
  split; [vm_compute; reflexivity|].
  split; [repeat constructor; apply Qle_bool_iff; vm_compute; reflexivity|].
  split; [apply Qle_bool_iff; vm_compute; reflexivity|].
  vm_compute. reflexivity.
Qed.

(** The example of the specification: A, A, A, B, B, C with [top_k = 2]. *)
Example segment_stability_df_segments :
  segment_stability repr_integral df_segments "seg" (Some "y") 2 =
  Table {| seg_rows := [ {| segment := "A"; count := 3; pct := 3 # 5 |};
                         {| segment := "B"; count := 2; pct := 2 # 5 |} ];
           target_rate := Some [Some (2 # 3)%Q; Some (1 # 2)%Q] |}.
Proof. vm_compute. reflexivity. Qed.

(** C6, as stated, fails: a segment column without a row has no distinct
    value, so any [top_k >= 0] is at least their number, and the shares sum
    to 0. *)
Lemma shares_of_no_rows :
  exists tbl : SegTable,
    segment_stability repr_integral df_no_rows "seg" None 15 = Table tbl /\
    In "seg" (columns df_no_rows) /\
    (Z.of_nat (length (value_counts (s_values (get_column df_no_rows "seg"))))
     <= 15)%Z /\
    (sum_pct (seg_rows tbl) == 0)%Q /\
    ~ (sum_pct (seg_rows tbl) == 1)%Q.
Proof.
  eexists. split; [vm_compute; reflexivity|].
  split; [simpl; now left|]. split; [vm_compute; discriminate|].
  split; [reflexivity|]. discriminate.
Qed.

(** ** The target rate *)

Lemma binary_like_spec (y2 : list (option string)) :
  binary_like y2 = true <->
  Forall (fun v => forall s, v = Some s ->
                   In s ["1"; "0"; "yes"; "no"; "true"; "false"]) y2.
Proof.
  unfold binary_like. rewrite forallb_forall, Forall_forall.
  split; intros H v Hv; specialize (H v Hv).
  - intros s ->. apply existsb_exists in H. destruct H as [k [Hk E]].
    apply String.eqb_eq in E. subst. exact Hk.
  - destruct v as [s|]; [|reflexivity].
    apply existsb_exists. exists s.
    split; [now apply H|apply String.eqb_refl].
Qed.

(** The same on the cells of the column: only the values that are there
    count. *)
Lemma binary_like_cells (float_repr : Q -> string) (y : list cell) :
  binary_like (normalise_target float_repr y) = true <->
  (forall v, In v y -> notna v = true ->
     In (Py.strip (Py.lower (str_cell float_repr v)))
        ["1"; "0"; "yes"; "no"; "true"; "false"]).
Proof.
  rewrite binary_like_spec. unfold normalise_target.
  rewrite Forall_forall. split.
  - intros H v Hv Hn. apply (H _ (in_map _ _ _ Hv)).
    destruct v; [discriminate Hn| | | |]; reflexivity.
  - intros H o Ho s ->. apply in_map_iff in Ho.
    destruct Ho as [v [E Hv]].
    assert (Hn : notna v = true) by (destruct v; [discriminate E| | | |]; reflexivity).
    assert (Es : s = Py.strip (Py.lower (str_cell float_repr v))).
    { destruct v; [discriminate E| | | |]; inversion E; reflexivity. }
    rewrite Es. now apply H.
Qed.

(** X11.  The target-rate column is attached exactly when a non-empty target
    column name is given, names a column, and every value of that column
    that is not missing, once printed, lowercased and trimmed, is one of the
    six words. *)
Lemma target_rate_attached_iff (float_repr : Q -> string) (df : DataFrame)
    (segment_col : string) (target_col : option string) (top_k : Z) :
  In segment_col (columns df) ->
  exists tbl : SegTable,
    segment_stability float_repr df segment_col target_col top_k = Table tbl /\
    (target_rate tbl <> None <->
     exists c, target_col = Some c /\ c <> "" /\ In c (columns df) /\
       forall v, In v (s_values (get_column df c)) -> notna v = true ->
         In (Py.strip (Py.lower (str_cell float_repr v)))
            ["1"; "0"; "yes"; "no"; "true"; "false"]).
Proof.
  intro Hcol. apply has_column_In in Hcol.
  unfold segment_stability. rewrite Hcol. simpl negb. cbv iota zeta.
  destruct target_col as [[|c0 c]|].
  - eexists. split; [reflexivity|]. simpl. split; [congruence|].
    intros [c' [E [N _]]]. inversion E. congruence.
  - destruct (has_column df (String c0 c)) eqn:Hc.
    + destruct (binary_like _) eqn:Hb; eexists; (split; [reflexivity|]); simpl.
      * split; [|discriminate]. intros _. exists (String c0 c).
        repeat split; try discriminate.
        -- now apply has_column_In.
        -- now apply binary_like_cells.
      * split; [congruence|]. intros [c' [E [_ [_ F]]]]. inversion E; subst.
        apply binary_like_cells in F. congruence.
    + eexists. split; [reflexivity|]. simpl. split; [congruence|].
      intros [c' [E [_ [I _]]]]. inversion E; subst.
      apply has_column_In in I. congruence.
  - eexists. split; [reflexivity|]. simpl. split; [congruence|].
    intros [c' [E _]]. discriminate.
Qed.

(** C5 at a segment column of integers: the target is binary-like and the
    column is attached, the means per store are 1/2 and 1, yet both
    reported rates are undefined, because the rates are keyed by the
    integers and looked up by the printed labels. *)
Theorem target_rate_of_integer_segments :
  segment_stability repr_integral df_stores "store" (Some "y") 15 =
  Table {| seg_rows := [ {| segment := "1"; count := 2; pct := 2 # 3 |};
                         {| segment := "2"; count := 1; pct := 1 # 3 |} ];
           target_rate := Some [None; None] |} /\
  group_mean
    (zip_dropna (s_values (get_column df_stores "store"))
       (binarise
          (normalise_target repr_integral
             (s_values (get_column df_stores "y"))))) =
  [(CInt 1, (1 # 2)%Q); (CInt 2, 1%Q)].
Proof. split; vm_compute; reflexivity. Qed.

(** * Further properties *)

(** ** The PSI estimator *)

Lemma psi_term_nonneg (a e : Q) :
  (0 < a)%Q -> (0 < e)%Q ->
  (0 <= Q2R (a - e) * ln (Q2R (a / e)))%R.
Proof.
  intros Ha He.
  assert (Ra : (0 < Q2R a)%R) by (replace 0%R with (Q2R 0) by lra; now apply Qlt_Rlt).
  assert (Re : (0 < Q2R e)%R) by (replace 0%R with (Q2R 0) by lra; now apply Qlt_Rlt).
  assert (He0 : ~ (e == 0)%Q).
  { intro E. rewrite E in He. discriminate. }
  rewrite Q2R_minus, Q2R_div by exact He0.
  unfold Rdiv. rewrite ln_mult, ln_Rinv; try lra.
  2:{ apply Rinv_0_lt_compat. lra. }
  destruct (Rtotal_order (Q2R a) (Q2R e)) as [H|[H|H]].
  - pose proof (ln_increasing _ _ Ra H). nra.
  - rewrite H. lra.
  - pose proof (ln_increasing _ _ Re H). nra.
Qed.

Lemma psi_sum_nonneg (a e : list Q) :
  Forall (fun p => (0 < p)%Q) a -> Forall (fun p => (0 < p)%Q) e ->
  exists r : R, X.sum (psi_terms a e) = Fin r /\ (0 <= r)%R.
Proof.
  intros Ha. revert e. induction Ha as [|x a Hx Ha IH]; intros e He.
  - exists 0%R. split; [reflexivity|lra].
  - destruct He as [|y e Hy He].
    + exists 0%R. split; [reflexivity|lra].
    + destruct (IH e He) as [r [Hr Hr0]].
      change (psi_terms (x :: a) (y :: e))
        with (psi_term x y :: psi_terms a e).
      change (X.sum (?t :: ?l)) with (X.add t (X.sum l)).
      rewrite Hr, (psi_term_pos Hx Hy).
      eexists. split; [reflexivity|].
      pose proof (psi_term_nonneg Hx Hy). lra.
Qed.

(** X1.  With a positive epsilon, a defined PSI is never negative: in every
    bin the difference of the two probabilities and the logarithm of their
    ratio have the same sign. *)
Theorem psi_nonneg (expected actual : list fnum) (bins : nat) (eps : Q) :
  (0 < eps)%Q ->
  strip_nan expected <> [] ->
  strip_nan actual <> [] ->
  (3 <= length (psi_edges (strip_nan expected) bins))%nat ->
  exists r : R, _psi expected actual bins eps = Fin r /\ (0 <= r)%R.
Proof.
  intros Heps He Ha Hedges. unfold _psi.
  destruct (strip_nan expected) as [|e0 et] eqn:Ee; [congruence|].
  destruct (strip_nan actual) as [|a0 at'] eqn:Ea; [congruence|].
  cbn [length Nat.eqb orb].
  destruct (Nat.ltb_spec (length (psi_edges (e0 :: et) bins)) 3) as [L|_];
    [lia|].
  cbv zeta. apply psi_sum_nonneg; now apply psi_dist_pos.
Qed.

Lemma psi_nonneg_witness :
  exists r : R,
    _psi sample01 sample_outside 10 (psi_epsilon default_config) = Fin r /\
    (0 <= r)%R.
Proof.
  apply (@psi_nonneg sample01 sample_outside 10 (psi_epsilon default_config)).
  - reflexivity.
  - discriminate.
  - discriminate.
  - vm_compute. lia.
Defined.

(** *** The edges *)

Lemma np_insert_sorted (x : Q) (l : list Q) :
  Sorted Qle l -> Sorted Qle (Np.insert x l).
Proof.
  induction 1 as [|y l Hl IH Hd]; simpl.
  - repeat constructor.
  - destruct (Qle_bool_cases x y) as [[H E]|[H E]]; rewrite E.
    + constructor; [now constructor|]. now constructor.
    + constructor; [exact IH|].
      destruct l as [|z l]; simpl.
      * constructor. now apply Qlt_le_weak.
      * destruct (Qle_bool x z); constructor.
        -- now apply Qlt_le_weak.
        -- now inversion Hd.
Qed.

Lemma np_sort_sorted (l : list Q) : Sorted Qle (Np.sort l).
Proof.
  induction l as [|x l IH]; simpl; [constructor|].
  now apply np_insert_sorted.
Qed.

(** What [dedup] leaves of a non-empty list starts with a value equal to
    its head. *)
Lemma dedup_head (x : Q) (l : list Q) :
  exists x' rest, Np.dedup (x :: l) = x' :: rest /\ (x' == x)%Q.
Proof.
  revert x. induction l as [|y l IH]; intro x.
  - exists x, []. split; reflexivity.
  - change (Np.dedup (x :: y :: l))
      with (if Qeq_bool x y then Np.dedup (y :: l) else x :: Np.dedup (y :: l)).
    destruct (Qeq_bool x y) eqn:E.
    + destruct (IH y) as [x' [rest [H1 H2]]]. exists x', rest.
      split; [exact H1|]. apply Qeq_bool_iff in E. rewrite H2. now symmetry.
    + eexists. eexists. split; reflexivity.
Qed.

Lemma dedup_sorted (l : list Q) : Sorted Qle l -> Sorted Qlt (Np.dedup l).
Proof.
  induction 1 as [|x l Hl IH Hd]; [constructor|].
  destruct l as [|y l]; [repeat constructor|].
  change (Np.dedup (x :: y :: l))
    with (if Qeq_bool x y then Np.dedup (y :: l) else x :: Np.dedup (y :: l)).
  destruct (Qeq_bool x y) eqn:E; [exact IH|].
  constructor; [exact IH|].
  destruct (dedup_head y l) as [y' [rest [H1 H2]]]. rewrite H1.
  constructor. rewrite H2. inversion Hd; subst.
  apply Qle_lteq in H0. destruct H0 as [H0|H0]; [exact H0|].
  apply Qeq_bool_iff in H0. congruence.
Qed.

Lemma psi_edges_increasing (x : list Q) (bins : nat) :
  StronglySorted Qlt (psi_edges x bins).
Proof.
  apply Sorted_StronglySorted.
  - intros a b c. apply Qlt_trans.
  - unfold psi_edges, Np.unique. apply dedup_sorted, np_sort_sorted.
Qed.

Lemma dedup_length (l : list Q) : (length (Np.dedup l) <= length l)%nat.
Proof.
  induction l as [|x l IH]; [simpl; lia|].
  destruct l as [|y l]; [simpl; lia|].
  change (Np.dedup (x :: y :: l))
    with (if Qeq_bool x y then Np.dedup (y :: l) else x :: Np.dedup (y :: l)).
  destruct (Qeq_bool x y); simpl in *; lia.
Qed.

Lemma linspace01_length (bins : nat) :
  length (Np.linspace01 bins) = S bins.
Proof.
  destruct bins as [|b]; [reflexivity|].
  unfold Np.linspace01. now rewrite length_map, length_seq.
Qed.

Lemma psi_edges_length (x : list Q) (bins : nat) :
  (length (psi_edges x bins) <= S bins)%nat.
Proof.
  unfold psi_edges, Np.unique.
  eapply Nat.le_trans; [apply dedup_length|].
  rewrite sort_length. unfold Np.quantile.
  now rewrite length_map, linspace01_length.
Qed.

(** X2.  The bin edges are strictly increasing, and there are at most
    [bins + 1] of them; so with fewer than two bins PSI is undefined for
    every pair of samples. *)
Theorem psi_edges_shape (x : list Q) (bins : nat) :
  StronglySorted Qlt (psi_edges x bins) /\
  (length (psi_edges x bins) <= bins + 1)%nat /\
  ((bins < 2)%nat ->
   forall (expected actual : list fnum) (eps : Q),
     _psi expected actual bins eps = NaN).
Proof.
  split; [apply psi_edges_increasing|].
  split; [rewrite Nat.add_1_r; apply psi_edges_length|].
  intros Hb expected actual eps. unfold _psi.
  destruct (_ || _); [reflexivity|]. cbv zeta.
  pose proof (psi_edges_length (strip_nan expected) bins) as L.
  destruct (Nat.ltb_spec (length (psi_edges (strip_nan expected) bins)) 3);
    [reflexivity|lia].
Qed.

(** *** The histogram *)

Lemma count_split (p q r : Q -> bool) (x : list Q) :
  (forall v, In v x ->
     (p v = true -> q v = false) /\ r v = p v || q v) ->
  (Np.count p x + Np.count q x = Np.count r x)%Z.
Proof.
  unfold Np.count. induction x as [|v x IH]; intro H; [reflexivity|].
  assert (IH' : (Z.of_nat (length (filter p x)) + Z.of_nat (length (filter q x))
                 = Z.of_nat (length (filter r x)))%Z).
  { apply IH. intros w Hw. apply H. now right. }
  destruct (H v (or_introl eq_refl)) as [H1 H2].
  simpl. rewrite H2.
  destruct (p v) eqn:Ep; [rewrite (H1 eq_refl)|destruct (q v)];
    simpl orb; cbv iota; simpl length; lia.
Qed.

Lemma count_le_length (p : Q -> bool) (x : list Q) :
  (Np.count p x <= Z.of_nat (length x))%Z.
Proof.
  unfold Np.count. pose proof (filter_length_le p x). lia.
Qed.

Lemma last_cons_cons (A : Type) (a b : A) (l : list A) (d : A) :
  last (a :: b :: l) d = last (b :: l) d.
Proof. reflexivity. Qed.

Lemma increasing_last (hi : Q) (rest : list Q) :
  StronglySorted Qlt (hi :: rest) -> (hi <= last (hi :: rest) 0)%Q.
Proof.
  revert hi. induction rest as [|h r IH]; intros hi H.
  - simpl. apply Qle_refl.
  - rewrite last_cons_cons. apply StronglySorted_inv in H.
    destruct H as [H1 H2]. inversion H2; subst.
    apply Qlt_le_weak. eapply Qlt_le_trans; [eassumption|]. now apply IH.
Qed.

(** Over strictly increasing edges the bins are disjoint and cover the
    closed interval from the first edge to the last. *)
Lemma histogram_sum (x : list Q) (lo hi : Q) (rest : list Q) :
  StronglySorted Qlt (lo :: hi :: rest) ->
  Np.sum (Np.histogram x (lo :: hi :: rest)) =
  Np.count (fun v => Qle_bool lo v && Qle_bool v (last (hi :: rest) 0)) x.
Proof.
  revert lo hi. induction rest as [|h r IH]; intros lo hi H.
  - simpl. lia.
  - change (Np.histogram x (lo :: hi :: h :: r))
      with (Np.count (fun v => Qle_bool lo v && negb (Qle_bool hi v)) x
            :: Np.histogram x (hi :: h :: r)).
    change (Np.sum (?c :: ?l)) with (c + Np.sum l)%Z.
    apply StronglySorted_inv in H. destruct H as [Ht Hlo].
    rewrite (IH hi h Ht), last_cons_cons.
    pose proof (increasing_last Ht) as Hlast. rewrite last_cons_cons in Hlast.
    inversion Hlo as [|? ? Hlohi _]; subst.
    apply count_split. intros v _.
    destruct (Qle_bool_cases hi v) as [[Hv E]|[Hv E]]; rewrite E.
    + rewrite (@Qle_bool_true lo v).
      2:{ apply Qlt_le_weak. eapply Qlt_le_trans; eassumption. }
      split; [discriminate|reflexivity].
    + rewrite (@Qle_bool_true v (last (h :: r) 0)).
      2:{ apply Qlt_le_weak. eapply Qlt_le_trans; eassumption. }
      split; [reflexivity|]. cbn [negb andb].
      now rewrite orb_false_r, andb_true_r.
Qed.

(** X3.  Histogramming a sample over the edges counts each of its values at
    most once: the values from the first edge to the last one, both
    included, exactly once, and the values outside not at all. *)
Theorem histogram_total (expected x : list Q) (bins : nat) :
  (2 <= length (psi_edges expected bins))%nat ->
  let edges := psi_edges expected bins in
  Np.sum (Np.histogram x edges) =
    Np.count (fun v => Qle_bool (first_edge edges) v
                       && Qle_bool v (last_edge edges)) x /\
  (Np.sum (Np.histogram x edges) <= Z.of_nat (length x))%Z.
Proof.
  intros Hlen edges. pose proof (psi_edges_increasing expected bins) as Hs.
  fold edges in Hs, Hlen.
  destruct edges as [|lo [|hi rest]]; simpl in Hlen; try lia.
  rewrite (histogram_sum x Hs).
  unfold first_edge, last_edge. rewrite last_cons_cons. simpl hd.
  split; [reflexivity|apply count_le_length].
Qed.

Lemma histogram_total_witness :
  Np.sum (Np.histogram (strip_nan sample_outside)
            (psi_edges (strip_nan sample01) 10)) =
    Np.count (fun v =>
                Qle_bool (first_edge (psi_edges (strip_nan sample01) 10)) v
                && Qle_bool v (last_edge (psi_edges (strip_nan sample01) 10)))
             (strip_nan sample_outside) /\
  (Np.sum (Np.histogram (strip_nan sample_outside)
             (psi_edges (strip_nan sample01) 10))
   <= Z.of_nat (length (strip_nan sample_outside)))%Z.
Proof.
  apply (@histogram_total (strip_nan sample01) (strip_nan sample_outside) 10).
  vm_compute. lia.
Defined.

(** *** The reference sample in its own bins *)

Lemma np_insert_In (v x : Q) (l : list Q) :
  In v (Np.insert x l) <-> v = x \/ In v l.
Proof.
  induction l as [|y l IH]; simpl; [intuition|].
  destruct (Qle_bool x y); simpl; [intuition|]. rewrite IH. intuition.
Qed.

Lemma np_sort_In (v : Q) (l : list Q) : In v (Np.sort l) <-> In v l.
Proof.
  induction l as [|x l IH]; simpl; [reflexivity|].
  rewrite np_insert_In, IH. intuition.
Qed.

Lemma np_sort_strongly_sorted (l : list Q) : StronglySorted Qle (Np.sort l).
Proof.
  apply Sorted_StronglySorted; [|apply np_sort_sorted].
  intros a b c. apply Qle_trans.
Qed.

Lemma sorted_bounds (l : list Q) :
  StronglySorted Qle l ->
  forall v : Q, In v l -> (hd 0 l <= v)%Q /\ (v <= last l 0)%Q.
Proof.
  induction 1 as [|x l Hl IH Hx]; intros v Hv; [destruct Hv|].
  rewrite Forall_forall in Hx. simpl hd.
  destruct Hv as [<-|Hv].
  - split; [apply Qle_refl|].
    destruct l as [|y l]; [apply Qle_refl|]. rewrite last_cons_cons.
    eapply Qle_trans; [apply (Hx y); now left|].
    apply (IH y). now left.
  - split; [now apply Hx|].
    destruct l as [|y l]; [destruct Hv|]. rewrite last_cons_cons.
    now apply IH.
Qed.

Lemma dedup_last (l : list Q) (d : Q) : last (Np.dedup l) d = last l d.
Proof.
  induction l as [|x l IH]; [reflexivity|].
  destruct l as [|y l]; [reflexivity|].
  change (Np.dedup (x :: y :: l))
    with (if Qeq_bool x y then Np.dedup (y :: l) else x :: Np.dedup (y :: l)).
  rewrite last_cons_cons.
  destruct (Qeq_bool x y); [exact IH|].
  destruct (dedup_head y l) as [y' [rest [H _]]].
  rewrite H in *. rewrite last_cons_cons. exact IH.
Qed.

Lemma nth_pred_last (l : list Q) (d : Q) :
  nth (pred (length l)) l d = last l d.
Proof.
  induction l as [|x l IH]; [reflexivity|].
  destruct l as [|y l]; [reflexivity|].
  rewrite last_cons_cons. exact IH.
Qed.

(** The quantile at 0 is the least value, the quantile at 1 the greatest. *)
Lemma quantile1_at_0 (s : list Q) (q : Q) :
  (q == 0)%Q -> (Np.quantile1 s q == hd 0 s)%Q.
Proof.
  intro Hq. unfold Np.quantile1. cbv zeta.
  assert (V : (q * inject_Z (Z.of_nat (length s) - 1) == 0)%Q)
    by (rewrite Hq; ring).
  assert (F : Qfloor (q * inject_Z (Z.of_nat (length s) - 1)) = 0%Z)
    by (rewrite V; reflexivity).
  rewrite F. simpl Z.to_nat.
  replace (nth 0 s 0%Q) with (hd 0%Q s) by (destruct s; reflexivity).
  set (b := nth _ s 0%Q). setoid_rewrite V. change (inject_Z 0) with 0%Q.
  ring.
Qed.

Lemma quantile1_at_1 (s : list Q) (q : Q) :
  s <> [] -> (q == 1)%Q -> (Np.quantile1 s q == last s 0)%Q.
Proof.
  intros Hs Hq. unfold Np.quantile1. cbv zeta.
  set (n := Z.of_nat (length s)).
  assert (V : (q * inject_Z (n - 1) == inject_Z (n - 1))%Q)
    by (rewrite Hq; ring).
  assert (F : Qfloor (q * inject_Z (n - 1)) = (n - 1)%Z)
    by (rewrite V; apply Qfloor_Z).
  rewrite F.
  replace (Z.to_nat (n - 1)) with (pred (length s)) by (subst n; lia).
  rewrite nth_pred_last. set (b := nth _ s 0%Q). setoid_rewrite V.
  ring.
Qed.

Lemma linspace01_ends (b : nat) :
  exists q0 q1 : Q,
    In q0 (Np.linspace01 (S b)) /\ In q1 (Np.linspace01 (S b)) /\
    (q0 == 0)%Q /\ (q1 == 1)%Q.
Proof.
  exists (inject_Z (Z.of_nat 0) / inject_Z (Z.of_nat (S b)))%Q,
         (inject_Z (Z.of_nat (S b)) / inject_Z (Z.of_nat (S b)))%Q.
  unfold Np.linspace01. split; [|split; [|split]].
  - apply in_map_iff. exists 0%nat. split; [reflexivity|]. apply in_seq. lia.
  - apply in_map_iff. exists (S b). split; [reflexivity|]. apply in_seq. lia.
  - unfold Qdiv. change (inject_Z (Z.of_nat 0)) with 0%Q. ring.
  - apply Qmult_inv_r. intro E. unfold Qeq in E. simpl in E. lia.
Qed.

(** Every value of the sample lies between the first and the last edge. *)
Lemma psi_edges_cover (x : list Q) (b : nat) (v : Q) :
  In v x ->
  (first_edge (psi_edges x (S b)) <= v)%Q /\
  (v <= last_edge (psi_edges x (S b)))%Q.
Proof.
  intro Hv. unfold first_edge, last_edge, psi_edges, Np.unique.
  set (s := Np.sort x).
  set (qs := Np.quantile x (Np.linspace01 (S b))).
  assert (Hs : s <> []).
  { intro E. apply np_sort_In in Hv. fold s in Hv. rewrite E in Hv.
    destruct Hv. }
  destruct (linspace01_ends b) as [q0 [q1 [I0 [I1 [E0 E1]]]]].
  assert (B : (hd 0 s <= v)%Q /\ (v <= last s 0)%Q).
  { apply sorted_bounds; [apply np_sort_strongly_sorted|now apply np_sort_In]. }
  assert (In0 : In (Np.quantile1 s q0) (Np.sort qs)).
  { apply np_sort_In. unfold qs, Np.quantile. now apply in_map. }
  assert (In1 : In (Np.quantile1 s q1) (Np.sort qs)).
  { apply np_sort_In. unfold qs, Np.quantile. now apply in_map. }
  pose proof (sorted_bounds (np_sort_strongly_sorted qs) _ In0) as [L0 _].
  pose proof (sorted_bounds (np_sort_strongly_sorted qs) _ In1) as [_ L1].
  rewrite (quantile1_at_0 s E0) in L0.
  rewrite (quantile1_at_1 Hs E1) in L1.
  rewrite dedup_last. split.
  - destruct (Np.sort qs) as [|e0 es] eqn:Eq; [destruct In0|].
    destruct (dedup_head e0 es) as [e0' [rest [H1 H2]]]. rewrite H1.
    simpl hd in *. rewrite H2. eapply Qle_trans; [exact L0|apply B].
  - eapply Qle_trans; [apply B|exact L1].
Qed.

Lemma count_all (p : Q -> bool) (x : list Q) :
  (forall v, In v x -> p v = true) -> Np.count p x = Z.of_nat (length x).
Proof.
  intro H. unfold Np.count. f_equal. f_equal.
  induction x as [|v x IH]; [reflexivity|]. simpl.
  rewrite (H v (or_introl eq_refl)). f_equal. apply IH.
  intros w Hw. apply H. now right.
Qed.

(** X4.  The reference sample loses no value in its own bins: its counts
    add up to its size, so the guard [max(e_counts.sum(), 1)] never acts on
    the reference side once there are two edges. *)
Theorem reference_histogram_total (expected : list Q) (bins : nat) :
  (2 <= length (psi_edges expected bins))%nat ->
  Np.sum (Np.histogram expected (psi_edges expected bins)) =
  Z.of_nat (length expected).
Proof.
  intro Hlen. pose proof (psi_edges_increasing expected bins) as Hs.
  destruct bins as [|b].
  { pose proof (psi_edges_length expected 0). lia. }
  pose proof (psi_edges_cover expected b) as Hc.
  unfold first_edge, last_edge in Hc.
  destruct (psi_edges expected (S b)) as [|lo [|hi rest]];
    simpl in Hlen; try lia.
  rewrite (histogram_sum expected Hs). apply count_all.
  intros v Hv. destruct (Hc v Hv) as [H1 H2].
  rewrite last_cons_cons in H2. simpl hd in H1.
  apply andb_true_intro. split; now apply Qle_bool_iff.
Qed.

Lemma reference_histogram_total_witness :
  Np.sum (Np.histogram (strip_nan sample01)
            (psi_edges (strip_nan sample01) 10)) =
  Z.of_nat (length (strip_nan sample01)).
Proof.
  apply (@reference_histogram_total (strip_nan sample01) 10).
  vm_compute. lia.
Defined.

(** ** The drift report *)

(** X5.  The flag never goes down when PSI goes up: whatever the two
    thresholds, a larger PSI value gets a flag at least as severe. *)
Theorem drift_flag_monotone (cfg : StabilityConfig) (p1 p2 : Q) :
  (p1 <= p2)%Q ->
  (severity_rank (drift_flag cfg (Fin p1)) <=
   severity_rank (drift_flag cfg (Fin p2)))%nat.
Proof.
  intro H. unfold drift_flag. simpl.
  destruct (Qle_bool_cases (psi_alert cfg) p1) as [[A1 E1]|[A1 E1]]; rewrite E1.
  - rewrite (@Qle_bool_true (psi_alert cfg) p2); [apply Nat.le_refl|].
    eapply Qle_trans; eassumption.
  - destruct (Qle_bool_cases (psi_warn cfg) p1) as [[W1 F1]|[W1 F1]]; rewrite F1.
    + destruct (Qle_bool (psi_alert cfg) p2); [cbv; lia|].
      rewrite (@Qle_bool_true (psi_warn cfg) p2); [apply Nat.le_refl|].
      eapply Qle_trans; eassumption.
    + destruct (Qle_bool (psi_alert cfg) p2); [cbv; lia|].
      destruct (Qle_bool (psi_warn cfg) p2); cbv; lia.
Qed.

Lemma drift_flag_monotone_witness :
  (severity_rank (drift_flag default_config (Fin (1 # 10)%Q)) <=
   severity_rank (drift_flag default_config (Fin (1 # 4)%Q)))%nat.
Proof.
  apply (@drift_flag_monotone default_config (1 # 10)%Q (1 # 4)%Q).
  unfold Qle. simpl. lia.
Defined.

(** X6.  A defined KS p-value is only ever recorded past the gate: both
    cleaned samples have more than 20 observations and the test returned
    that value. *)
Theorem ks_adapter_defined (ks_2samp : list Q -> list Q -> result fnum)
    (e a : list fnum) (p : Q) :
  ks_adapter ks_2samp e a = Some p ->
  (20 < length (strip_nan e))%nat /\
  (20 < length (strip_nan a))%nat /\
  ks_2samp (strip_nan e) (strip_nan a) = Ok (Some p).
Proof.
  unfold ks_adapter.
  destruct (Nat.ltb_spec 20 (length (strip_nan e))) as [He|He];
    [|discriminate].
  destruct (Nat.ltb_spec 20 (length (strip_nan a))) as [Ha|Ha];
    [|discriminate].
  simpl. destruct (ks_2samp _ _) as [q|err]; [|discriminate].
  intro H. subst. auto.
Qed.

Lemma ks_adapter_defined_witness :
  (20 < length (strip_nan sample_heavy))%nat /\
  (20 < length (strip_nan sample_heavy))%nat /\
  ks_half (strip_nan sample_heavy) (strip_nan sample_heavy)
  = Ok (Some (1 # 2)%Q).
Proof.
  apply (@ks_adapter_defined ks_half sample_heavy sample_heavy (1 # 2)%Q).
  reflexivity.
Defined.

(** *** The partition in numbers *)




(** There 22 and 21 rows make the 43 rows whose timestamp parsed, of 44. *)
Example time_partition_count_df_drift :
  nrows
    (select_rows df_drift
       (mask_pre (map parse_epoch (s_values (get_column df_drift "ts")))
          (Some 23%Z))) = 22%nat /\
  nrows
    (select_rows df_drift
       (mask_post (map parse_epoch (s_values (get_column df_drift "ts")))
          (Some 23%Z))) = 21%nat /\
  length (filter parsed
            (map parse_epoch (s_values (get_column df_drift "ts"))))
  = 43%nat /\
  nrows df_drift = 44%nat.
Proof. repeat split; vm_compute; reflexivity. Qed.

(** *** The outcomes of the report *)

(** X8.  A returned table means that the timestamp column is there, that
    the cutoff parsed and that some numeric feature is selected; the table
    then has exactly one row per selected feature, each flagged from its
    own PSI under the configuration in force. *)
Theorem numeric_drift_report_outcome
    (parse_datetime : cell -> option Z)
    (to_timestamp : string -> result (option Z))
    (ks_2samp : list Q -> list Q -> result fnum) (round : R -> Q)
    (df : DataFrame) (time_col split_time : string)
    (features : option (list string)) (cfg : option StabilityConfig)
    (out : list DriftRow) :
  numeric_drift_report parse_datetime to_timestamp ks_2samp round
    df time_col split_time features cfg = Ok (Table out) ->
  In time_col (columns df) /\
  (exists split, to_timestamp split_time = Ok split) /\
  selected_numeric df features <> [] /\
  Permutation (selected_numeric df features) (map feature out) /\
  Forall (fun r =>
            flag r =
            drift_flag
              match cfg with Some c => c | None => default_config end
              (psi r)) out.
Proof.
  intro H.
  destruct (numeric_drift_report_rows _ _ _ _ _ _ _ _ _ H)
    as [Hcol [split [Hs [Hne ->]]]].
  split; [now apply has_column_In|].
  split; [now exists split|]. split; [exact Hne|].
  split.
  { eapply Permutation_trans; [|apply Permutation_map, sort_values_perm].
    rewrite map_map. simpl. rewrite map_id. reflexivity. }
  apply drift_row_in_sorted. intros col _. reflexivity.
Qed.

Lemma numeric_drift_report_outcome_witness :
  In "ts" (columns df_drift) /\
  (exists split, cutoff_epoch "23" = Ok split) /\
  selected_numeric df_drift None <> [] /\
  Permutation (selected_numeric df_drift None)
              (map feature report_of_df_drift) /\
  Forall (fun r => flag r = drift_flag default_config (psi r))
         report_of_df_drift.
Proof.
  apply (@numeric_drift_report_outcome parse_epoch cutoff_epoch ks_half
           round_to_half df_drift "ts" "23" None None report_of_df_drift).
  vm_compute. reflexivity.
Defined.

(** *** A cutoff that is not a time *)

Lemma bool_index_none (A : Type) (mask : list bool) (l : list A) :
  Forall (fun b => b = false) mask -> bool_index mask l = [].
Proof.
  intro H. revert l. induction H as [|b t Hb Ht IH]; intros [|x l];
    try reflexivity.
  subst. simpl. apply IH.
Qed.

Lemma mask_pre_nat (t : list (option Z)) :
  Forall (fun b => b = false) (mask_pre t None).
Proof.
  unfold mask_pre. apply Forall_forall. intros b Hb.
  apply in_map_iff in Hb. destruct Hb as [x [<- _]]. now destruct x.
Qed.

Lemma mask_post_nat (t : list (option Z)) :
  Forall (fun b => b = false) (mask_post t None).
Proof.
  unfold mask_post. apply Forall_forall. intros b Hb.
  apply in_map_iff in Hb. destruct Hb as [x [<- _]]. now destruct x.
Qed.

Lemma drift_row_no_rows (ks_2samp : list Q -> list Q -> result fnum)
    (round : R -> Q) (cfg : StabilityConfig) (pre post : DataFrame)
    (col : string) :
  s_values (get_column pre col) = [] ->
  s_values (get_column post col) = [] ->
  drift_row ks_2samp round cfg pre post col =
  {| feature := col; psi := NaN; ks_pvalue := None; flag := "ok";
     pre_n := 0; post_n := 0 |}.
Proof.
  intros Hpre Hpost. unfold drift_row, to_numpy_float, notna_sum.
  rewrite Hpre, Hpost. reflexivity.
Qed.

(** X9.  When the cutoff parses to "not a time", no row is on either side
    of it: every row of the report has an undefined PSI and KS p-value, the
    flag "ok" and zero observations on both sides. *)
Theorem numeric_drift_report_nat_cutoff
    (parse_datetime : cell -> option Z)
    (to_timestamp : string -> result (option Z))
    (ks_2samp : list Q -> list Q -> result fnum) (round : R -> Q)
    (df : DataFrame) (time_col split_time : string)
    (features : option (list string)) (cfg : option StabilityConfig)
    (out : list DriftRow) :
  to_timestamp split_time = Ok None ->
  numeric_drift_report parse_datetime to_timestamp ks_2samp round
    df time_col split_time features cfg = Ok (Table out) ->
  Forall (fun r => psi r = NaN /\ ks_pvalue r = None /\ flag r = "ok" /\
                   pre_n r = 0%Z /\ post_n r = 0%Z) out.
Proof.
  intros Hs. unfold numeric_drift_report.
  destruct (negb (has_column df time_col)); [discriminate|].
  rewrite Hs. cbv zeta.
  match goal with
  | |- context [map ?f ?l] => set (rows := map f l)
  end.
  assert (Hrows : Forall (fun r => psi r = NaN /\ ks_pvalue r = None /\
                                   flag r = "ok" /\ pre_n r = 0%Z /\
                                   post_n r = 0%Z) rows).
  { apply Forall_forall. intros r Hr. unfold rows in Hr.
    apply in_map_iff in Hr. destruct Hr as [col [<- _]].
    rewrite drift_row_no_rows; [repeat split| |];
      rewrite select_rows_column; apply bool_index_none;
      [apply mask_pre_nat|apply mask_post_nat]. }
  destruct rows as [|r rs] eqn:E; [discriminate|].
  intro H. injection H as <-.
  eapply Permutation_Forall; [apply (sort_values_perm (r :: rs))|exact Hrows].
Qed.

Lemma numeric_drift_report_nat_cutoff_witness :
  Forall (fun r => psi r = NaN /\ ks_pvalue r = None /\ flag r = "ok" /\
                   pre_n r = 0%Z /\ post_n r = 0%Z)
    [ {| feature := "store"; psi := NaN; ks_pvalue := None; flag := "ok";
         pre_n := 0; post_n := 0 |} ].
Proof.
  apply (@numeric_drift_report_nat_cutoff parse_nothing cutoff_nat ks_half
           round_to_zero df_stores "y" "NaT" None None).
  - reflexivity.
  - vm_compute. reflexivity.
Defined.

(** *** Observations on the two sides *)

Lemma partition_filter_length (A : Type) (p : A -> bool)
    (t : list (option Z)) (split : option Z) (l : list A) :
  (length (filter p (bool_index (mask_pre t split) l)) +
   length (filter p (bool_index (mask_post t split) l))
   <= length (filter p l))%nat.
Proof.
  unfold mask_pre, mask_post.
  revert l. induction t as [|x t IH]; intros [|v l]; simpl; try lia.
  specialize (IH l).
  destruct x as [ts|], split as [c|]; simpl in *;
    try (destruct (p v); simpl; lia).
  destruct (Z.ltb_spec ts c), (Z.leb_spec c ts); try lia;
    simpl; destruct (p v); simpl; lia.
Qed.

(** X10.  No observation is counted on both sides of the cutoff: in every
    row of a report the two counts add up to at most the number of
    non-missing values of the feature in the whole dataset. *)
Theorem numeric_drift_report_counts
    (parse_datetime : cell -> option Z)
    (to_timestamp : string -> result (option Z))
    (ks_2samp : list Q -> list Q -> result fnum) (round : R -> Q)
    (df : DataFrame) (time_col split_time : string)
    (features : option (list string)) (cfg : option StabilityConfig)
    (out : list DriftRow) :
  numeric_drift_report parse_datetime to_timestamp ks_2samp round
    df time_col split_time features cfg = Ok (Table out) ->
  Forall (fun r => (0 <= pre_n r)%Z /\ (0 <= post_n r)%Z /\
                   (pre_n r + post_n r
                    <= notna_sum (get_column df (feature r)))%Z) out.
Proof.
  unfold numeric_drift_report.
  destruct (negb (has_column df time_col)); [discriminate|].
  destruct (to_timestamp split_time) as [split|e]; [|discriminate].
  cbv zeta.
  match goal with
  | |- context [map ?f ?l] => set (rows := map f l)
  end.
  assert (Hrows : Forall (fun r => (0 <= pre_n r)%Z /\ (0 <= post_n r)%Z /\
                    (pre_n r + post_n r
                     <= notna_sum (get_column df (feature r)))%Z) rows).
  { apply Forall_forall. intros r Hr. unfold rows in Hr.
    apply in_map_iff in Hr. destruct Hr as [col [<- _]].
    unfold drift_row, notna_sum. cbn [pre_n post_n feature].
    rewrite !select_rows_column.
    pose proof (partition_filter_length notna
                  (map parse_datetime (s_values (get_column df time_col)))
                  split (s_values (get_column df col))).
    lia. }
  destruct rows as [|r rs] eqn:E; [discriminate|].
  intro H. injection H as <-.
  eapply Permutation_Forall; [apply (sort_values_perm (r :: rs))|exact Hrows].
Qed.

Lemma numeric_drift_report_counts_witness :
  Forall (fun r => (0 <= pre_n r)%Z /\ (0 <= post_n r)%Z /\
                   (pre_n r + post_n r
                    <= notna_sum (get_column df_drift (feature r)))%Z)
    report_of_df_drift.
Proof.
  apply (@numeric_drift_report_counts parse_epoch cutoff_epoch ks_half
           round_to_half df_drift "ts" "23" None None).
  vm_compute. reflexivity.
Defined.

(** There x and c have a value in all 44 rows and g in 39. *)
Example notna_sum_df_drift :
  map (fun r => (pre_n r, post_n r, notna_sum (get_column df_drift (feature r))))
      report_of_df_drift
  = [(22, 21, 44); (17, 21, 39); (22, 21, 44)]%Z.
Proof. vm_compute. reflexivity. Qed.

(** ** The segment report, further *)

Lemma target_rate_attached_iff_witness :
  exists tbl : SegTable,
    segment_stability repr_integral df_targets "seg" (Some "y") 15
      = Table tbl /\
    (target_rate tbl <> None <->
     exists c, Some "y" = Some c /\ c <> "" /\ In c (columns df_targets) /\
       forall v, In v (s_values (get_column df_targets c)) ->
         notna v = true ->
         In (Py.strip (Py.lower (str_cell repr_integral v)))
            ["1"; "0"; "yes"; "no"; "true"; "false"]).
Proof.
  apply (@target_rate_attached_iff repr_integral df_targets "seg"
           (Some "y") 15%Z).
  simpl. now left.
Defined.

(** There the missing target is left out and the padded one is read as
    "no": the rates are 1/3 for segment b and 1 for segment a. *)
Example segment_stability_df_targets :
  segment_stability repr_integral df_targets "seg" (Some "y") 15 =
  Table {| seg_rows := [ {| segment := "b"; count := 3; pct := 3 # 5 |};
                         {| segment := "a"; count := 2; pct := 2 # 5 |} ];
           target_rate := Some [Some (1 # 3)%Q; Some 1%Q] |}.
Proof. vm_compute. reflexivity. Qed.

Lemma sum_perm (l1 l2 : list (cell * Z)) :
  Permutation l1 l2 -> Np.sum (map snd l1) = Np.sum (map snd l2).
Proof.
  induction 1 as [|x l1 l2 H IH|x y l|l1 l2 l3 H1 IH1 H2 IH2];
    unfold Np.sum in *; simpl in *; lia.
Qed.

Lemma sum_nonneg (l : list (cell * Z)) :
  Forall (fun kc => (1 <= snd kc)%Z) l -> (0 <= Np.sum (map snd l))%Z.
Proof.
  induction 1 as [|x l Hx Hl IH]; [simpl; lia|].
  change (Np.sum (map snd (x :: l))) with (snd x + Np.sum (map snd l))%Z.
  lia.
Qed.

Lemma sum_app (l1 l2 : list (cell * Z)) :
  Np.sum (map snd (l1 ++ l2)) =
  (Np.sum (map snd l1) + Np.sum (map snd l2))%Z.
Proof.
  induction l1 as [|x l1 IH]; [simpl; lia|].
  change (Np.sum (map snd ((x :: l1) ++ l2)))
    with (snd x + Np.sum (map snd (l1 ++ l2)))%Z.
  change (Np.sum (map snd (x :: l1))) with (snd x + Np.sum (map snd l1))%Z.
  lia.
Qed.

Lemma sum_member (l : list (cell * Z)) (kc : cell * Z) :
  Forall (fun kc => (1 <= snd kc)%Z) l -> In kc l ->
  (snd kc <= Np.sum (map snd l))%Z.
Proof.
  induction 1 as [|x l Hx Hl IH]; intro Hin; [destruct Hin|].
  change (Np.sum (map snd (x :: l))) with (snd x + Np.sum (map snd l))%Z.
  pose proof (sum_nonneg Hl). destruct Hin as [<-|Hin]; [lia|].
  specialize (IH Hin). lia.
Qed.

Lemma value_counts_total (l : list cell) :
  Np.sum (map snd (value_counts l)) = Z.of_nat (length (filter notna l)).
Proof.
  rewrite <- (sum_perm (value_counts_perm l)). apply tally_sum.
Qed.

Lemma strongly_sorted_firstn (A : Type) (R : A -> A -> Prop) (n : nat)
    (l : list A) :
  StronglySorted R l -> StronglySorted R (firstn n l).
Proof.
  intro H. revert n. induction H as [|x l Hl IH Hx]; intros [|n]; simpl;
    try constructor.
  - apply IH.
  - rewrite Forall_forall in *. intros y Hy. apply Hx.
    rewrite <- (firstn_skipn n l). apply in_or_app. now left.
Qed.

Lemma strongly_sorted_map (A B : Type) (R : A -> A -> Prop)
    (S : B -> B -> Prop) (f : A -> B) (l : list A) :
  (forall x y, R x y -> S (f x) (f y)) ->
  StronglySorted R l -> StronglySorted S (map f l).
Proof.
  intros Hf. induction 1 as [|x l Hl IH Hx]; simpl; constructor.
  - exact IH.
  - rewrite Forall_forall in *. intros y Hy. apply in_map_iff in Hy.
    destruct Hy as [z [<- Hz]]. apply Hf. now apply Hx.
Qed.

Lemma segment_stability_table (float_repr : Q -> string) (df : DataFrame)
    (segment_col : string) (target_col : option string) (top_k : Z)
    (tbl : SegTable) :
  segment_stability float_repr df segment_col target_col top_k = Table tbl ->
  has_column df segment_col = true /\
  seg_rows tbl =
    segment_rows float_repr
      (head top_k (value_counts (s_values (get_column df segment_col)))).
Proof.
  intro H.
  assert (Hcol : has_column df segment_col = true).
  { unfold segment_stability in H.
    destruct (has_column df segment_col); [reflexivity|discriminate]. }
  split; [exact Hcol|].
  destruct (@segment_stability_rows float_repr df segment_col target_col
              top_k Hcol) as [tr Htbl].
  rewrite Htbl in H. injection H as <-. reflexivity.
Qed.

(** X12.  The rows of a segment report come most frequent first; every
    reported count is at least 1 and every share lies in (0, 1]. *)
Theorem segment_rows_shape (float_repr : Q -> string) (df : DataFrame)
    (segment_col : string) (target_col : option string) (top_k : Z)
    (tbl : SegTable) :
  segment_stability float_repr df segment_col target_col top_k = Table tbl ->
  StronglySorted (fun r1 r2 => (count r2 <= count r1)%Z) (seg_rows tbl) /\
  Forall (fun r => (1 <= count r)%Z /\ (0 < pct r)%Q /\ (pct r <= 1)%Q)
         (seg_rows tbl).
Proof.
  intro H. apply segment_stability_table in H. destruct H as [_ ->].
  set (vc := value_counts (s_values (get_column df segment_col))).
  destruct (head_prefix top_k vc) as [m ->].
  assert (Hpos : Forall (fun kc => (1 <= snd kc)%Z) (firstn m vc)).
  { apply Forall_forall. intros x Hx.
    pose proof (value_counts_positive (s_values (get_column df segment_col)))
      as P.
    rewrite Forall_forall in P. apply P. fold vc.
    rewrite <- (firstn_skipn m vc). apply in_or_app. now left. }
  split.
  - unfold segment_rows.
    apply strongly_sorted_map with (R := count_ge); [intros x y Hxy; exact Hxy|].
    apply strongly_sorted_firstn, value_counts_sorted.
  - apply Forall_forall. intros r Hr. unfold segment_rows in Hr.
    apply in_map_iff in Hr. destruct Hr as [kc [<- Hkc]]. cbn [count pct].
    pose proof (@sum_member _ _ Hpos Hkc) as Hle.
    rewrite Forall_forall in Hpos. pose proof (Hpos kc Hkc) as H1.
    rewrite Z.max_l by lia.
    set (total := Np.sum (map snd (firstn m vc))) in *.
    assert (Ht : (0 < inject_Z total)%Q) by (rewrite <- (Zlt_Qlt 0); lia).
    split; [exact H1|]. split.
    + apply Qlt_shift_div_l; [exact Ht|]. rewrite Qmult_0_l.
      rewrite <- (Zlt_Qlt 0). lia.
    + apply Qle_shift_div_r; [exact Ht|]. rewrite Qmult_1_l.
      now rewrite <- Zle_Qle.
Qed.

Lemma segment_rows_shape_witness :
  StronglySorted (fun r1 r2 => (count r2 <= count r1)%Z)
    [ {| segment := "A"; count := 3; pct := 3 # 5 |};
      {| segment := "B"; count := 2; pct := 2 # 5 |} ] /\
  Forall (fun r => (1 <= count r)%Z /\ (0 < pct r)%Q /\ (pct r <= 1)%Q)
    [ {| segment := "A"; count := 3; pct := 3 # 5 |};
      {| segment := "B"; count := 2; pct := 2 # 5 |} ].
Proof.
  apply (@segment_rows_shape repr_integral df_segments "seg" (Some "y") 2%Z
           {| seg_rows := [ {| segment := "A"; count := 3; pct := 3 # 5 |};
                            {| segment := "B"; count := 2; pct := 2 # 5 |} ];
              target_rate := Some [Some (2 # 3)%Q; Some (1 # 2)%Q] |}).
  vm_compute. reflexivity.
Defined.

(** X13.  The reported counts never exceed the number of rows that have a
    segment, and add up to exactly that number when [top_k] is at least the
    number of distinct segment values. *)
Theorem segment_counts_total (float_repr : Q -> string) (df : DataFrame)
    (segment_col : string) (target_col : option string) (top_k : Z)
    (tbl : SegTable) :
  segment_stability float_repr df segment_col target_col top_k = Table tbl ->
  let seg := s_values (get_column df segment_col) in
  (sum_count (seg_rows tbl) <= Z.of_nat (length (filter notna seg)))%Z /\
  ((Z.of_nat (length (value_counts seg)) <= top_k)%Z ->
   sum_count (seg_rows tbl) = Z.of_nat (length (filter notna seg))).
Proof.
  intros H seg. apply segment_stability_table in H. destruct H as [_ ->].
  fold seg. rewrite segment_rows_sum_count.
  set (vc := value_counts seg).
  pose proof (value_counts_total seg) as T. fold vc in T.
  pose proof (value_counts_positive seg) as P. fold vc in P.
  split.
  - destruct (head_prefix top_k vc) as [m ->].
    rewrite <- T.
    pose proof (sum_app (firstn m vc) (skipn m vc)) as A.
    rewrite firstn_skipn in A.
    assert (P2 : Forall (fun kc => (1 <= snd kc)%Z) (skipn m vc)).
    { apply Forall_forall. intros x Hx. rewrite Forall_forall in P.
      apply P. rewrite <- (firstn_skipn m vc). apply in_or_app. now right. }
    pose proof (sum_nonneg P2). lia.
  - intro Hk. rewrite head_firstn by lia.
    rewrite firstn_all2 by lia. exact T.
Qed.

Lemma segment_counts_total_witness :
  (sum_count
     [ {| segment := "A"; count := 3; pct := 3 # 5 |};
       {| segment := "B"; count := 2; pct := 2 # 5 |} ]
   <= Z.of_nat (length (filter notna
                          (s_values (get_column df_segments "seg")))))%Z /\
  ((Z.of_nat (length (value_counts
                        (s_values (get_column df_segments "seg")))) <= 2)%Z ->
   sum_count
     [ {| segment := "A"; count := 3; pct := 3 # 5 |};
       {| segment := "B"; count := 2; pct := 2 # 5 |} ]
   = Z.of_nat (length (filter notna
                         (s_values (get_column df_segments "seg"))))).
Proof.
  apply (@segment_counts_total repr_integral df_segments "seg" (Some "y") 2%Z
           {| seg_rows := [ {| segment := "A"; count := 3; pct := 3 # 5 |};
                            {| segment := "B"; count := 2; pct := 2 # 5 |} ];
              target_rate := Some [Some (2 # 3)%Q; Some (1 # 2)%Q] |}).
  vm_compute. reflexivity.
Defined.

(** *** The target rate of a label *)

Lemma find_group_add (k x : cell) (v : Q) (acc : list (cell * (Q * Z))) :
  find_group (add_to_group k v acc) x =
  group_step x (find_group acc x) (k, v).
Proof.
  unfold group_step. cbn [fst snd].
  induction acc as [|[k' [s n]] t IH]; simpl.
  - destruct (Py.cell_eqb k x); reflexivity.
  - destruct (Py.cell_eqb k' k) eqn:Ekk; simpl.
    + rewrite <- (cell_eqb_diff _ _ x Ekk).
      destruct (Py.cell_eqb k' x); reflexivity.
    + destruct (Py.cell_eqb k' x) eqn:Ekx; [|exact IH].
      destruct (Py.cell_eqb k x) eqn:Ex; [|reflexivity].
      rewrite (cell_eqb_sym k x) in Ex.
      rewrite (cell_eqb_trans _ _ _ Ekx Ex) in Ekk. discriminate.
Qed.

Lemma find_group_fold (tmp : list (cell * Q)) (acc : list (cell * (Q * Z)))
    (x : cell) :
  find_group
    (fold_left (fun acc r => add_to_group (fst r) (snd r) acc) tmp acc) x =
  fold_left (group_step x) tmp (find_group acc x).
Proof.
  revert acc. induction tmp as [|[k v] tmp IH]; intro acc; [reflexivity|].
  simpl. rewrite IH, find_group_add. reflexivity.
Qed.

Lemma group_step_some (x : cell) (tmp : list (cell * Q)) (s0 : Q) (n0 : Z) :
  exists s : Q,
    fold_left (group_step x) tmp (Some (s0, n0)) =
      Some (s, (n0 + Z.of_nat
                  (length (filter (fun r => Py.cell_eqb (fst r) x) tmp)))%Z) /\
    (s == s0 + fold_right Qplus 0
                 (map snd (filter (fun r => Py.cell_eqb (fst r) x) tmp)))%Q.
Proof.
  revert s0 n0. induction tmp as [|r tmp IH]; intros s0 n0.
  - exists s0. simpl. split; [f_equal; f_equal; lia|ring].
  - simpl. unfold group_step at 2.
    destruct (Py.cell_eqb (fst r) x).
    + destruct (IH (s0 + snd r)%Q (n0 + 1)%Z) as [s [H1 H2]].
      exists s. split.
      * rewrite H1. f_equal. f_equal. simpl length. lia.
      * rewrite H2. simpl. ring.
    + apply IH.
Qed.

Lemma group_step_none (x : cell) (tmp : list (cell * Q)) :
  match filter (fun r => Py.cell_eqb (fst r) x) tmp with
  | [] => fold_left (group_step x) tmp None = None
  | rs =>
      exists s : Q,
        fold_left (group_step x) tmp None
          = Some (s, Z.of_nat (length rs)) /\
        (s == fold_right Qplus 0 (map snd rs))%Q
  end.
Proof.
  induction tmp as [|r tmp IH]; [reflexivity|].
  simpl. unfold group_step at 2 4.
  destruct (Py.cell_eqb (fst r) x).
  - destruct (group_step_some x tmp (snd r) 1) as [s [H1 H2]].
    exists s. split.
    + rewrite H1. f_equal. f_equal. simpl length. lia.
    + rewrite H2. simpl. ring.
  - exact IH.
Qed.

Lemma map_rate_find (groups : list (cell * (Q * Z))) (label : string) :
  map_rate
    (map (fun g => (fst g, (fst (snd g) / inject_Z (snd (snd g)))%Q)) groups)
    label =
  match find_group groups (CStr label) with
  | Some (s, n) => Some (s / inject_Z n)%Q
  | None => None
  end.
Proof.
  induction groups as [|[k [s n]] t IH]; [reflexivity|].
  simpl. destruct (Py.cell_eqb k (CStr label)); [reflexivity|exact IH].
Qed.

Lemma cell_eqb_str (k : cell) (s : string) :
  Py.cell_eqb k (CStr s) =
  match k with CStr k' => String.eqb k' s | _ => false end.
Proof. destruct k; reflexivity. Qed.

Lemma dict_get_mapping (v : string) (b : Z) :
  dict_get mapping v = Some b -> b = 0%Z \/ b = 1%Z.
Proof.
  unfold mapping. simpl.
  repeat match goal with
         | |- context [String.eqb v ?k] => destruct (String.eqb v k)
         end; intro H; inversion H; auto.
Qed.

Lemma zip_dropna_binary (seg : list cell) (y2 : list (option string)) :
  Forall (fun r => snd r = inject_Z 0 \/ snd r = inject_Z 1)
         (zip_dropna seg (binarise y2)).
Proof.
  revert y2. induction seg as [|s seg IH]; intros [|o y2]; try constructor.
  destruct o as [v|].
  - change (binarise (Some v :: y2))
      with (match dict_get mapping v with
            | Some b => Some (inject_Z b)
            | None => None
            end :: binarise y2).
    pose proof (@dict_get_mapping v) as D. revert D.
    generalize (dict_get mapping v) as o. intros [b|] D.
    + destruct (D b eq_refl) as [-> | ->];
        destruct s; cbn [zip_dropna]; try apply IH;
          (constructor; [cbn [snd]; auto|apply IH]).
    + destruct s; cbn [zip_dropna]; apply IH.
  - change (binarise (None :: y2)) with (@None Q :: binarise y2).
    destruct s; cbn [zip_dropna]; apply IH.
Qed.

Lemma binary_mean_unit (ys : list Q) :
  ys <> [] ->
  Forall (fun y => y = inject_Z 0 \/ y = inject_Z 1) ys ->
  (0 <= mean ys)%Q /\ (mean ys <= 1)%Q.
Proof.
  intros Hne H. unfold mean.
  assert (B : (0 <= fold_right Qplus 0 ys)%Q /\
              (fold_right Qplus 0 ys <= inject_Z (Z.of_nat (length ys)))%Q).
  { clear Hne. induction H as [|y ys Hy Hys IH]; [split; apply Qle_refl|].
    destruct IH as [I1 I2]. simpl fold_right.
    replace (Z.of_nat (length (y :: ys)))
      with (1 + Z.of_nat (length ys))%Z by (simpl length; lia).
    rewrite inject_Z_plus.
    assert (Z0 : (0 <= 0 + 0)%Q) by discriminate.
    destruct Hy as [-> | ->]; split.
    - eapply Qle_trans; [exact Z0|].
      apply Qplus_le_compat; [discriminate|exact I1].
    - apply Qplus_le_compat; [discriminate|exact I2].
    - eapply Qle_trans; [exact Z0|].
      apply Qplus_le_compat; [discriminate|exact I1].
    - apply Qplus_le_compat; [apply Qle_refl|exact I2]. }
  assert (L : (0 < inject_Z (Z.of_nat (length ys)))%Q).
  { rewrite <- (Zlt_Qlt 0). destruct ys; [congruence|]. simpl length. lia. }
  destruct B as [B1 B2]. split.
  - apply Qle_shift_div_l; [exact L|]. now rewrite Qmult_0_l.
  - apply Qle_shift_div_r; [exact L|]. now rewrite Qmult_1_l.
Qed.

Lemma Forall2_map_r (A B : Type) (P : A -> B -> Prop) (f : A -> B)
    (l : list A) :
  (forall x, In x l -> P x (f x)) -> Forall2 P l (map f l).
Proof.
  induction l as [|x l IH]; intro H; simpl; constructor.
  - apply H. now left.
  - apply IH. intros y Hy. apply H. now right.
Qed.

(** What line 145 attaches for a label: nothing when no row has that string
    as its segment, else the mean of the binarised target over those rows. *)
Lemma map_rate_label (tmp : list (cell * Q)) (label : string) :
  Forall (fun r => snd r = inject_Z 0 \/ snd r = inject_Z 1) tmp ->
  match label_targets tmp label with
  | [] => map_rate (group_mean tmp) label = None
  | ys =>
      exists m : Q,
        map_rate (group_mean tmp) label = Some m /\
        (m == mean ys)%Q /\ (0 <= m)%Q /\ (m <= 1)%Q
  end.
Proof.
  intro Hbin. unfold group_mean. rewrite map_rate_find, find_group_fold.
  simpl find_group.
  pose proof (group_step_none (CStr label) tmp) as G.
  assert (F : filter (fun r => Py.cell_eqb (fst r) (CStr label)) tmp =
              filter (fun r => match fst r with
                               | CStr k => String.eqb k label
                               | _ => false
                               end) tmp).
  { apply filter_ext. intro r. apply cell_eqb_str. }
  rewrite F in G. unfold label_targets.
  set (rs := filter _ tmp) in *.
  assert (Hrs : Forall (fun y => y = inject_Z 0 \/ y = inject_Z 1)
                       (map snd rs)).
  { apply Forall_forall. intros y Hy. apply in_map_iff in Hy.
    destruct Hy as [r [<- Hr]]. rewrite Forall_forall in Hbin.
    apply Hbin. unfold rs in Hr. now apply filter_In in Hr. }
  destruct rs as [|r rs']; [now rewrite G|].
  destruct G as [s [G1 G2]]. rewrite G1.
  change (map snd (r :: rs')) with (snd r :: map snd rs') in *.
  assert (M : (s / inject_Z (Z.of_nat (length (r :: rs')))
               == mean (snd r :: map snd rs'))%Q).
  { unfold mean. rewrite G2.
    change (length (snd r :: map snd rs')) with (S (length (map snd rs'))).
    rewrite length_map. reflexivity. }
  destruct (@binary_mean_unit (snd r :: map snd rs')) as [M1 M2];
    [discriminate|exact Hrs|].
  eexists. split; [reflexivity|]. split; [exact M|].
  rewrite M. now split.
Qed.

(** X14.  When the target-rate column is attached, the rate of each
    reported row is undefined if no row of the data has the row's label as
    its segment value, a string, and is otherwise the mean of the binarised
    target over the rows with that segment, a number in [0, 1]. *)
Theorem target_rate_values (float_repr : Q -> string) (df : DataFrame)
    (segment_col c : string) (top_k : Z) (tbl : SegTable)
    (rates : list fnum) :
  segment_stability float_repr df segment_col (Some c) top_k = Table tbl ->
  target_rate tbl = Some rates ->
  let tmp :=
    zip_dropna (s_values (get_column df segment_col))
      (binarise (normalise_target float_repr (s_values (get_column df c)))) in
  Forall2 (fun r rate =>
             match label_targets tmp (segment r) with
             | [] => rate = None
             | ys => exists m : Q, rate = Some m /\ (m == mean ys)%Q /\
                                   (0 <= m)%Q /\ (m <= 1)%Q
             end) (seg_rows tbl) rates.
Proof.
  intros H Hr tmp. unfold segment_stability in H.
  destruct (has_column df segment_col); [|discriminate]. simpl negb in H.
  cbv iota zeta in H.
  destruct c as [|c0 c]; [injection H as <-; discriminate|].
  destruct (has_column df (String c0 c));
    [|injection H as <-; discriminate].
  destruct (binary_like _); [|injection H as <-; discriminate].
  injection H as <-. simpl in Hr. injection Hr as <-. cbn [seg_rows].
  apply Forall2_map_r. intros r _.
  apply (@map_rate_label tmp (segment r)). apply zip_dropna_binary.
Qed.

Lemma target_rate_values_witness :
  Forall2 (fun r rate =>
             match label_targets
                     (zip_dropna (s_values (get_column df_segments "seg"))
                        (binarise
                           (normalise_target repr_integral
                              (s_values (get_column df_segments "y")))))
                     (segment r) with
             | [] => rate = None
             | ys => exists m : Q, rate = Some m /\ (m == mean ys)%Q /\
                                   (0 <= m)%Q /\ (m <= 1)%Q
             end)
    [ {| segment := "A"; count := 3; pct := 3 # 5 |};
      {| segment := "B"; count := 2; pct := 2 # 5 |} ]
    [Some (2 # 3)%Q; Some (1 # 2)%Q].
Proof.
  apply (@target_rate_values repr_integral df_segments "seg" "y" 2%Z
           {| seg_rows := [ {| segment := "A"; count := 3; pct := 3 # 5 |};
                            {| segment := "B"; count := 2; pct := 2 # 5 |} ];
              target_rate := Some [Some (2 # 3)%Q; Some (1 # 2)%Q] |}).
  - vm_compute. reflexivity.
  - reflexivity.
Defined.

(** * Profiling *)

(** ** Sorting *)

Lemma insert_by_perm (A : Type) (leb : A -> A -> bool) (x : A) (l : list A) :
  Permutation (x :: l) (insert_by leb x l).
Proof.
  induction l as [|y l IH]; simpl; [reflexivity|].
  destruct (leb x y); [reflexivity|].
  rewrite perm_swap. now constructor.
Qed.

Lemma sort_by_perm (A : Type) (leb : A -> A -> bool) (l : list A) :
  Permutation l (sort_by leb l).
Proof.
  induction l as [|x l IH]; simpl; [constructor|].
  rewrite <- insert_by_perm. now constructor.
Qed.

Lemma insert_by_sorted (A : Type) (leb : A -> A -> bool) (x : A)
    (l : list A) :
  (forall a b, leb a b = false -> leb b a = true) ->
  Sorted (fun a b => leb a b = true) l ->
  Sorted (fun a b => leb a b = true) (insert_by leb x l).
Proof.
  intros Htot. induction 1 as [|y l Hl IH Hd]; simpl.
  - repeat constructor.
  - destruct (leb x y) eqn:E.
    + constructor; [now constructor|]. now constructor.
    + constructor; [exact IH|].
      destruct l as [|z l]; simpl; [constructor; now apply Htot|].
      destruct (leb x z); constructor; [now apply Htot|now inversion Hd].
Qed.

Lemma sort_by_sorted (A : Type) (leb : A -> A -> bool) (l : list A) :
  (forall a b, leb a b = false -> leb b a = true) ->
  (forall a b c, leb a b = true -> leb b c = true -> leb a c = true) ->
  StronglySorted (fun a b => leb a b = true) (sort_by leb l).
Proof.
  intros Htot Htrans. apply Sorted_StronglySorted.
  - intros a b c. apply Htrans.
  - induction l as [|x l IH]; simpl; [constructor|].
    now apply insert_by_sorted.
Qed.

Lemma strongly_sorted_imp (A : Type) (R S : A -> A -> Prop) (l : list A) :
  (forall x y, R x y -> S x y) -> StronglySorted R l -> StronglySorted S l.
Proof.
  intro H. induction 1 as [|x l Hl IH Hx]; constructor; [exact IH|].
  rewrite Forall_forall in *. intros y Hy. now apply H, Hx.
Qed.

(** ** missingness_report *)

Lemma isna_notna_length (l : list cell) :
  (length (filter isna l) + length (filter notna l) = length l)%nat.
Proof.
  induction l as [|c l IH]; [reflexivity|].
  unfold isna in *. destruct c; simpl; lia.
Qed.

Lemma ratio_or_zero_unit (miss : Z) (total : nat) :
  (0 <= miss <= Z.of_nat total)%Z ->
  (0 <= ratio_or_zero miss total)%Q /\ (ratio_or_zero miss total <= 1)%Q /\
  (ratio_or_zero miss total * inject_Z (Z.of_nat total) == inject_Z miss)%Q.
Proof.
  intros [H0 H1]. unfold ratio_or_zero.
  destruct (Nat.eqb_spec total 0) as [E|E].
  - subst. simpl in H1. assert (miss = 0%Z) by lia. subst.
    split; [discriminate|split; [discriminate|reflexivity]].
  - assert (T : (0 < inject_Z (Z.of_nat total))%Q)
      by (rewrite <- (Zlt_Qlt 0); lia).
    split; [|split].
    + apply Qle_shift_div_l; [exact T|]. rewrite Qmult_0_l.
      now rewrite <- (Zle_Qle 0).
    + apply Qle_shift_div_r; [exact T|]. rewrite Qmult_1_l.
      now rewrite <- Zle_Qle.
    + unfold Qdiv. rewrite <- Qmult_assoc, (Qmult_comm (/ _)), Qmult_inv_r.
      * apply Qmult_1_r.
      * intro Z0. rewrite Z0 in T. discriminate.
Qed.

(** X15.  The missingness report has one row per column of the frame,
    listed by missing share, largest first; for a frame whose columns all
    have the frame's number of rows, each row's count is the number of
    missing cells of its column, the count and the non-missing cells add up
    to the number of rows, and the share lies in [0, 1] and is the count
    over the number of rows (0 for a frame without rows). *)
Theorem missingness_report_spec (df : DataFrame) :
  well_formed df ->
  StronglySorted (fun r1 r2 => (missing_pct r2 <= missing_pct r1)%Q)
                 (missingness_report df) /\
  Permutation (columns df) (map m_column (missingness_report df)) /\
  Forall (fun r =>
            exists s : Series,
              In (m_column r, s) df /\
              missing_count r = isna_sum s /\
              (missing_count r + notna_sum s = Z.of_nat (nrows df))%Z /\
              (0 <= missing_pct r)%Q /\ (missing_pct r <= 1)%Q /\
              (missing_pct r * inject_Z (Z.of_nat (nrows df))
               == inject_Z (missing_count r))%Q)
         (missingness_report df).
Proof.
  intro Hwf. unfold missingness_report. cbv zeta.
  set (leb := fun r1 r2 : MissRow =>
                Qle_bool (missing_pct r2) (missing_pct r1)).
  set (rows := map _ df).
  split; [|split].
  - apply strongly_sorted_imp
      with (R := fun a b => leb a b = true).
    + intros x y H. now apply Qle_bool_iff.
    + apply sort_by_sorted.
      * intros a b H. unfold leb in *.
        destruct (Qle_bool_cases (missing_pct b) (missing_pct a))
          as [[_ E]|[L _]]; [congruence|].
        apply Qle_bool_iff. now apply Qlt_le_weak.
      * intros a b c. unfold leb. rewrite !Qle_bool_iff.
        intros H1 H2. eapply Qle_trans; eassumption.
  - eapply Permutation_trans; [|apply Permutation_map, sort_by_perm].
    unfold rows, columns. rewrite map_map. reflexivity.
  - eapply Permutation_Forall; [apply sort_by_perm|].
    apply Forall_forall. intros r Hr. unfold rows in Hr.
    apply in_map_iff in Hr. destruct Hr as [[n s] [<- Hin]].
    cbn [m_column missing_count missing_pct fst snd].
    exists s. split; [exact Hin|]. split; [reflexivity|].
    unfold well_formed in Hwf. rewrite Forall_forall in Hwf.
    pose proof (Hwf (n, s) Hin) as L. cbn [snd] in L.
    pose proof (isna_notna_length (s_values s)) as P.
    unfold isna_sum, notna_sum.
    split; [lia|].
    apply ratio_or_zero_unit. lia.
Qed.

Lemma well_formed_df_profile : well_formed df_profile.
Proof. repeat constructor. Defined.

Lemma missingness_report_spec_witness :
  StronglySorted (fun r1 r2 => (missing_pct r2 <= missing_pct r1)%Q)
                 (missingness_report df_profile) /\
  Permutation (columns df_profile)
              (map m_column (missingness_report df_profile)) /\
  Forall (fun r =>
            exists s : Series,
              In (m_column r, s) df_profile /\
              missing_count r = isna_sum s /\
              (missing_count r + notna_sum s
               = Z.of_nat (nrows df_profile))%Z /\
              (0 <= missing_pct r)%Q /\ (missing_pct r <= 1)%Q /\
              (missing_pct r * inject_Z (Z.of_nat (nrows df_profile))
               == inject_Z (missing_count r))%Q)
         (missingness_report df_profile).
Proof.
  exact (@missingness_report_spec df_profile well_formed_df_profile).
Defined.

(** ** duplicates_report *)

Lemma duplicated_from_length (seen rows : list (list cell)) :
  length (duplicated_from seen rows) = length rows.
Proof.
  revert seen. induction rows as [|r t IH]; intro seen; [reflexivity|].
  simpl. now rewrite IH.
Qed.

Lemma count_true_le (l : list bool) : (0 <= count_true l <= Z.of_nat (length l))%Z.
Proof.
  unfold count_true. pose proof (filter_length_le (fun b => b) l). lia.
Qed.

(** The first row is never a duplicate. *)
Lemma duplicated_bound (rows : list (list cell)) :
  (0 <= count_true (duplicated rows)
   <= Z.max (Z.of_nat (length rows) - 1) 0)%Z.
Proof.
  unfold duplicated. destruct rows as [|r t]; [cbv; split; discriminate|].
  cbn [duplicated_from existsb app].
  pose proof (count_true_le (duplicated_from [r] t)) as B.
  rewrite duplicated_from_length in B.
  unfold count_true in *.
  change (filter (fun b => b) (false :: duplicated_from [r] t))
    with (filter (fun b => b) (duplicated_from [r] t)).
  change (length (r :: t)) with (S (length t)). lia.
Qed.

Lemma existsb_map_imp (I : Type) (p q : I -> bool) (l : list I) :
  (forall i, p i = true -> q i = true) ->
  existsb p l = true -> existsb q l = true.
Proof.
  intros H E. apply existsb_exists in E. destruct E as [i [Hi Hp]].
  apply existsb_exists. exists i. split; [exact Hi|now apply H].
Qed.

Lemma existsb_over_map (I B : Type) (p : B -> bool) (f : I -> B)
    (l : list I) :
  existsb p (map f l) = existsb (fun x => p (f x)) l.
Proof.
  induction l as [|x l IH]; [reflexivity|]. simpl. now rewrite IH.
Qed.

(** Comparing rows on fewer cells can only find more duplicates. *)
Lemma duplicated_from_mono (I : Type) (f g : I -> list cell)
    (seen idx : list I) :
  (forall i j, row_eqb (f i) (f j) = true -> row_eqb (g i) (g j) = true) ->
  (count_true (duplicated_from (map f seen) (map f idx))
   <= count_true (duplicated_from (map g seen) (map g idx)))%Z.
Proof.
  intro H. revert seen. induction idx as [|i idx IH]; intro seen.
  - simpl. lia.
  - simpl map. cbn [duplicated_from].
    specialize (IH (seen ++ [i])). rewrite !map_app in IH. simpl map in IH.
    rewrite !existsb_over_map.
    unfold count_true in *.
    destruct (existsb (fun x => row_eqb (f i) (f x)) seen) eqn:E.
    + rewrite (existsb_map_imp _ (fun x => row_eqb (g i) (g x)) seen
                 (fun j => H i j) E).
      cbn [filter]. simpl length. lia.
    + destruct (existsb (fun x => row_eqb (g i) (g x)) seen);
        cbn [filter]; simpl length; lia.
Qed.

Lemma row_eqb_cells (cols : list Series) (i j : nat) :
  row_eqb (map (fun s => nth i (s_values s) CNull) cols)
          (map (fun s => nth j (s_values s) CNull) cols) =
  forallb (fun s => dup_cell_eqb (nth i (s_values s) CNull)
                                 (nth j (s_values s) CNull)) cols.
Proof.
  induction cols as [|s cols IH]; [reflexivity|]. simpl. now rewrite IH.
Qed.

Lemma get_column_In (df : DataFrame) (c : string) :
  has_column df c = true -> In (get_column df c) (map snd df).
Proof.
  unfold has_column, columns.
  induction df as [|[n s] df IH]; simpl; [discriminate|].
  destruct (String.eqb c n); simpl; [now left|].
  intro H. right. now apply IH.
Qed.

Lemma duplicated_subset (df : DataFrame) (sub : list string) :
  (forall c, In c sub -> has_column df c = true) ->
  (count_true (duplicated (rows_of df (map snd df)))
   <= count_true (duplicated (rows_of df (map (get_column df) sub))))%Z.
Proof.
  intro H. unfold duplicated, rows_of.
  apply (duplicated_from_mono _ _ [] (seq 0 (nrows df))).
  intros i j. rewrite !row_eqb_cells, !forallb_forall.
  intros Hall s Hs. apply Hall.
  apply in_map_iff in Hs. destruct Hs as [c [<- Hc]].
  now apply get_column_In, H.
Qed.

Lemma rows_of_length (df : DataFrame) (cols : list Series) :
  length (rows_of df cols) = nrows df.
Proof. unfold rows_of. now rewrite length_map, length_seq. Qed.

(** X16.  The duplicate count over all columns is at most the number of
    rows less one.  Without a subset, or with an empty one, nothing more is
    reported.  With a subset of which some column is missing, exactly the
    missing columns are reported, in the order given, and no subset count.
    With a subset of existing columns the subset count is reported; it is
    at least the count over all columns and at most the number of rows less
    one. *)
Theorem duplicates_report_spec (df : DataFrame)
    (subset : option (list string)) :
  let rep := duplicates_report df subset in
  let most := Z.max (Z.of_nat (nrows df) - 1) 0 in
  (0 <= duplicate_rows_all_columns rep <= most)%Z /\
  match subset with
  | Some ((_ :: _) as sub) =>
      let missing_cols := filter (fun c => negb (has_column df c)) sub in
      (missing_cols <> [] ->
         subset_error rep = Some missing_cols /\
         duplicate_rows_subset rep = None /\ subset_used rep = None) /\
      (missing_cols = [] ->
         subset_error rep = None /\ subset_used rep = Some sub /\
         exists n : Z,
           duplicate_rows_subset rep = Some n /\
           (duplicate_rows_all_columns rep <= n <= most)%Z)
  | _ =>
      subset_error rep = None /\ duplicate_rows_subset rep = None /\
      subset_used rep = None
  end.
Proof.
  cbv zeta.
  assert (B : forall cols,
             (0 <= count_true (duplicated (rows_of df cols))
              <= Z.max (Z.of_nat (nrows df) - 1) 0)%Z).
  { intro cols. pose proof (duplicated_bound (rows_of df cols)) as H.
    now rewrite rows_of_length in H. }
  split.
  { unfold duplicates_report.
    destruct subset as [[|c sub]|]; cbn [duplicate_rows_all_columns];
      try apply B.
    destruct (filter _ (c :: sub)); cbn [duplicate_rows_all_columns]; apply B. }
  destruct subset as [[|c sub]|]; try (repeat split; reflexivity).
  unfold duplicates_report.
  destruct (filter (fun c0 => negb (has_column df c0)) (c :: sub))
    as [|m ms] eqn:E.
  - split; [congruence|]. intros _.
    cbn [subset_error subset_used duplicate_rows_subset
         duplicate_rows_all_columns].
    repeat split. eexists. split; [reflexivity|]. split; [|apply B].
    apply duplicated_subset. intros c0 Hc0.
    destruct (has_column df c0) eqn:Hc; [reflexivity|].
    assert (In c0 (filter (fun c1 => negb (has_column df c1)) (c :: sub))).
    { apply filter_In. split; [exact Hc0|]. now rewrite Hc. }
    rewrite E in H. destruct H.
  - split; [|discriminate]. intros _. repeat split.
Qed.

Example duplicates_report_df_profile :
  duplicates_report df_profile (Some ["const"; "id"]) =
  {| duplicate_rows_all_columns := 1;
     subset_error := None;
     duplicate_rows_subset := Some 1%Z;
     subset_used := Some ["const"; "id"] |} /\
  duplicates_report df_profile (Some ["const"; "zz"; "id"; "yy"]) =
  {| duplicate_rows_all_columns := 1;
     subset_error := Some ["zz"; "yy"];
     duplicate_rows_subset := None;
     subset_used := None |}.
Proof. split; vm_compute; reflexivity. Qed.

(** ** type_summary *)

Lemma length_le_sum (l : list (cell * Z)) :
  Forall (fun kc => (1 <= snd kc)%Z) l ->
  (Z.of_nat (length l) <= Np.sum (map snd l))%Z.
Proof.
  induction 1 as [|x l Hx Hl IH]; [simpl; lia|].
  change (Np.sum (map snd (x :: l))) with (snd x + Np.sum (map snd l))%Z.
  simpl length. lia.
Qed.

Lemma sum_le_top (top : Z) (l : list (cell * Z)) :
  Forall (fun kc => (snd kc <= top)%Z) l ->
  (Np.sum (map snd l) <= Z.of_nat (length l) * top)%Z.
Proof.
  induction 1 as [|x l Hx Hl IH]; [simpl; lia|].
  change (Np.sum (map snd (x :: l))) with (snd x + Np.sum (map snd l))%Z.
  simpl length. lia.
Qed.

Lemma nunique_bounds (s : Series) :
  (0 <= _safe_nunique s <= notna_sum s)%Z /\
  (_safe_nunique s = 0%Z <-> notna_sum s = 0%Z).
Proof.
  unfold _safe_nunique, notna_sum.
  pose proof (tally_sum (s_values s)) as T.
  pose proof (length_le_sum (tally_positive (s_values s))) as L.
  split; [lia|]. split; intro H.
  - destruct (tally (s_values s)); [|simpl in H; lia].
    simpl in T. lia.
  - lia.
Qed.

(** The share of the most common value: none without values, otherwise
    in (0, 1] and at least one over the number of distinct values. *)
Lemma top_value_share_bounds (s : Series) :
  (_safe_nunique s = 0%Z -> top_value_share s = 0%Q) /\
  ((0 < _safe_nunique s)%Z ->
   (0 < top_value_share s)%Q /\ (top_value_share s <= 1)%Q /\
   (1 <= top_value_share s * inject_Z (_safe_nunique s))%Q).
Proof.
  unfold _safe_nunique, top_value_share. cbv zeta.
  rewrite (Permutation_length (value_counts_perm (s_values s))).
  pose proof (value_counts_positive (s_values s)) as P.
  pose proof (value_counts_sorted (s_values s)) as S.
  destruct (value_counts (s_values s)) as [|top rest] eqn:E.
  - split; [reflexivity|]. simpl. lia.
  - split; [simpl; lia|]. intros _.
    set (vc := top :: rest) in *.
    assert (Hin : In top vc) by now left.
    pose proof (@sum_member _ _ P Hin) as Hle.
    rewrite Forall_forall in P. pose proof (P top Hin) as H1.
    assert (Ht : (0 < inject_Z (Np.sum (map snd vc)))%Q)
      by (rewrite <- (Zlt_Qlt 0); lia).
    assert (Hall : Forall (fun kc => (snd kc <= snd top)%Z) vc).
    { constructor; [lia|]. apply StronglySorted_inv in S.
      destruct S as [_ S]. exact S. }
    pose proof (sum_le_top Hall) as Hn.
    split; [|split].
    + apply Qlt_shift_div_l; [exact Ht|]. rewrite Qmult_0_l.
      rewrite <- (Zlt_Qlt 0). lia.
    + apply Qle_shift_div_r; [exact Ht|]. rewrite Qmult_1_l.
      now rewrite <- Zle_Qle.
    + unfold Qdiv.
      rewrite <- Qmult_assoc, (Qmult_comm (/ _)), Qmult_assoc.
      apply Qle_shift_div_l; [exact Ht|]. rewrite Qmult_1_l.
      rewrite <- inject_Z_mult, <- Zle_Qle. lia.
Qed.

Lemma isna_mean_bounds (s : Series) :
  (s_values s = [] -> isna_mean s = None) /\
  (s_values s <> [] ->
   exists q : Q, isna_mean s = Some q /\ (0 <= q)%Q /\ (q <= 1)%Q).
Proof.
  unfold isna_mean, isna_sum.
  pose proof (filter_length_le isna (s_values s)) as L.
  destruct (s_values s) as [|c l] eqn:E; [split; [reflexivity|congruence]|].
  split; [discriminate|]. intros _. eexists. split; [reflexivity|].
  assert (T : (0 < inject_Z (Z.of_nat (length (c :: l))))%Q)
    by (rewrite <- (Zlt_Qlt 0); simpl length; lia).
  split.
  - apply Qle_shift_div_l; [exact T|]. rewrite Qmult_0_l.
    rewrite <- (Zle_Qle 0). lia.
  - apply Qle_shift_div_r; [exact T|]. rewrite Qmult_1_l.
    rewrite <- Zle_Qle. lia.
Qed.

(** X17.  The type summary raises [KeyError] on a frame without columns and
    otherwise has one row per column.  In each row the number of distinct
    values is at most the number of non-missing cells and is 0 only when
    there is none; the share of the most common value is 0 when the column
    has no value and otherwise lies in (0, 1] and is at least one over the
    number of distinct values; the missing share is undefined for a column
    without cells and otherwise lies in [0, 1]; and for a frame whose
    columns all have the frame's number of rows the unique ratio lies in
    [0, 1]. *)
Theorem type_summary_spec (df : DataFrame) :
  (df = [] -> type_summary df = Raise KeyError) /\
  (df <> [] ->
   exists out : list TypeRow,
     type_summary df = Ok out /\
     Permutation (columns df) (map t_column out) /\
     Forall (fun r =>
               exists s : Series,
                 In (t_column r, s) df /\
                 t_dtype r = s_dtype s /\
                 (0 <= t_nunique r <= notna_sum s)%Z /\
                 (t_nunique r = 0%Z <-> notna_sum s = 0%Z) /\
                 (t_nunique r = 0%Z -> t_top_value_share r = 0%Q) /\
                 ((0 < t_nunique r)%Z ->
                  (0 < t_top_value_share r)%Q /\
                  (t_top_value_share r <= 1)%Q /\
                  (1 <= t_top_value_share r * inject_Z (t_nunique r))%Q) /\
                 (s_values s = [] -> t_missing_pct r = None) /\
                 (s_values s <> [] ->
                  exists q : Q, t_missing_pct r = Some q /\
                                (0 <= q)%Q /\ (q <= 1)%Q) /\
                 (well_formed df ->
                  (0 <= t_unique_ratio r)%Q /\ (t_unique_ratio r <= 1)%Q))
            out).
Proof.
  split; [intros ->; reflexivity|].
  intro Hne. unfold type_summary.
  destruct df as [|c0 df0] eqn:Edf; [congruence|]. rewrite <- Edf in *.
  assert (Em : map (type_row (nrows df)) df =
               type_row (nrows df) c0 :: map (type_row (nrows df)) df0)
    by (rewrite Edf at 2; reflexivity).
  rewrite Em, <- Em. clear Em.
  eexists. split; [reflexivity|]. split.
  - eapply Permutation_trans; [|apply Permutation_map, sort_by_perm].
    unfold columns. rewrite map_map. reflexivity.
  - eapply Permutation_Forall; [apply sort_by_perm|].
    apply Forall_forall. intros r Hr.
    apply in_map_iff in Hr. destruct Hr as [[n s] [<- Hin]].
    unfold type_row.
    cbn [t_column t_dtype t_missing_pct t_nunique t_unique_ratio
         t_top_value_share fst snd].
    exists s. split; [exact Hin|]. split; [reflexivity|].
    destruct (nunique_bounds s) as [N1 N2].
    destruct (top_value_share_bounds s) as [T1 T2].
    destruct (isna_mean_bounds s) as [M1 M2].
    repeat (split; [assumption|]).
    intro Hwf. unfold well_formed in Hwf. rewrite Forall_forall in Hwf.
    pose proof (Hwf (n, s) Hin) as L. cbn [snd] in L.
    assert (Hn : (_safe_nunique s <= Z.of_nat (nrows df))%Z).
    { unfold notna_sum in N1.
      pose proof (filter_length_le notna (s_values s)). lia. }
    destruct (Nat.eqb_spec (nrows df) 0) as [E|E];
      [split; discriminate|].
    assert (T : (0 < inject_Z (Z.of_nat (nrows df)))%Q)
      by (rewrite <- (Zlt_Qlt 0); lia).
    split.
    + apply Qle_shift_div_l; [exact T|]. rewrite Qmult_0_l.
      rewrite <- (Zle_Qle 0). lia.
    + apply Qle_shift_div_r; [exact T|]. rewrite Qmult_1_l.
      now rewrite <- Zle_Qle.
Qed.

(** ** categorical_preview *)




(** ** red_flag_columns *)

Lemma type_summary_no_columns (df : DataFrame) :
  df = [] -> type_summary df = Raise KeyError.
Proof. intros ->. reflexivity. Qed.

(** Membership in the red-flag report. *)
Lemma red_flag_columns_In (df : DataFrame) (config : option ProfileConfig)
    (t : list TypeRow) :
  type_summary df = Ok t ->
  exists out : list FlagRow,
    red_flag_columns df config = Ok out /\
    (length out <= 3 * length t)%nat /\
    forall (r : TypeRow) (f : string),
      In {| f_row := r; f_flag := f |} out <->
      In r t /\
      ((f = "high_missingness" /\
        exists q : Q, t_missing_pct r = Some q /\ (1 # 2 <= q)%Q) \/
       (f = "high_cardinality_possible_id" /\
        (high_cardinality_threshold
           match config with Some c => c | None => default_profile_config end
         <= t_unique_ratio r)%Q) \/
       (f = "low_variance" /\
        (1 - low_variance_threshold
               match config with Some c => c | None => default_profile_config end
         <= t_top_value_share r)%Q)).
Proof.
  intros Ht. unfold red_flag_columns. rewrite Ht. cbv zeta.
  set (cfg := match config with Some c => c | None => default_profile_config end).
  eexists. split; [reflexivity|]. split.
  + rewrite <- (Permutation_length (sort_by_perm flag_row_leb _)).
    rewrite !length_app, !length_map.
    pose proof (filter_length_le
                  (fun r => fnum_geb (t_missing_pct r) (1 # 2)) t).
    pose proof (filter_length_le
                  (fun r => Qle_bool (high_cardinality_threshold cfg)
                                     (t_unique_ratio r)) t).
    pose proof (filter_length_le
                  (fun r => Qle_bool (1 - low_variance_threshold cfg)
                                     (t_top_value_share r)) t).
    lia.
  + intros r f. split.
    * intro H.
      apply (Permutation_in _ (Permutation_sym (sort_by_perm _ _))) in H.
      apply in_app_or in H. destruct H as [H|H];
        [|apply in_app_or in H; destruct H as [H|H]];
        apply in_map_iff in H; destruct H as [r' [E H]];
        inversion E; subst; apply filter_In in H; destruct H as [Hin Hf];
        (split; [exact Hin|]).
      -- left. split; [reflexivity|].
         destruct (t_missing_pct r) as [q|]; [|discriminate].
         exists q. split; [reflexivity|]. now apply Qle_bool_iff.
      -- right; left. split; [reflexivity|]. now apply Qle_bool_iff.
      -- right; right. split; [reflexivity|]. now apply Qle_bool_iff.
    * intros [Hin H].
      apply (Permutation_in _ (sort_by_perm _ _)).
      destruct H as [[-> [q [Hq Hle]]]|[[-> Hle]|[-> Hle]]].
      -- apply in_or_app. left. apply in_map_iff. exists r.
         split; [reflexivity|]. apply filter_In. split; [exact Hin|].
         rewrite Hq. now apply Qle_bool_iff.
      -- apply in_or_app. right. apply in_or_app. left.
         apply in_map_iff. exists r. split; [reflexivity|].
         apply filter_In. split; [exact Hin|]. now apply Qle_bool_iff.
      -- apply in_or_app. right. apply in_or_app. right.
         apply in_map_iff. exists r. split; [reflexivity|].
         apply filter_In. split; [exact Hin|]. now apply Qle_bool_iff.
Qed.

(** X19.  The red-flag report raises [KeyError] on a frame without columns.
    Otherwise it holds a row of the type summary under a flag exactly when
    the row earns that flag: "high_missingness" for a defined missing share
    of at least one half, "high_cardinality_possible_id" for a unique ratio
    at or above its threshold, "low_variance" for a top-value share at or
    above one less its threshold; so a column has at most three rows. *)
Theorem red_flag_columns_spec (df : DataFrame)
    (config : option ProfileConfig) :
  let cfg := match config with Some c => c | None => default_profile_config end in
  (df = [] -> red_flag_columns df config = Raise KeyError) /\
  (forall t : list TypeRow,
     type_summary df = Ok t ->
     exists out : list FlagRow,
       red_flag_columns df config = Ok out /\
       (length out <= 3 * length t)%nat /\
       forall (r : TypeRow) (f : string),
         In {| f_row := r; f_flag := f |} out <->
         In r t /\
         ((f = "high_missingness" /\
           exists q : Q, t_missing_pct r = Some q /\ (1 # 2 <= q)%Q) \/
          (f = "high_cardinality_possible_id" /\
           (high_cardinality_threshold cfg <= t_unique_ratio r)%Q) \/
          (f = "low_variance" /\
           (1 - low_variance_threshold cfg <= t_top_value_share r)%Q))).
Proof.
  cbv zeta. split.
  - intro H. unfold red_flag_columns.
    now rewrite (type_summary_no_columns H).
  - intros t Ht. exact (red_flag_columns_In df config Ht).
Qed.

Lemma type_summary_row (df : DataFrame) (c : string * Series) :
  In c df ->
  exists t : list TypeRow,
    type_summary df = Ok t /\ In (type_row (nrows df) c) t.
Proof.
  intro Hin. unfold type_summary.
  destruct (map (type_row (nrows df)) df) as [|r0 rs] eqn:E.
  - destruct df; [destruct Hin|discriminate].
  - eexists. split; [reflexivity|].
    apply (Permutation_in _ (sort_by_perm _ _)). rewrite <- E.
    now apply in_map.
Qed.

(** X20.  A column with exactly one distinct value is flagged
    "low_variance", whatever the share of its cells that are missing, as
    long as the low-variance threshold is not negative: its top-value share
    is 1. *)
Theorem red_flag_single_value (df : DataFrame)
    (config : option ProfileConfig) (n : string) (s : Series) :
  let cfg := match config with Some c => c | None => default_profile_config end in
  In (n, s) df ->
  _safe_nunique s = 1%Z ->
  (0 <= low_variance_threshold cfg)%Q ->
  exists (out : list FlagRow) (r : TypeRow),
    red_flag_columns df config = Ok out /\
    In {| f_row := r; f_flag := "low_variance" |} out /\
    t_column r = n /\ (t_top_value_share r == 1)%Q.
Proof.
  cbv zeta. intros Hin Hn Hlv.
  destruct (type_summary_row df (n, s) Hin) as [t [Ht Hr]].
  destruct (red_flag_columns_In df config Ht) as [out [Ho [_ Hmem]]].
  destruct (top_value_share_bounds s) as [_ T].
  destruct T as [_ [T1 T2]]; [lia|].
  rewrite Hn in T2. change (inject_Z 1) with 1%Q in T2.
  rewrite Qmult_1_r in T2.
  exists out, (type_row (nrows df) (n, s)).
  split; [exact Ho|]. split; [|split; [reflexivity|]].
  - apply Hmem. split; [exact Hr|]. right; right. split; [reflexivity|].
    unfold type_row. cbn [t_top_value_share snd].
    eapply Qle_trans; [|exact T2].
    apply (Qplus_le_l _ _ (low_variance_threshold
                              match config with
                              | Some c => c
                              | None => default_profile_config
                              end)).
    eapply Qle_trans; [|apply Qplus_le_compat; [apply Qle_refl|exact Hlv]].
    ring_simplify. apply Qle_refl.
  - unfold type_row. cbn [t_top_value_share snd].
    now apply Qle_antisym.
Qed.

Lemma red_flag_single_value_witness :
  exists (out : list FlagRow) (r : TypeRow),
    red_flag_columns df_profile None = Ok out /\
    In {| f_row := r; f_flag := "low_variance" |} out /\
    t_column r = "gap" /\ (t_top_value_share r == 1)%Q.
Proof.
  apply (@red_flag_single_value df_profile None "gap"
           (object_series [CNull; CNull; CStr "u"; CNull])).
  - simpl. right. right. now left.
  - reflexivity.
  - discriminate.
Defined.
